(** * ORGTool staffing tool: the scoring functions of [app.py]

    A shallow embedding of the scoring engine of [src/app.py]
    ([calculate_workload_score], [calculate_skill_fit], [normalize_tags],
    [calculate_recency_factor], [calculate_intensity_factor],
    [calculate_project_similarity], [calculate_final_score], [safe_int] and
    the per-consultant part of the [match] route), together with the
    properties the specification states about them.

    Python numbers are modelled as the interpreter has them: unbounded
    integers are [Z]; a [float] is an IEEE-754 binary64 value, and every
    arithmetic operation rounds the exact result to nearest, ties to even.
    Exceptions are values of an error monad.  The methods of [str] that the
    code calls ([lower], [strip]) and the conversion [int] of a text are the
    interpreter's; they are parameters of the model (class [Text]). *)

From Stdlib Require Import ZArith Lia Bool List Ascii String.
From Stdlib Require Import SpecFloat.
From stdpp Require Import base option gmap strings list sorting.

Local Open Scope Z_scope.

(** ** Binary64 rounding

    Every finite binary64 number is an integer multiple of [2^-1074], so a
    finite float is represented by that integer (its value "in units").
    A positive integer [u] of units is representable when it has at most 53
    significant bits.  [rnd_units n d] is the representable number nearest
    to the rational [n/d] (given in units), ties to the even significand,
    with an unbounded exponent; overflow is decided afterwards. *)
Module Binary64.

Definition U : Z := 2 ^ 1074.
Definition OVF : Z := 2 ^ 2098.
#[global] Arguments U : simpl never.
#[global] Arguments OVF : simpl never.

(** Nearest integer to [N/D] for [0 < D], ties to even. *)
Definition rhe (N D : Z) : Z :=
  let f := N / D in
  let r := N mod D in
  if 2 * r <? D then f
  else if D <? 2 * r then f + 1
  else if Z.even f then f else f + 1.

Definition rnd_pos (n d : Z) : Z :=
  let k := Z.max (Z.log2 (n / d) - 52) 0 in
  rhe n (d * 2 ^ k) * 2 ^ k.

Definition rnd_units (n d : Z) : Z :=
  if 0 <=? n then rnd_pos n d else - rnd_pos (- n) d.

(** *** The float type and its operations *)

Inductive float : Type :=
| Fin (u : Z)       (* the finite number u * 2^-1074; zeros are not signed *)
| PInf
| NInf
| NaN.

Definition rnd (n d : Z) : float :=
  let u := rnd_units n d in
  if OVF <=? u then PInf else if u <=? - OVF then NInf else Fin u.

#[global] Arguments rnd : simpl never.

(** Conversion of an integer, and of a decimal literal [n/d]. *)
Definition of_Z (z : Z) : float := rnd (z * U) 1.
Definition lit (n d : Z) : float := rnd (n * U) d.

Definition fadd (a b : float) : float :=
  match a, b with
  | Fin x, Fin y => rnd (x + y) 1
  | NaN, _ | _, NaN => NaN
  | PInf, NInf | NInf, PInf => NaN
  | PInf, _ | _, PInf => PInf
  | NInf, _ | _, NInf => NInf
  end.

Definition inf_of_sign (s : Z) : float :=
  if s =? 0 then NaN else if 0 <? s then PInf else NInf.

Definition fsgn (a : float) : Z :=
  match a with Fin u => Z.sgn u | PInf => 1 | NInf => -1 | NaN => 0 end.

Definition fmul (a b : float) : float :=
  match a, b with
  | Fin x, Fin y => rnd (x * y) U
  | NaN, _ | _, NaN => NaN
  | _, _ => inf_of_sign (fsgn a * fsgn b)
  end.

(** Division by a non-zero float (Python raises on a zero divisor before
    dividing, see [num_div]). *)
Definition fdiv (a b : float) : float :=
  match a, b with
  | Fin x, Fin y => if 0 <? y then rnd (x * U) y else rnd (- x * U) (- y)
  | NaN, _ | _, NaN => NaN
  | Fin _, _ => Fin 0
  | _, Fin y => inf_of_sign (fsgn a * (if 0 <=? y then 1 else -1))
  | _, _ => NaN
  end.

Definition fltb (a b : float) : bool :=
  match a, b with
  | NaN, _ | _, NaN => false
  | Fin x, Fin y => x <? y
  | NInf, NInf => false
  | NInf, _ => true
  | _, PInf => match a with PInf => false | _ => true end
  | _, _ => false
  end.

Definition feqb (a b : float) : bool :=
  match a, b with
  | Fin x, Fin y => x =? y
  | PInf, PInf | NInf, NInf => true
  | _, _ => false
  end.

(** *** Order on floats *)

Definition fle (a b : float) : Prop :=
  match a, b with
  | NaN, _ | _, NaN => False
  | NInf, _ | _, PInf => True
  | Fin x, Fin y => x <= y
  | _, _ => False
  end.

Definition fnonneg (a : float) : Prop := fle (Fin 0) a.

End Binary64.

Import Binary64.

(** ** Python run-time model *)

(** The exceptions the scoring code can raise. *)
Inductive exn : Type :=
| ValueError | TypeError | OverflowError | ZeroDivisionError.

Inductive result (A : Type) : Type :=
| Ok (a : A)
| Raise (e : exn).
Arguments Ok {A} a.
Arguments Raise {A} e.

#[global] Instance result_ret : MRet result := fun A a => Ok a.
#[global] Instance result_bind : MBind result := fun A B f m =>
  match m with Ok a => f a | Raise e => Raise e end.

(** A Python number: an unbounded [int] or a [float]. *)
Inductive num : Type :=
| Int (z : Z)
| Flt (f : float).

(** The values the numeric entry points are applied to. *)
Inductive pyval : Type :=
| VNone
| VInt (z : Z)
| VFloat (f : float)
| VStr (s : string).

(** Implicit conversion of an [int] operand in mixed arithmetic; CPython
    raises [OverflowError] when the integer is too large. *)
Definition to_float (a : num) : result float :=
  match a with
  | Flt f => Ok f
  | Int z => match of_Z z with Fin u => Ok (Fin u) | _ => Raise OverflowError end
  end.

Definition num_add (a b : num) : result num :=
  match a, b with
  | Int x, Int y => Ok (Int (x + y))
  | _, _ => x ← to_float a; y ← to_float b; Ok (Flt (fadd x y))
  end.

Definition num_mul (a b : num) : result num :=
  match a, b with
  | Int x, Int y => Ok (Int (x * y))
  | _, _ => x ← to_float a; y ← to_float b; Ok (Flt (fmul x y))
  end.

(** True division [a / b]; on two integers the exact quotient is rounded
    once. *)
Definition num_div (a b : num) : result num :=
  match a, b with
  | Int x, Int y =>
      if y =? 0 then Raise ZeroDivisionError
      else match (if 0 <? y then rnd (x * U) y else rnd (- x * U) (- y)) with
           | Fin u => Ok (Flt (Fin u))
           | _ => Raise OverflowError
           end
  | _, _ =>
      x ← to_float a; y ← to_float b;
      if feqb y (Fin 0) then Raise ZeroDivisionError else Ok (Flt (fdiv x y))
  end.

(** [a < b]; an integer and a float are compared by exact value. *)
Definition num_ltb (a b : num) : bool :=
  match a, b with
  | Int x, Int y => x <? y
  | Flt f, Flt g => fltb f g
  | Int x, Flt (Fin u) => x * U <? u
  | Int _, Flt PInf => true
  | Int _, Flt _ => false
  | Flt (Fin u), Int y => u <? y * U
  | Flt NInf, Int _ => true
  | Flt _, Int _ => false
  end.

Definition num_gtb (a b : num) : bool := num_ltb b a.

(** [min(a, b)] and [max(a, b)]: the first argument is kept unless the
    second is strictly smaller (larger). *)
Definition py_min (a b : num) : num := if num_ltb b a then b else a.
Definition py_max (a b : num) : num := if num_gtb b a then b else a.

(** [round(x)]: nearest integer, ties to even. *)
Definition py_round (a : num) : result Z :=
  match a with
  | Int z => Ok z
  | Flt (Fin u) => Ok (rhe u U)
  | Flt NaN => Raise ValueError
  | Flt _ => Raise OverflowError
  end.

(** [round(x, 1)]: the float nearest to [x] rounded to one decimal. *)
Definition py_round1 (a : num) : num :=
  match a with
  | Int z => Int z
  | Flt (Fin u) => Flt (lit (rhe (10 * u) U) 10)
  | Flt f => Flt f
  end.

Definition truthy (v : pyval) : bool :=
  match v with
  | VNone => false
  | VInt z => negb (z =? 0)
  | VFloat f => negb (feqb f (Fin 0))
  | VStr s => negb (String.eqb s "")
  end.

(** [v or d] *)
Definition py_or (v d : pyval) : pyval := if truthy v then v else d.

(** *** Texts

    A [str] value is represented by the string of the bytes of its UTF-8
    encoding: equality, emptiness and splitting at a comma are those of the
    text.  [str.lower()], [str.strip()] and [int(s)] are not code of the
    program: they belong to the interpreter and follow the Unicode
    database.  They are the parameters of the model; the model assumes
    nothing about them. *)
Class Text : Type := {
  (** [s.lower()] *)
  lower : string -> string;
  (** [s.strip()] *)
  strip : string -> string;
  (** [int(s)] for a text [s]; [None] when it raises [ValueError] *)
  int_of_string : string -> option Z
}.

Fixpoint split_chars (sep : ascii) (s : list ascii) : list (list ascii) :=
  match s with
  | [] => [[]]
  | c :: r =>
      if Ascii.eqb c sep then [] :: split_chars sep r
      else match split_chars sep r with
           | h :: t => (c :: h) :: t
           | [] => [[c]]
           end
  end.

(** [s.split(sep)] for a separator of one ASCII character. *)
Definition split (sep : ascii) (s : string) : list string :=
  map string_of_list_ascii (split_chars sep (list_ascii_of_string s)).

(** *** Texts of ASCII characters

    What the three operations are in CPython on a text whose characters
    are all ASCII; the examples are evaluated with them. *)

(** A text of ASCII characters only. *)
Definition ascii_only (s : string) : Prop :=
  Forall (fun c => (N_of_ascii c < 128)%N) (list_ascii_of_string s).

(** The ASCII characters for which [str.isspace] holds, which [strip]
    removes: tab to carriage return, the four separators 28-31 and the
    space. *)
Definition is_space (c : ascii) : bool :=
  let n := N_of_ascii c in
  (((9 <=? n) && (n <=? 13)) || ((28 <=? n) && (n <=? 32)))%N.

Fixpoint lstrip (s : list ascii) : list ascii :=
  match s with
  | c :: r => if is_space c then lstrip r else s
  | [] => []
  end.

Definition strip_chars (s : list ascii) : list ascii :=
  rev (lstrip (rev (lstrip s))).

Definition ascii_strip (s : string) : string :=
  string_of_list_ascii (strip_chars (list_ascii_of_string s)).

Definition lower_char (c : ascii) : ascii :=
  let n := N_of_ascii c in
  if ((65 <=? n) && (n <=? 90))%N then ascii_of_N (n + 32) else c.

Definition ascii_lower (s : string) : string :=
  string_of_list_ascii (map lower_char (list_ascii_of_string s)).

(** The whitespace [int] skips around an ASCII text: tab to carriage
    return and the space (not the separators 28-31). *)
Definition is_int_space (c : ascii) : bool :=
  let n := N_of_ascii c in
  (((9 <=? n) && (n <=? 13)) || (n =? 32))%N.

Fixpoint int_lstrip (s : list ascii) : list ascii :=
  match s with
  | c :: r => if is_int_space c then int_lstrip r else s
  | [] => []
  end.

Definition digit_of (c : ascii) : option Z :=
  let n := Z.of_N (N_of_ascii c) in
  if (48 <=? n) && (n <=? 57) then Some (n - 48) else None.

(** Decimal digits, single underscores allowed between digits. *)
Fixpoint parse_digits (s : list ascii) (acc : Z) (after_digit : bool) : option Z :=
  match s with
  | [] => if after_digit then Some acc else None
  | c :: r =>
      match digit_of c with
      | Some d => parse_digits r (10 * acc + d) true
      | None =>
          if Ascii.eqb c "_" && after_digit then parse_digits r acc false
          else None
      end
  end.

(** The default limit of CPython (3.11 and later) on the number of digits
    of a text converted by [int]. *)
Definition max_str_digits : Z := 4300.

Definition count_digits (s : list ascii) : Z :=
  Z.of_nat (length (List.filter
                      (fun c => match digit_of c with
                                | Some _ => true
                                | None => false
                                end) s)).

(** [int(s)] on an ASCII text: surrounding whitespace, an optional sign,
    digits; [None] stands for [ValueError]. *)
Definition ascii_int (s : string) : option Z :=
  let body := rev (int_lstrip (rev (int_lstrip (list_ascii_of_string s)))) in
  if max_str_digits <? count_digits body then None
  else
    match body with
    | c :: r =>
        if Ascii.eqb c "-" then Z.opp <$> parse_digits r 0 false
        else if Ascii.eqb c "+" then parse_digits r 0 false
        else parse_digits (c :: r) 0 false
    | [] => None
    end.

Definition ascii_text : Text :=
  {| lower := ascii_lower; strip := ascii_strip; int_of_string := ascii_int |}.

(** A normalised ASCII tag: not empty, trimmed, in lower case and without
    a comma. *)
Definition clean_tag (x : string) : Prop :=
  x <> ""%string /\ ascii_strip x = x /\ ascii_lower x = x /\
  ~ In ","%char (list_ascii_of_string x).

(** ** The program

    From here on the definitions are those of [app.py], for any
    operations on texts. *)
Section Model.

Context {text : Text}.

(** [int(v)] *)
Definition py_int (v : pyval) : result Z :=
  match v with
  | VInt z => Ok z
  | VFloat (Fin u) => Ok (Z.quot u U)
  | VFloat NaN => Raise ValueError
  | VFloat _ => Raise OverflowError
  | VStr s => match int_of_string s with Some z => Ok z | None => Raise ValueError end
  | VNone => Raise TypeError
  end.

(** ** Data model (the SQLAlchemy models the scoring code reads) *)

Record ConsultantSkill : Type := {
  cs_skill_id : Z;
  cs_level : Z
}.

Record MonthlyWorkload : Type := {
  mw_consultant_id : Z;
  mw_month : Z;
  mw_work_days : option Z;
  mw_perceived_load : option Z
}.

Record Project : Type := {
  project_id : Z;
  project_name : string;
  project_client : option string;
  project_domain_tags : option string
}.

Record ConsultantProject : Type := {
  cp_project : Project;
  cp_role : option string;
  cp_start_month : option Z;
  cp_start_year : option Z;
  cp_end_month : option Z;
  cp_end_year : option Z;
  cp_notes : option string;
  cp_intensity_level : option Z
}.

Record Consultant : Type := {
  consultant_id : Z;
  consultant_name : string;
  consultant_skills : list ConsultantSkill;
  consultant_projects : list ConsultantProject
}.

(** The value of [datetime.now()], read by the recency computation. *)
Record Clock : Type := { now_year : Z; now_month : Z }.

(** ** Scoring functions *)

Record workload_data : Type := {
  workload_score : num;
  workload_percent : Z;
  availability_percent : Z;
  work_days : Z;
  perceived_load : Z
}.

Definition max_score : num := Flt (lit 23 1).

Definition calculate_workload_score (work_days perceived_load : pyval)
  : result workload_data :=
  wd ← py_int (py_or work_days (VInt 0));
  let work_days := Z.max 0 wd in
  pl ← py_int (py_or perceived_load (VInt 0));
  let perceived_load := Z.max 0 (Z.min 10 pl) in
  weighted ← num_mul (Int perceived_load) (Flt (lit 3 10));
  workload_score ← num_add (Int work_days) weighted;
  ratio ← num_div workload_score max_score;
  scaled ← num_mul ratio (Int 100);
  rounded ← py_round scaled;
  let workload_percent := Z.min 100 rounded in
  let availability_percent := 100 - workload_percent in
  Ok {| workload_score := py_round1 workload_score;
        workload_percent := workload_percent;
        availability_percent := availability_percent;
        work_days := work_days;
        perceived_load := perceived_load |}.

(** The per-skill score of the loop body of [calculate_skill_fit]. *)
Definition skill_score (consultant_skills_dict : gmap Z Z) (req : Z * Z)
  : result num :=
  let '(skill_id, required_level) := req in
  let consultant_level := default 0 (consultant_skills_dict !! skill_id) in
  if 0 <? required_level then
    q ← num_div (Int consultant_level) (Int required_level);
    Ok (py_min (Flt (lit 1 1)) q)
  else
    Ok (if 0 <? consultant_level then Flt (lit 1 1) else Flt (lit 0 1)).

Fixpoint skill_scores (consultant_skills_dict : gmap Z Z)
    (required_skills : list (Z * Z)) : result (list num) :=
  match required_skills with
  | [] => Ok []
  | req :: rest =>
      s ← skill_score consultant_skills_dict req;
      ss ← skill_scores consultant_skills_dict rest;
      Ok (s :: ss)
  end.

(** [sum(xs)]: left-to-right addition starting from the integer 0. *)
Fixpoint py_sum_from (acc : num) (xs : list num) : result num :=
  match xs with
  | [] => Ok acc
  | x :: rest => acc' ← num_add acc x; py_sum_from acc' rest
  end.

Definition py_sum (xs : list num) : result num := py_sum_from (Int 0) xs.

Definition calculate_skill_fit (consultant_skills_dict : gmap Z Z)
    (required_skills : list (Z * Z)) : result Z :=
  match required_skills with
  | [] => Ok 100
  | _ =>
      per_skill_scores ← skill_scores consultant_skills_dict required_skills;
      match per_skill_scores with
      | [] => Ok 0
      | _ =>
          total ← py_sum per_skill_scores;
          avg_score ← num_div total (Int (Z.of_nat (length per_skill_scores)));
          scaled ← num_mul avg_score (Int 100);
          py_round scaled
      end
  end.

Definition normalize_tags (tags_string : option string) : gset string :=
  match tags_string with
  | None => ∅
  | Some s =>
      if String.eqb s "" then ∅
      else list_to_set
             (map (fun t => lower (strip t))
                  (filter (fun t => strip t ≠ ""%string) (split "," s)))
  end.

(** "not x" on an optional integer column. *)
Definition missing (o : option Z) : bool :=
  match o with None => true | Some z => z =? 0 end.

(** [datetime(year, month, 1)], of which only year and month are read. *)
Definition datetime_ym (year month : Z) : result (Z * Z) :=
  if (1 <=? year) && (year <=? 9999) && (1 <=? month) && (month <=? 12)
  then Ok (year, month) else Raise ValueError.

(** Whole months between the clock and an end date (lines 225-227, and
    again lines 300-302). *)
Definition months_since (now : Clock) (end_year end_month : Z) : result Z :=
  '(y, m) ← datetime_ym end_year end_month;
  Ok ((now_year now - y) * 12 + (now_month now - m)).

Definition calculate_recency_factor (now : Clock) (end_year end_month : option Z)
  : result num :=
  if missing end_year || missing end_month then Ok (Flt (lit 75 100))
  else
    months ← months_since now (default 0 end_year) (default 0 end_month);
    if months <=? 6 then Ok (Flt (lit 1 1))
    else if months <=? 18 then Ok (Flt (lit 85 100))
    else if months <=? 36 then Ok (Flt (lit 70 100))
    else Ok (Flt (lit 60 100)).

Definition calculate_intensity_factor (intensity_level : option Z) : num :=
  match intensity_level with
  | None => Flt (lit 85 100)
  | Some l =>
      if l =? 1 then Flt (lit 70 100)
      else if l =? 2 then Flt (lit 80 100)
      else if l =? 3 then Flt (lit 88 100)
      else if l =? 4 then Flt (lit 95 100)
      else if l =? 5 then Flt (lit 100 100)
      else Flt (lit 85 100)
  end.

Record best_match_info : Type := {
  bm_project_name : string;
  bm_project_id : Z;
  bm_client_match : bool;
  bm_common_tags : Z;
  bm_total_ref_tags : Z;
  bm_recency_desc : string;
  bm_intensity : option Z;
  bm_role : option string
}.

(** [(client or '').strip().lower()] *)
Definition norm_client (client : option string) : string :=
  lower (strip (default ""%string client)).

(** (A) line 272 *)
Definition client_match_of (client_ref client_past : string) : Z :=
  if negb (String.eqb client_past "") && negb (String.eqb client_ref "")
     && String.eqb client_past client_ref
  then 1 else 0.

(** (B) lines 275-279 *)
Definition tag_overlap_of (tags_ref tags_past : gset string) : result num :=
  if decide (tags_ref = ∅) then Ok (Int 0)
  else num_div (Int (Z.of_nat (size (tags_ref ∩ tags_past))))
               (Int (Z.of_nat (size tags_ref))).

(** Base similarity, line 288. *)
Definition base_similarity (tag_overlap : num) (client_match : Z) : result num :=
  a ← num_mul (Flt (lit 45 100)) tag_overlap;
  b ← num_mul (Flt (lit 35 100)) (Int client_match);
  ab ← num_add a b;
  half ← num_mul (Int client_match) (Flt (lit 5 10));
  both ← num_add tag_overlap half;
  c ← num_mul (Flt (lit 20 100)) (py_min (Int 1) both);
  num_add ab c.

(** Per-project similarity, lines 267-291. *)
Definition similarity_of (now : Clock) (client_ref : string)
    (tags_ref : gset string) (cp : ConsultantProject) : result num :=
  let project := cp_project cp in
  let client_past := norm_client (project_client project) in
  let tags_past := normalize_tags (project_domain_tags project) in
  let client_match := client_match_of client_ref client_past in
  tag_overlap ← tag_overlap_of tags_ref tags_past;
  recency ← calculate_recency_factor now (cp_end_year cp) (cp_end_month cp);
  let intensity_factor := calculate_intensity_factor (cp_intensity_level cp) in
  base ← base_similarity tag_overlap client_match;
  br ← num_mul base recency;
  bri ← num_mul br intensity_factor;
  Ok (py_max (Int 0) (py_min (Int 1) bri)).

(** Recency bucket description, lines 297-310. *)
Definition recency_desc_of (now : Clock) (cp : ConsultantProject) : result string :=
  if missing (cp_end_year cp) || missing (cp_end_month cp)
  then Ok "Date non specificate"%string
  else
    months ← months_since now (default 0 (cp_end_year cp))
                              (default 0 (cp_end_month cp));
    if months <=? 6 then Ok "Ultimo semestre"%string
    else if months <=? 18 then Ok "Ultimo anno e mezzo"%string
    else if months <=? 36 then Ok "Ultimi 3 anni"%string
    else Ok "Più di 3 anni fa"%string.

(** The record built at lines 312-323. *)
Definition match_info_of (now : Clock) (client_ref : string)
    (tags_ref : gset string) (cp : ConsultantProject) : result best_match_info :=
  let project := cp_project cp in
  let client_past := norm_client (project_client project) in
  let tags_past := normalize_tags (project_domain_tags project) in
  recency_desc ← recency_desc_of now cp;
  Ok {| bm_project_name := project_name project;
        bm_project_id := project_id project;
        bm_client_match := client_match_of client_ref client_past =? 1;
        bm_common_tags := Z.of_nat (size (tags_ref ∩ tags_past));
        bm_total_ref_tags := Z.of_nat (size tags_ref);
        bm_recency_desc := recency_desc;
        bm_intensity := cp_intensity_level cp;
        bm_role := cp_role cp |}.

(** One iteration of the loop of [calculate_project_similarity] on the
    state [(best_similarity, best_match_info)]. *)
Definition similarity_step (now : Clock) (client_ref : string)
    (tags_ref : gset string) (st : num * option best_match_info)
    (cp : ConsultantProject) : result (num * option best_match_info) :=
  similarity ← similarity_of now client_ref tags_ref cp;
  if num_gtb similarity (fst st) then
    info ← match_info_of now client_ref tags_ref cp;
    Ok (similarity, Some info)
  else Ok st.

Fixpoint similarity_loop (now : Clock) (client_ref : string)
    (tags_ref : gset string) (st : num * option best_match_info)
    (cps : list ConsultantProject) : result (num * option best_match_info) :=
  match cps with
  | [] => Ok st
  | cp :: rest =>
      st' ← similarity_step now client_ref tags_ref st cp;
      similarity_loop now client_ref tags_ref st' rest
  end.

Definition calculate_project_similarity (now : Clock)
    (consultant_projects : list ConsultantProject)
    (reference_project : option Project) : result (Z * option best_match_info) :=
  match reference_project, consultant_projects with
  | None, _ | _, [] => Ok (0, None)
  | Some ref, _ =>
      let client_ref := norm_client (project_client ref) in
      let tags_ref := normalize_tags (project_domain_tags ref) in
      '(best_similarity, best_match_info) ←
        similarity_loop now client_ref tags_ref (Int 0, None) consultant_projects;
      scaled ← num_mul best_similarity (Int 100);
      score ← py_round scaled;
      Ok (score, best_match_info)
  end.

Definition calculate_final_score (skill_fit availability : Z)
    (project_experience : option Z) : result Z :=
  match project_experience with
  | Some pe =>
      a ← num_mul (Flt (lit 55 100)) (Int skill_fit);
      b ← num_mul (Flt (lit 30 100)) (Int availability);
      ab ← num_add a b;
      c ← num_mul (Flt (lit 15 100)) (Int pe);
      s ← num_add ab c;
      py_round s
  | None =>
      a ← num_mul (Flt (lit 65 100)) (Int skill_fit);
      b ← num_mul (Flt (lit 35 100)) (Int availability);
      s ← num_add a b;
      py_round s
  end.

(** ** Helper functions *)

Definition get_consultant_skills_dict (consultant : Consultant) : gmap Z Z :=
  foldl (fun d cs => <[cs_skill_id cs := cs_level cs]> d) ∅
        (consultant_skills consultant).

Definition column (o : option Z) : pyval :=
  match o with Some z => VInt z | None => VNone end.

(** [MonthlyWorkload.query.filter_by(...).first()] over the table rows. *)
Definition query_workload (table : list MonthlyWorkload) (cid month : Z)
  : option MonthlyWorkload :=
  List.find (fun w => (mw_consultant_id w =? cid) && (mw_month w =? month)) table.

Definition get_consultant_workload_for_month (table : list MonthlyWorkload)
    (consultant : Consultant) (month : Z) : result workload_data :=
  match query_workload table (consultant_id consultant) month with
  | Some workload =>
      calculate_workload_score (column (mw_work_days workload))
                               (column (mw_perceived_load workload))
  | None => calculate_workload_score (VInt 0) (VInt 0)
  end.

Definition safe_int (value : pyval) (default : option Z)
    (min_val max_val : option Z) : result (option Z) :=
  r0 ← match py_int value with
       | Ok z => Ok (Some z)
       | Raise ValueError | Raise TypeError => Ok default
       | Raise e => Raise e
       end;
  r1 ← match min_val with
       | None => Ok r0
       | Some lo =>
           match r0 with
           | Some z => Ok (Some (Z.max lo z))
           | None => Raise TypeError
           end
       end;
  match max_val with
  | None => Ok r1
  | Some hi =>
      match r1 with
      | Some z => Ok (Some (Z.min hi z))
      | None => Raise TypeError
      end
  end.

(** ** The routes, as far as they score a consultant *)

Record match_result : Type := {
  mr_id : Z;
  mr_final_score : Z;
  mr_skill_fit : Z;
  mr_availability : Z;
  mr_project_experience : option Z;
  mr_best_match_info : option best_match_info;
  mr_workload_data : workload_data
}.

(** The body of the loop over consultants in [match] (lines 961-1005). *)
Definition match_consultant (now : Clock) (table : list MonthlyWorkload)
    (month : Z) (required_skills : list (Z * Z))
    (reference_project : option Project) (c : Consultant) : result match_result :=
  let c_skills := get_consultant_skills_dict c in
  skill_fit ← calculate_skill_fit c_skills required_skills;
  workload_data ← get_consultant_workload_for_month table c month;
  let availability := availability_percent workload_data in
  '(project_experience, best_match_info) ←
    match reference_project with
    | Some _ =>
        '(pe, info) ← calculate_project_similarity now (consultant_projects c)
                                                   reference_project;
        Ok (Some pe, info)
    | None => Ok (None, None)
    end;
  final ← calculate_final_score skill_fit availability project_experience;
  Ok {| mr_id := consultant_id c;
        mr_final_score := final;
        mr_skill_fit := skill_fit;
        mr_availability := availability;
        mr_project_experience := project_experience;
        mr_best_match_info := best_match_info;
        mr_workload_data := workload_data |}.

Record overview_result : Type := {
  ov_id : Z;
  ov_workload_data : workload_data
}.

(** The workload part of the loop over consultants in [overview]
    (lines 851-876), for a consultant that passes the filters. *)
Definition overview_consultant (table : list MonthlyWorkload) (month : Z)
    (c : Consultant) : result overview_result :=
  workload_data ← get_consultant_workload_for_month table c month;
  Ok {| ov_id := consultant_id c; ov_workload_data := workload_data |}.

(** ** Definitions used in the statements

    Bounds, the floats computed before the final rounding, the formulas as
    the specification writes them, and example records. *)

(** The float computed at line 170 before rounding. *)
Definition workload_scaled (wd pl : Z) : float :=
  fmul (fdiv (fadd (of_Z wd) (fmul (of_Z pl) (lit 3 10))) (of_Z 23)) (of_Z 100).

(** Largest work-day count for which the float computation is shown to stay
    finite. *)
Definition work_days_bound : Z := 2 ^ 1000.

(** [safe_int]'s two clamping steps, applied to the converted integer. *)
Definition clamp (min_val max_val : option Z) (z : Z) : Z :=
  let z1 := match min_val with Some lo => Z.max lo z | None => z end in
  match max_val with Some hi => Z.min hi z1 | None => z1 end.

Definition idle_month : workload_data :=
  {| workload_score := Flt (Fin 0);
     workload_percent := 0;
     availability_percent := 100;
     work_days := 0;
     perceived_load := 0 |}.

(** The two weight formulas, as the specification writes them:
    [round(0.65*skill_fit + 0.35*availability)] and
    [round(0.55*skill_fit + 0.30*availability + 0.15*project_experience)]. *)
Definition two_term_formula (skill_fit availability : Z) : result Z :=
  a ← num_mul (Flt (lit 65 100)) (Int skill_fit);
  b ← num_mul (Flt (lit 35 100)) (Int availability);
  s ← num_add a b;
  py_round s.

Definition three_term_formula (skill_fit availability project_experience : Z)
  : result Z :=
  a ← num_mul (Flt (lit 55 100)) (Int skill_fit);
  b ← num_mul (Flt (lit 30 100)) (Int availability);
  ab ← num_add a b;
  c ← num_mul (Flt (lit 15 100)) (Int project_experience);
  s ← num_add ab c;
  py_round s.

(** Largest consultant level for which the quotient of the loop body is
    shown not to overflow. *)
Definition level_bound : Z := 2 ^ 1000.

(** A float score between [l] and 1.0. *)
Definition score_in (l : Z) (s : num) : Prop :=
  exists u, s = Flt (Fin u) /\ l * U <= u <= U.

(** The precondition on one required skill: the consultant's level is a
    non-negative integer up to [level_bound], and when [l = 1] the
    requirement is positive and met. *)
Definition requirement_ok (l : Z) (d : gmap Z Z) (req : Z * Z) : Prop :=
  0 <= default 0 (d !! req.1) <= level_bound /\
  (l = 1 -> 0 < req.2 <= default 0 (d !! req.1)).

(** The values a clamped similarity can take: the integers 0 and 1 (from
    [max(0, .)] and [min(1, .)]) or a float strictly between them. *)
Definition unit_interval (s : num) : Prop :=
  s = Int 0 \/ s = Int 1 \/ exists u, s = Flt (Fin u) /\ 0 < u < U.

(** The exact value of a finite number, in units. *)
Definition uval (s : num) : Z :=
  match s with
  | Int z => z * U
  | Flt (Fin u) => u
  | Flt _ => 0
  end.

(** Operands whose implicit conversion to float cannot fail. *)
Definition small (x : num) : Prop :=
  match x with Int z => 0 <= z < 2 ^ 53 | Flt _ => True end.

(** An experience whose end date, when both parts are given, is a date. *)
Definition well_dated (cp : ConsultantProject) : Prop :=
  missing (cp_end_year cp) || missing (cp_end_month cp) = true \/
  exists y m, cp_end_year cp = Some y /\ cp_end_month cp = Some m /\
              1 <= y <= 9999 /\ 1 <= m <= 12.

(** Example records, after the demo projects seeded by the application. *)
Definition example_reference : Project :=
  {| project_id := 1; project_name := "Internal - AI Adoption Workshop";
     project_client := Some "Internal"%string;
     project_domain_tags := Some "AI, Training"%string |}.

Definition example_past : Project :=
  {| project_id := 3; project_name := "Lavazza - Mental Health Day";
     project_client := Some "Lavazza"%string;
     project_domain_tags := Some "Wellbeing, Training"%string |}.

Definition example_same : Project :=
  {| project_id := 4; project_name := "Internal - AI Bootcamp";
     project_client := Some " internal "%string;
     project_domain_tags := Some "training, ai, coaching"%string |}.

Definition experience (p : Project) (end_month end_year intensity : option Z)
  : ConsultantProject :=
  {| cp_project := p; cp_role := Some "Facilitator"%string;
     cp_start_month := None; cp_start_year := None;
     cp_end_month := end_month; cp_end_year := end_year;
     cp_notes := None; cp_intensity_level := intensity |}.

Definition example_clock : Clock := {| now_year := 2026; now_month := 11 |}.

(** The floats rounded by [calculate_final_score]. *)
Definition final3 (sf av pe : Z) : float :=
  fadd (fadd (fmul (lit 55 100) (of_Z sf)) (fmul (lit 30 100) (of_Z av)))
       (fmul (lit 15 100) (of_Z pe)).

Definition final2 (sf av : Z) : float :=
  fadd (fmul (lit 65 100) (of_Z sf)) (fmul (lit 35 100) (of_Z av)).

(** The integer a finite float rounds to. *)
Definition round_fin (f : float) : option Z :=
  match f with Fin u => Some (rhe u U) | _ => None end.

(** The Standard Library's reference implementation of IEEE-754 binary64
    ([SpecFloat], precision 53, maximal exponent 1024): the value of one of
    its floats in units, its operations, and the comparison of a modelled
    float with one of its floats. *)
Definition units_of_spec (f : spec_float) : option Z :=
  match f with
  | S754_zero _ => Some 0
  | S754_finite s m e =>
      Some ((if s then -1 else 1) * Z.pos m * 2 ^ (e + 1074))
  | _ => None
  end.

Definition sf_int (z : Z) : spec_float := binary_normalize 53 1024 z 0 false.
Definition sf_add : spec_float -> spec_float -> spec_float := SFadd 53 1024.
Definition sf_mul : spec_float -> spec_float -> spec_float := SFmul 53 1024.
Definition sf_div : spec_float -> spec_float -> spec_float := SFdiv 53 1024.

(** A decimal constant [n/d]: the correctly rounded quotient. *)
Definition sf_lit (n d : Z) : spec_float := sf_div (sf_int n) (sf_int d).

Definition agrees (a : float) (b : spec_float) : bool :=
  match a, units_of_spec b with
  | Fin u, Some v => u =? v
  | _, _ => false
  end.

(** ** Further functions of [app.py]

    The model methods, the helpers that feed the pages, the validation of
    the experience rows of the form and the ranking of the match page. *)

(** [Project.get_tags_list] (lines 89-93). *)
Definition get_tags_list (domain_tags : option string) : list string :=
  match domain_tags with
  | None => []
  | Some s =>
      if String.eqb s "" then []
      else map strip (filter (fun t => strip t ≠ ""%string) (split "," s))
  end.

(** [ConsultantProject.get_end_date_sortable] (lines 112-118). *)
Definition get_end_date_sortable (cp : ConsultantProject) : Z * Z :=
  if negb (missing (cp_end_year cp)) && negb (missing (cp_end_month cp))
  then (default 0 (cp_end_year cp), default 0 (cp_end_month cp))
  else if negb (missing (cp_end_year cp)) then (default 0 (cp_end_year cp), 12)
  else (0, 0).

(** Comparison of two (year, month) tuples: [a <= b], lexicographic. *)
Definition tuple_leb (a b : Z * Z) : bool :=
  (a.1 <? b.1) || ((a.1 =? b.1) && (a.2 <=? b.2)).

(** [list.sort]: a stable sort.  [before x y] tells that [x] may stand
    before [y]; an element is inserted in front of the first element it may
    stand before, so elements that compare equal keep their order.  With
    [key] and [reverse=True], [before x y] is [key y <= key x]. *)
Fixpoint insert_sorted {A : Type} (before : A -> A -> bool) (x : A)
    (l : list A) : list A :=
  match l with
  | [] => [x]
  | h :: t => if before x h then x :: h :: t else h :: insert_sorted before x t
  end.

Definition py_sort {A : Type} (before : A -> A -> bool) (l : list A) : list A :=
  foldr (insert_sorted before) [] l.

(** The slice [l[:limit]]; a negative limit counts from the end. *)
Definition py_slice_to {A : Type} (limit : Z) (l : list A) : list A :=
  if 0 <=? limit then take (Z.to_nat limit) l
  else take (length l - Z.to_nat (- limit)) l.

Record top_skill : Type := { ts_name : string; ts_level : Z }.

(** [get_top_skills] (lines 361-371); [skill_name] is the relationship
    [cs.skill.name]. *)
Definition get_top_skills (skill_name : Z -> string) (consultant : Consultant)
    (min_level limit : Z) : list top_skill :=
  let skills :=
    map (fun cs => {| ts_name := skill_name (cs_skill_id cs);
                      ts_level := cs_level cs |})
        (filter (fun cs => min_level <= cs_level cs)
                (consultant_skills consultant)) in
  py_slice_to limit (py_sort (fun x y => ts_level y <=? ts_level x) skills).

Record recent_project : Type := {
  rp_id : Z;
  rp_name : string;
  rp_role : option string;
  rp_end_year : option Z;
  rp_end_month : option Z;
  rp_sort_key : Z * Z
}.

(** [get_recent_projects] (lines 374-387). *)
Definition get_recent_projects (consultant : Consultant) (limit : Z)
  : list recent_project :=
  let projects :=
    map (fun cp => {| rp_id := project_id (cp_project cp);
                      rp_name := project_name (cp_project cp);
                      rp_role := cp_role cp;
                      rp_end_year := cp_end_year cp;
                      rp_end_month := cp_end_month cp;
                      rp_sort_key := get_end_date_sortable cp |})
        (consultant_projects consultant) in
  py_slice_to limit
    (py_sort (fun x y => tuple_leb (rp_sort_key y) (rp_sort_key x)) projects).

(** The loop over consultants of [match] (lines 961-1005) and the ranking
    that follows it (line 1008). *)
Fixpoint match_rows (now : Clock) (table : list MonthlyWorkload) (month : Z)
    (required_skills : list (Z * Z)) (reference_project : option Project)
    (consultants : list Consultant) : result (list match_result) :=
  match consultants with
  | [] => Ok []
  | c :: rest =>
      row ← match_consultant now table month required_skills reference_project c;
      rows ← match_rows now table month required_skills reference_project rest;
      Ok (row :: rows)
  end.

Definition match_ranking (now : Clock) (table : list MonthlyWorkload)
    (month : Z) (required_skills : list (Z * Z))
    (reference_project : option Project) (consultants : list Consultant)
  : result (list match_result) :=
  results ← match_rows now table month required_skills reference_project
                       consultants;
  Ok (py_sort (fun x y => mr_final_score y <=? mr_final_score x) results).

(** The loop over the consultants that passed the filters of [overview]
    (lines 851-876) and the ordering by workload (line 879). *)
Fixpoint overview_rows (table : list MonthlyWorkload) (month : Z)
    (consultants : list Consultant) : result (list overview_result) :=
  match consultants with
  | [] => Ok []
  | c :: rest =>
      row ← overview_consultant table month c;
      rows ← overview_rows table month rest;
      Ok (row :: rows)
  end.

Definition overview_ordering (table : list MonthlyWorkload) (month : Z)
    (consultants : list Consultant) : result (list overview_result) :=
  results ← overview_rows table month consultants;
  Ok (py_sort (fun x y => workload_percent (ov_workload_data x)
                          <=? workload_percent (ov_workload_data y)) results).

(** The tag filter of [overview] (lines 837-849).  [has_tag] is the value
    of the variable of that name after the loops of lines 841-847: some
    project of the consultant carries the tag, compared in lower case.  The
    loops only run for a filter that is not empty; with an empty filter the
    consultant is kept. *)
Definition has_tag (consultant : Consultant) (tag_filter : string) : bool :=
  let tag_lower := lower tag_filter in
  existsb (fun cp =>
             existsb (fun t => String.eqb (lower t) tag_lower)
                     (get_tags_list (project_domain_tags (cp_project cp))))
          (consultant_projects consultant).

Definition passes_tag_filter (consultant : Consultant) (tag_filter : string)
  : bool :=
  if String.eqb tag_filter "" then true else has_tag consultant tag_filter.

(** The dates and the intensity of one experience row of the form, as
    [inserisci] reads and validates them (lines 561-574). *)
Record experience_fields : Type := {
  ef_start_month : option Z;
  ef_start_year : option Z;
  ef_end_month : option Z;
  ef_end_year : option Z;
  ef_intensity : option Z
}.

(** [if v is not None and (v < lo or v > hi): v = None] *)
Definition keep_within (lo hi : Z) (v : option Z) : option Z :=
  match v with
  | Some z => if (z <? lo) || (hi <? z) then None else Some z
  | None => None
  end.

Definition read_experience_fields
    (start_month start_year end_month end_year intensity : pyval)
  : result experience_fields :=
  sm ← safe_int start_month None None None;
  sy ← safe_int start_year None None None;
  em ← safe_int end_month None None None;
  ey ← safe_int end_year None None None;
  i ← safe_int intensity None None None;
  Ok {| ef_start_month := keep_within 1 12 sm;
        ef_start_year := sy;
        ef_end_month := keep_within 1 12 em;
        ef_end_year := ey;
        ef_intensity := keep_within 1 5 i |}.

(** The experience stored for validated fields (lines 576-586). *)
Definition stored_experience (p : Project) (role notes : option string)
    (f : experience_fields) : ConsultantProject :=
  {| cp_project := p; cp_role := role;
     cp_start_month := ef_start_month f; cp_start_year := ef_start_year f;
     cp_end_month := ef_end_month f; cp_end_year := ef_end_year f;
     cp_notes := notes; cp_intensity_level := ef_intensity f |}.

(** An experience with both parts of the end date present that [datetime]
    rejects. *)
Definition ill_dated (cp : ConsultantProject) : Prop :=
  exists y m, cp_end_year cp = Some y /\ cp_end_month cp = Some m /\
              y <> 0 /\ m <> 0 /\
              ~ (1 <= y <= 9999 /\ 1 <= m <= 12).

(** The values of the skill-fit computation in units: the score of one
    requirement, the running sum and the rounded percentage. *)
Definition score_units (consultant_level required_level : Z) : Z :=
  if 0 <? required_level
  then Z.min U (rnd_units (consultant_level * U) required_level)
  else if 0 <? consultant_level then U else 0.

Definition sum_units (start : Z) (scores : list Z) : Z :=
  fold_left (fun acc u => rnd_units (acc + u) 1) scores start.

Definition fit_units (scores : list Z) : Z :=
  let n := Z.of_nat (length scores) in
  rhe (rnd_units (rnd_units (sum_units 0 scores * U) (n * U) * (100 * U)) U) U.

Definition requirement_scores (d : gmap Z Z) (required_skills : list (Z * Z))
  : list Z :=
  map (fun req => score_units (default 0 (d !! req.1)) req.2) required_skills.

(** The values a form field can have: absent, or a text. *)
Definition form_value (v : pyval) : Prop :=
  match v with VNone | VStr _ => True | _ => False end.

(** An optional integer that is absent or lies in [lo, hi]. *)
Definition absent_or_within (lo hi : Z) (v : option Z) : Prop :=
  match v with Some z => lo <= z <= hi | None => True end.

(** What [safe_int] with default [None] makes of a value. *)
Definition converted (v : pyval) : option Z :=
  match py_int v with Ok z => Some z | Raise _ => None end.

(** What the specification says of the metadata of a best match: the
    label of the recency bucket of an experience, and the record that
    describes an experience with respect to the reference project. *)
Definition recency_label (now : Clock) (cp : ConsultantProject)
    (label : string) : Prop :=
  (missing (cp_end_year cp) || missing (cp_end_month cp) = true ->
   label = "Date non specificate"%string) /\
  (forall y m,
      cp_end_year cp = Some y -> cp_end_month cp = Some m ->
      y <> 0 -> m <> 0 ->
      let months := (now_year now - y) * 12 + (now_month now - m) in
      (months <= 6 -> label = "Ultimo semestre"%string) /\
      (7 <= months <= 18 -> label = "Ultimo anno e mezzo"%string) /\
      (19 <= months <= 36 -> label = "Ultimi 3 anni"%string) /\
      (36 < months -> label = "Più di 3 anni fa"%string)).

Definition describes (now : Clock) (ref : Project) (cp : ConsultantProject)
    (info : best_match_info) : Prop :=
  let client_ref := norm_client (project_client ref) in
  let client_past := norm_client (project_client (cp_project cp)) in
  let tags_ref := normalize_tags (project_domain_tags ref) in
  let tags_past := normalize_tags (project_domain_tags (cp_project cp)) in
  bm_project_name info = project_name (cp_project cp) /\
  bm_project_id info = project_id (cp_project cp) /\
  (bm_client_match info = true <->
   client_ref <> ""%string /\ client_past = client_ref) /\
  bm_common_tags info = Z.of_nat (size (tags_ref ∩ tags_past)) /\
  bm_total_ref_tags info = Z.of_nat (size tags_ref) /\
  recency_label now cp (bm_recency_desc info) /\
  bm_intensity info = cp_intensity_level cp /\
  bm_role info = cp_role cp.

(** A past experience that shares neither the client nor a tag with the
    reference project. *)
Definition unrelated (ref : Project) (cp : ConsultantProject) : Prop :=
  client_match_of (norm_client (project_client ref))
                  (norm_client (project_client (cp_project cp))) = 0 /\
  normalize_tags (project_domain_tags ref)
    ∩ normalize_tags (project_domain_tags (cp_project cp)) = ∅.

Definition example_other : Project :=
  {| project_id := 7; project_name := "Acme - Budget Review";
     project_client := Some "Acme"%string;
     project_domain_tags := Some "Finance"%string |}.

End Model.

(** The examples are closed terms on ASCII texts: they are evaluated with
    the operations of [ascii_text]. *)
#[global] Existing Instance ascii_text | 100.

(** ** Facts about binary64 rounding *)
Module Binary64Facts.

Lemma U_pos : 0 < U.
Proof. unfold U. apply Z.pow_pos_nonneg; lia. Qed.

Lemma rhe_spec N D :
  0 < D ->
  Z.abs (2 * N - 2 * rhe N D * D) <= D /\
  (Z.abs (2 * N - 2 * rhe N D * D) = D -> Z.even (rhe N D) = true).
Proof.
  intros HD. unfold rhe.
  pose proof (Z.div_mod N D ltac:(lia)) as Hdm.
  pose proof (Z.mod_pos_bound N D HD) as Hr.
  set (f := N / D) in *. set (r := N mod D) in *.
  destruct (Z.ltb_spec (2 * r) D) as [H1|H1].
  - split; [nia|]. intros He. exfalso. nia.
  - destruct (Z.ltb_spec D (2 * r)) as [H2|H2].
    + split; [nia|]. intros He. exfalso. nia.
    + destruct (Z.even f) eqn:Hev.
      * split; [nia|]. auto.
      * split; [nia|]. intros _.
        rewrite Z.even_add, Hev. reflexivity.
Qed.

Lemma rhe_mono N1 D1 N2 D2 :
  0 < D1 -> 0 < D2 -> N1 * D2 <= N2 * D1 -> rhe N1 D1 <= rhe N2 D2.
Proof.
  intros H1 H2 Hle.
  destruct (rhe_spec N1 D1 H1) as [Ha Hae].
  destruct (rhe_spec N2 D2 H2) as [Hb Hbe].
  set (z1 := rhe N1 D1) in *. set (z2 := rhe N2 D2) in *.
  destruct (Z_le_gt_dec z1 z2) as [|Hgt]; [assumption|exfalso].
  assert (Hlo : (2 * z1 - 1) * D1 <= 2 * N1) by lia.
  assert (Hhi : 2 * N2 <= (2 * z2 + 1) * D2) by lia.
  assert (Hc : (2 * z1 - 1) * (D1 * D2) <= (2 * z2 + 1) * (D1 * D2)) by nia.
  assert (HDD : 0 < D1 * D2) by nia.
  assert (Hz : z1 = z2 + 1) by nia.
  assert (E1 : 2 * N1 = (2 * z1 - 1) * D1) by nia.
  assert (E2 : 2 * N2 = (2 * z2 + 1) * D2) by nia.
  assert (Ev1 : Z.even z1 = true) by (apply Hae; lia).
  assert (Ev2 : Z.even z2 = true) by (apply Hbe; lia).
  rewrite Hz, Z.even_add, Ev2 in Ev1. discriminate.
Qed.

Lemma rhe_exact c D : 0 < D -> rhe (c * D) D = c.
Proof.
  intros HD. unfold rhe.
  rewrite Z.div_mul, Z.mod_mul by lia.
  destruct (Z.ltb_spec (2 * 0) D); [reflexivity|lia].
Qed.

Lemma rhe_le N D c : 0 < D -> N <= c * D -> rhe N D <= c.
Proof.
  intros HD H. rewrite <- (rhe_exact c 1) by lia.
  apply rhe_mono; lia.
Qed.

Lemma rhe_ge N D c : 0 < D -> c * D <= N -> c <= rhe N D.
Proof.
  intros HD H. rewrite <- (rhe_exact c 1) by lia.
  apply rhe_mono; lia.
Qed.

Lemma div_cross_mono n1 d1 n2 d2 :
  0 < d1 -> 0 < d2 -> n1 * d2 <= n2 * d1 -> n1 / d1 <= n2 / d2.
Proof.
  intros H1 H2 H. apply Z.div_le_lower_bound; [assumption|].
  pose proof (Z.mul_div_le n1 d1 H1). nia.
Qed.

Lemma rnd_pos_mono n1 d1 n2 d2 :
  0 <= n1 -> 0 < d1 -> 0 < d2 -> n1 * d2 <= n2 * d1 ->
  rnd_pos n1 d1 <= rnd_pos n2 d2.
Proof.
  intros Hn1 H1 H2 Hle. unfold rnd_pos.
  pose proof (div_cross_mono _ _ _ _ H1 H2 Hle) as Hq.
  assert (Hq1 : 0 <= n1 / d1) by (apply Z.div_pos; lia).
  pose proof (Z.log2_le_mono _ _ Hq) as Hlog.
  set (q1 := n1 / d1) in *. set (q2 := n2 / d2) in *.
  set (k1 := Z.max (Z.log2 q1 - 52) 0). set (k2 := Z.max (Z.log2 q2 - 52) 0).
  assert (Ek1 : k1 = Z.max (Z.log2 q1 - 52) 0) by reflexivity.
  assert (Ek2 : k2 = Z.max (Z.log2 q2 - 52) 0) by reflexivity.
  clearbody k1 k2.
  assert (Hk1 : 0 <= k1) by lia. assert (Hk12 : k1 <= k2) by lia.
  assert (P1 : 0 < 2 ^ k1) by (apply Z.pow_pos_nonneg; lia).
  assert (P2 : 0 < 2 ^ k2) by (apply Z.pow_pos_nonneg; lia).
  destruct (Z.eq_dec k1 k2) as [E|NE].
  - rewrite <- E. apply Z.mul_le_mono_nonneg_r; [lia|].
    apply rhe_mono; nia.
  - assert (Hlt : k1 + 1 <= k2) by lia.
    assert (Hq2 : 0 < q2).
    { destruct (Z_lt_le_dec 0 q2); [assumption|].
      pose proof (Z.log2_nonpos q2 ltac:(lia)). lia. }
    (* the larger number lies in a higher binade *)
    assert (Hlow : 2 ^ 52 * 2 ^ k2 <= rhe n2 (d2 * 2 ^ k2) * 2 ^ k2).
    { apply Z.mul_le_mono_nonneg_r; [lia|]. apply rhe_ge; [nia|].
      destruct (Z.log2_spec q2 Hq2) as [Hl _].
      assert (Hk2 : k2 = Z.log2 q2 - 52) by lia.
      replace (Z.log2 q2) with (52 + k2) in Hl by lia.
      rewrite Z.pow_add_r in Hl by lia.
      pose proof (Z.mul_div_le n2 d2 H2). fold q2 in H. nia. }
    assert (Hup : rhe n1 (d1 * 2 ^ k1) * 2 ^ k1 <= 2 ^ 53 * 2 ^ k1).
    { apply Z.mul_le_mono_nonneg_r; [lia|]. apply rhe_le; [nia|].
      assert (Hb : q1 < 2 ^ 53 * 2 ^ k1).
      { rewrite <- Z.pow_add_r by lia.
        destruct (Z.eq_dec q1 0) as [->|Hnz].
        - apply Z.pow_pos_nonneg; lia.
        - destruct (Z.log2_spec q1 ltac:(lia)) as [_ Hu].
          eapply Z.lt_le_trans; [exact Hu|].
          apply Z.pow_le_mono_r; lia. }
      pose proof (Z.div_mod n1 d1 ltac:(lia)) as Hdm.
      pose proof (Z.mod_pos_bound n1 d1 H1) as Hr. fold q1 in Hdm.
      nia. }
    assert (Hpw : 2 ^ 53 * 2 ^ k1 <= 2 ^ 52 * 2 ^ k2).
    { rewrite <- !Z.pow_add_r by lia. apply Z.pow_le_mono_r; lia. }
    lia.
Qed.

Lemma rnd_pos_nonneg n d : 0 <= n -> 0 < d -> 0 <= rnd_pos n d.
Proof.
  intros Hn Hd. unfold rnd_pos.
  set (k := Z.max _ 0).
  assert (0 < 2 ^ k) by (apply Z.pow_pos_nonneg; lia).
  apply Z.mul_nonneg_nonneg; [|lia].
  apply rhe_ge; [nia|lia].
Qed.

(** A number with at most 53 significant bits is its own rounding. *)
Lemma rnd_pos_exact m j :
  0 <= m < 2 ^ 53 -> 0 <= j -> rnd_pos (m * 2 ^ j) 1 = m * 2 ^ j.
Proof.
  intros Hm Hj. unfold rnd_pos. rewrite Z.div_1_r.
  assert (Pj : 0 < 2 ^ j) by (apply Z.pow_pos_nonneg; lia).
  destruct (Z.eq_dec m 0) as [->|Hnz].
  - rewrite Z.mul_0_l. simpl. unfold rhe. simpl. reflexivity.
  - rewrite Z.log2_mul_pow2 by lia.
    assert (Hl : Z.log2 m < 53) by (apply Z.log2_lt_pow2; lia).
    pose proof (Z.log2_nonneg m) as Hl0.
    set (k := Z.max (j + Z.log2 m - 52) 0).
    assert (Ek : k = Z.max (j + Z.log2 m - 52) 0) by reflexivity.
    clearbody k.
    assert (Hk : 0 <= k <= j) by lia.
    replace (2 ^ j) with (2 ^ (j - k) * 2 ^ k)
      by (rewrite <- Z.pow_add_r by lia; f_equal; lia).
    rewrite Z.mul_assoc, Z.mul_1_l.
    rewrite rhe_exact by (apply Z.pow_pos_nonneg; lia). reflexivity.
Qed.

Lemma rnd_units_mono n1 d1 n2 d2 :
  0 < d1 -> 0 < d2 -> n1 * d2 <= n2 * d1 ->
  rnd_units n1 d1 <= rnd_units n2 d2.
Proof.
  intros H1 H2 Hle. unfold rnd_units.
  destruct (Z.leb_spec 0 n1) as [A|A]; destruct (Z.leb_spec 0 n2) as [B|B].
  - apply rnd_pos_mono; assumption.
  - exfalso. nia.
  - pose proof (rnd_pos_nonneg (- n1) d1 ltac:(lia) H1).
    pose proof (rnd_pos_nonneg n2 d2 B H2). lia.
  - enough (rnd_pos (- n2) d2 <= rnd_pos (- n1) d1) by lia.
    apply rnd_pos_mono; lia.
Qed.

Lemma rnd_units_exact m j :
  0 <= m < 2 ^ 53 -> 0 <= j -> rnd_units (m * 2 ^ j) 1 = m * 2 ^ j.
Proof.
  intros Hm Hj. unfold rnd_units.
  assert (0 < 2 ^ j) by (apply Z.pow_pos_nonneg; lia).
  destruct (Z.leb_spec 0 (m * 2 ^ j)); [|nia].
  apply rnd_pos_exact; assumption.
Qed.

(** Two fractions with the same value round to the same number. *)
Lemma rnd_units_ext n1 d1 n2 d2 :
  0 < d1 -> 0 < d2 -> n1 * d2 = n2 * d1 -> rnd_units n1 d1 = rnd_units n2 d2.
Proof.
  intros H1 H2 E. apply Z.le_antisymm; apply rnd_units_mono; lia.
Qed.

(** Bounds by a representable number. *)
Lemma rnd_units_le n d m j :
  0 < d -> 0 <= m < 2 ^ 53 -> 0 <= j -> n <= m * 2 ^ j * d ->
  rnd_units n d <= m * 2 ^ j.
Proof.
  intros Hd Hm Hj H. rewrite <- (rnd_units_exact m j) by assumption.
  apply rnd_units_mono; lia.
Qed.

Lemma rnd_units_ge n d m j :
  0 < d -> 0 <= m < 2 ^ 53 -> 0 <= j -> m * 2 ^ j * d <= n ->
  m * 2 ^ j <= rnd_units n d.
Proof.
  intros Hd Hm Hj H. rewrite <- (rnd_units_exact m j) by assumption.
  apply rnd_units_mono; lia.
Qed.

(** *** Order and monotonicity *)

Lemma OVF_pos : 0 < OVF.
Proof. unfold OVF. apply Z.pow_pos_nonneg; lia. Qed.

Lemma fle_trans a b c : fle a b -> fle b c -> fle a c.
Proof. destruct a, b, c; simpl; try tauto; lia. Qed.

Lemma rnd_mono n1 d1 n2 d2 :
  0 < d1 -> 0 < d2 -> n1 * d2 <= n2 * d1 -> fle (rnd n1 d1) (rnd n2 d2).
Proof.
  intros H1 H2 H. pose proof (rnd_units_mono _ _ _ _ H1 H2 H) as Hm.
  pose proof OVF_pos. unfold rnd.
  repeat match goal with
         | |- context [?a <=? ?b] => destruct (Z.leb_spec a b)
         end; simpl; lia.
Qed.

Lemma rnd_units_nonneg n d : 0 <= n -> 0 < d -> 0 <= rnd_units n d.
Proof.
  intros Hn Hd. unfold rnd_units.
  destruct (Z.leb_spec 0 n); [|lia]. apply rnd_pos_nonneg; assumption.
Qed.

Lemma rnd_nonneg n d : 0 <= n -> 0 < d -> fnonneg (rnd n d).
Proof.
  intros Hn Hd. pose proof (rnd_units_nonneg n d Hn Hd).
  pose proof OVF_pos. unfold fnonneg, rnd.
  repeat match goal with
         | |- context [?a <=? ?b] => destruct (Z.leb_spec a b)
         end; simpl; lia.
Qed.

Lemma rnd_fin_exact m j d :
  0 < d -> 0 <= m < 2 ^ 53 -> 0 <= j -> m * 2 ^ j < OVF ->
  rnd (m * 2 ^ j * d) d = Fin (m * 2 ^ j).
Proof.
  intros Hd Hm Hj Hov. unfold rnd.
  rewrite (rnd_units_ext _ d (m * 2 ^ j) 1) by lia.
  rewrite rnd_units_exact by assumption.
  assert (0 < 2 ^ j) by (apply Z.pow_pos_nonneg; lia).
  destruct (Z.leb_spec OVF (m * 2 ^ j)); [lia|].
  destruct (Z.leb_spec (m * 2 ^ j) (- OVF)); [nia|reflexivity].
Qed.

Lemma U_lt_OVF : 2 ^ 53 * U <= OVF.
Proof. unfold U, OVF. rewrite <- Z.pow_add_r by lia. apply Z.pow_le_mono_r; lia. Qed.

(** Integers below [2^53] convert exactly. *)
Lemma of_Z_exact z : 0 <= z < 2 ^ 53 -> of_Z z = Fin (z * U).
Proof.
  intros Hz. unfold of_Z.
  pose proof U_lt_OVF. pose proof U_pos.
  replace (z * U) with (z * 2 ^ 1074 * 1) at 1 by (unfold U; lia).
  rewrite rnd_fin_exact; [reflexivity|lia|lia|lia|fold U; nia].
Qed.

Lemma of_Z_mono x y : x <= y -> fle (of_Z x) (of_Z y).
Proof.
  intros H. pose proof U_pos. unfold of_Z. apply rnd_mono; nia.
Qed.

Lemma of_Z_nonneg x : 0 <= x -> fnonneg (of_Z x).
Proof.
  intros H. pose proof U_pos. unfold of_Z. apply rnd_nonneg; nia.
Qed.

Lemma rnd_le_PInf n d : fle (rnd n d) PInf.
Proof.
  unfold rnd.
  repeat match goal with
         | |- context [?a <=? ?b] => destruct (Z.leb_spec a b)
         end; exact I.
Qed.

Lemma fadd_mono a a' b b' :
  fnonneg a -> fnonneg b -> fle a a' -> fle b b' -> fle (fadd a b) (fadd a' b').
Proof.
  unfold fnonneg.
  destruct a, a', b, b'; simpl; try tauto; intros;
    match goal with
    | |- fle (rnd _ _) (rnd _ _) => apply rnd_mono; lia
    | |- fle (rnd _ _) PInf => apply rnd_le_PInf
    end.
Qed.

Lemma fadd_nonneg a b : fnonneg a -> fnonneg b -> fnonneg (fadd a b).
Proof.
  unfold fnonneg. destruct a, b; simpl; try tauto; intros.
  apply rnd_nonneg; lia.
Qed.

Lemma fmul_mono_r a a' c :
  fnonneg a -> fle a a' -> 0 < c -> fle (fmul a (Fin c)) (fmul a' (Fin c)).
Proof.
  unfold fnonneg. pose proof U_pos.
  destruct a, a'; simpl; try tauto; intros.
  - apply rnd_mono; try lia.
    repeat (apply Z.mul_le_mono_nonneg_r; [lia|]). lia.
  - rewrite Z.sgn_pos by lia. simpl. apply rnd_le_PInf.
  - rewrite Z.sgn_pos by lia. simpl. exact I.
Qed.

Lemma fmul_nonneg a c : fnonneg a -> 0 < c -> fnonneg (fmul a (Fin c)).
Proof.
  unfold fnonneg. pose proof U_pos.
  destruct a; simpl; try tauto; intros.
  - apply rnd_nonneg; nia.
  - rewrite Z.sgn_pos by lia. simpl. exact I.
Qed.

Lemma fmul_comm a b : fmul a b = fmul b a.
Proof.
  destruct a, b; simpl; try reflexivity.
  - f_equal. lia.
  - rewrite Z.mul_comm. reflexivity.
  - rewrite Z.mul_comm. reflexivity.
  - rewrite Z.mul_comm. reflexivity.
  - rewrite Z.mul_comm. reflexivity.
Qed.

Lemma fmul_mono_l c b b' :
  0 < c -> fnonneg b -> fle b b' -> fle (fmul (Fin c) b) (fmul (Fin c) b').
Proof.
  intros. rewrite (fmul_comm (Fin c) b), (fmul_comm (Fin c) b').
  apply fmul_mono_r; assumption.
Qed.

Lemma fdiv_mono a a' c :
  fnonneg a -> fle a a' -> 0 < c -> fle (fdiv a (Fin c)) (fdiv a' (Fin c)).
Proof.
  unfold fnonneg. pose proof U_pos.
  destruct a, a'; simpl; try tauto; intros;
    destruct (Z.ltb_spec 0 c); try lia.
  - apply rnd_mono; try lia.
    repeat (apply Z.mul_le_mono_nonneg_r; [lia|]). lia.
  - destruct (Z.leb_spec 0 c); try lia. simpl. apply rnd_le_PInf.
  - destruct (Z.leb_spec 0 c); try lia. simpl. exact I.
Qed.

Lemma fdiv_nonneg a c : fnonneg a -> 0 < c -> fnonneg (fdiv a (Fin c)).
Proof.
  unfold fnonneg. pose proof U_pos.
  destruct a; simpl; try tauto; intros.
  - destruct (Z.ltb_spec 0 c); try lia. apply rnd_nonneg; nia.
  - destruct (Z.leb_spec 0 c); try lia. simpl. exact I.
Qed.

(** *** Exact and bounded results *)

Lemma rnd_fin_between n d m1 j1 m2 j2 :
  0 < d -> 0 <= m1 < 2 ^ 53 -> 0 <= j1 -> 0 <= m2 < 2 ^ 53 -> 0 <= j2 ->
  m2 * 2 ^ j2 < OVF ->
  m1 * 2 ^ j1 * d <= n <= m2 * 2 ^ j2 * d ->
  exists u, rnd n d = Fin u /\ m1 * 2 ^ j1 <= u <= m2 * 2 ^ j2.
Proof.
  intros Hd Hm1 Hj1 Hm2 Hj2 Hov [Hlo Hhi].
  pose proof (rnd_units_ge n d m1 j1 Hd Hm1 Hj1 Hlo) as Hge.
  pose proof (rnd_units_le n d m2 j2 Hd Hm2 Hj2 Hhi) as Hle.
  assert (0 < 2 ^ j1) by (apply Z.pow_pos_nonneg; lia).
  pose proof OVF_pos. unfold rnd.
  destruct (Z.leb_spec OVF (rnd_units n d)); [lia|].
  destruct (Z.leb_spec (rnd_units n d) (- OVF)); [nia|].
  eauto.
Qed.

(** Results between two integer multiples of [1.0] (in units, [U]). *)
Lemma rnd_fin_between_int n d a b :
  0 < d -> 0 <= a -> b < 2 ^ 53 -> a * U * d <= n <= b * U * d ->
  exists u, rnd n d = Fin u /\ a * U <= u <= b * U.
Proof.
  intros Hd Ha Hb [Hlo Hhi]. pose proof U_pos.
  assert (0 < U * d) by (apply Z.mul_pos_pos; lia).
  assert (a <= b) by (apply (Z.mul_le_mono_pos_r _ _ (U * d)); lia).
  apply (rnd_fin_between n d a 1074 b 1074); fold U; try lia.
  pose proof U_lt_OVF. nia.
Qed.

Lemma rnd_int z d : 0 < d -> 0 <= z < 2 ^ 53 -> rnd (z * U * d) d = Fin (z * U).
Proof.
  intros Hd Hz. pose proof U_lt_OVF. pose proof U_pos.
  apply (rnd_fin_exact z 1074 d); fold U; try lia. nia.
Qed.

Lemma fadd_int a b :
  0 <= a + b < 2 ^ 53 -> fadd (Fin (a * U)) (Fin (b * U)) = Fin ((a + b) * U).
Proof.
  intros H. simpl. rewrite <- (rnd_int (a + b) 1) by lia. f_equal. lia.
Qed.

Lemma fmul_one_int b :
  0 <= b < 2 ^ 53 -> fmul (Fin U) (Fin (b * U)) = Fin (b * U).
Proof.
  intros H. pose proof U_pos. simpl.
  rewrite <- (rnd_int b U) by lia. f_equal. lia.
Qed.

Lemma fdiv_self n : 0 < n -> fdiv (Fin (n * U)) (Fin (n * U)) = Fin U.
Proof.
  intros H. pose proof U_pos. simpl.
  destruct (Z.ltb_spec 0 (n * U)); [|nia].
  rewrite <- (Z.mul_1_l U) at 4.
  rewrite <- (rnd_int 1 (n * U)) by (first [nia|split; [lia|reflexivity]]).
  f_equal. lia.
Qed.

Lemma lit_1 : lit 1 1 = Fin U.
Proof.
  unfold lit. replace (1 * U) with (1 * U * 1) by lia.
  rewrite rnd_int by (first [lia|split; [lia|reflexivity]]).
  rewrite Z.mul_1_l. reflexivity.
Qed.

Lemma lit_0 d : 0 < d -> lit 0 d = Fin 0.
Proof.
  intros Hd. unfold lit. replace (0 * U) with (0 * U * d) by lia.
  rewrite rnd_int by (first [lia|split; [lia|reflexivity]]). reflexivity.
Qed.

Lemma rhe_between N D a b :
  0 < D -> a * D <= N <= b * D -> a <= rhe N D <= b.
Proof. intros HD [H1 H2]. split; [apply rhe_ge|apply rhe_le]; assumption. Qed.

Lemma rnd_nonneg_bounded n d :
  0 < d -> 0 <= n <= 2 ^ 1000 * U * d ->
  exists u, rnd n d = Fin u /\ 0 <= u /\ (U * d <= n -> U <= u).
Proof.
  intros Hd [Hlo Hhi]. pose proof U_pos.
  assert (Hov : 1 * 2 ^ 2074 < OVF) by reflexivity.
  assert (HU : 2 ^ 1000 * U = 1 * 2 ^ 2074) by reflexivity.
  assert (HU1 : U = 1 * 2 ^ 1074) by reflexivity.
  rewrite HU in Hhi.
  destruct (rnd_fin_between n d 0 0 1 2074) as (u & Hu & Hr);
    try lia; try (split; [lia|reflexivity]).
  exists u. split; [assumption|]. split; [lia|]. intros Hge.
  rewrite HU1 in Hge |- *.
  destruct (rnd_fin_between n d 1 1074 1 2074) as (u' & Hu' & Hr');
    try lia; try (split; [lia|reflexivity]).
  rewrite Hu in Hu'. injection Hu' as <-. lia.
Qed.

End Binary64Facts.

Import Binary64Facts.

(** The model of rounding agrees with the reference implementation on the
    constants of the source and on the expressions it evaluates. *)
Example constants_agree :
  forallb (fun p => agrees (lit p.1 p.2) (sf_lit p.1 p.2))
    [ (3, 10); (23, 1); (75, 100); (85, 100); (70, 100); (60, 100);
      (80, 100); (88, 100); (95, 100); (100, 100); (45, 100); (35, 100);
      (5, 10); (20, 100); (55, 100); (30, 100); (15, 100); (65, 100) ] = true.
Proof. vm_compute. reflexivity. Qed.

Example operations_agree :
  forallb (fun p => agrees p.1 p.2)
    [ (workload_scaled 7 3,
       sf_mul (sf_div (sf_add (sf_int 7) (sf_mul (sf_int 3) (sf_lit 3 10)))
                      (sf_int 23)) (sf_int 100));
      (workload_scaled 20 10,
       sf_mul (sf_div (sf_add (sf_int 20) (sf_mul (sf_int 10) (sf_lit 3 10)))
                      (sf_int 23)) (sf_int 100));
      (final3 80 60 40,
       sf_add (sf_add (sf_mul (sf_lit 55 100) (sf_int 80))
                      (sf_mul (sf_lit 30 100) (sf_int 60)))
              (sf_mul (sf_lit 15 100) (sf_int 40)));
      (final2 100 100,
       sf_add (sf_mul (sf_lit 65 100) (sf_int 100))
              (sf_mul (sf_lit 35 100) (sf_int 100)));
      (fmul (fdiv (of_Z 1) (of_Z 3)) (lit 85 100),
       sf_mul (sf_div (sf_int 1) (sf_int 3)) (sf_lit 85 100));
      (fadd (lit 1 10) (lit 2 10), sf_add (sf_lit 1 10) (sf_lit 2 10));
      (of_Z (2 ^ 53 + 1), sf_int (2 ^ 53 + 1));
      (of_Z (2 ^ 53 + 3), sf_int (2 ^ 53 + 3));
      (fmul (lit 49 10) (Fin 3),
       sf_mul (sf_lit 49 10) (S754_finite false 3 (-1074))) ] = true.
Proof. vm_compute. reflexivity. Qed.

(** The rounding functions are only evaluated on closed terms. *)
#[global] Opaque U OVF rhe rnd_pos rnd_units rnd.

(** ** Reasoning tools *)

Lemma bind_Ok {A B} (m : result A) (f : A -> result B) (b : B) :
  m ≫= f = Ok b -> exists a, m = Ok a /\ f a = Ok b.
Proof. destruct m as [a|e]; simpl; intros H; [eauto|discriminate]. Qed.

Ltac inv_bind H :=
  let a := fresh "x" in
  let Ha := fresh "E" in
  apply bind_Ok in H; destruct H as (a & Ha & H).

Tactic Notation "bind_inv" hyp(H) "as" simple_intropattern(a) ident(Ha) :=
  apply bind_Ok in H; destruct H as (a & Ha & H).

Lemma to_float_Int_inv z f :
  to_float (Int z) = Ok f -> f = of_Z z /\ exists u, f = Fin u.
Proof.
  simpl. destruct (of_Z z) eqn:E; intros H; inversion H; subst; eauto.
Qed.

Lemma to_float_small z : 0 <= z < 2 ^ 53 -> to_float (Int z) = Ok (Fin (z * U)).
Proof. intros H. simpl. rewrite of_Z_exact by assumption. reflexivity. Qed.

Lemma lit_int n : lit n 1 = of_Z n.
Proof. reflexivity. Qed.

Lemma bind_ret {A B} (a : A) (f : A -> result B) : Ok a ≫= f = f a.
Proof. reflexivity. Qed.

Lemma num_mul_Int_Flt_eq z u f :
  of_Z z = Fin u -> num_mul (Int z) (Flt f) = Ok (Flt (fmul (Fin u) f)).
Proof. intros H. unfold num_mul. simpl. rewrite H. reflexivity. Qed.

Lemma num_mul_Flt_Int_eq z u f :
  of_Z z = Fin u -> num_mul (Flt f) (Int z) = Ok (Flt (fmul f (Fin u))).
Proof. intros H. unfold num_mul. simpl. rewrite H. reflexivity. Qed.

Lemma num_add_Int_Flt_eq z u f :
  of_Z z = Fin u -> num_add (Int z) (Flt f) = Ok (Flt (fadd (Fin u) f)).
Proof. intros H. unfold num_add. simpl. rewrite H. reflexivity. Qed.

Lemma num_add_Flt_Flt f g : num_add (Flt f) (Flt g) = Ok (Flt (fadd f g)).
Proof. reflexivity. Qed.

Lemma num_div_Flt_Flt_eq f c :
  c <> 0 -> num_div (Flt f) (Flt (Fin c)) = Ok (Flt (fdiv f (Fin c))).
Proof.
  intros H. unfold num_div. simpl.
  destruct (Z.eqb_spec c 0); [contradiction|reflexivity].
Qed.

(** The decimal constants of the source are finite and positive. *)
Ltac fin_const := vm_compute; eexists; split; reflexivity.

Lemma c03_fin : exists c, lit 3 10 = Fin c /\ 0 < c.
Proof. fin_const. Qed.

(** ** Workload score *)

Section WorkloadScore.

Context {text : Text}.

Lemma to_float_Flt f : to_float (Flt f) = Ok f.
Proof. reflexivity. Qed.

Lemma num_mul_Int_Flt z f r :
  num_mul (Int z) (Flt f) = Ok r ->
  r = Flt (fmul (of_Z z) f) /\ exists u, of_Z z = Fin u.
Proof.
  unfold num_mul. intros H. inv_bind H.
  apply to_float_Int_inv in E as [-> [u Hu]]. simpl in H.
  injection H as <-. eauto.
Qed.

Lemma num_mul_Flt_Int f z r :
  num_mul (Flt f) (Int z) = Ok r ->
  r = Flt (fmul f (of_Z z)) /\ exists u, of_Z z = Fin u.
Proof.
  unfold num_mul. rewrite to_float_Flt. simpl. intros H. inv_bind H.
  apply to_float_Int_inv in E as [-> [u Hu]].
  injection H as <-. eauto.
Qed.

Lemma num_add_Int_Flt z f r :
  num_add (Int z) (Flt f) = Ok r ->
  r = Flt (fadd (of_Z z) f) /\ exists u, of_Z z = Fin u.
Proof.
  unfold num_add. intros H. inv_bind H.
  apply to_float_Int_inv in E as [-> [u Hu]]. simpl in H.
  injection H as <-. eauto.
Qed.

Lemma num_div_Flt_Flt f g r :
  num_div (Flt f) (Flt g) = Ok r ->
  r = Flt (fdiv f g) /\ feqb g (Fin 0) = false.
Proof.
  unfold num_div. simpl. destruct (feqb g (Fin 0)); [discriminate|].
  intros H. injection H as <-. auto.
Qed.

Lemma calculate_workload_score_inv v1 v2 r :
  calculate_workload_score v1 v2 = Ok r ->
  exists wd pl u,
    py_int (py_or v1 (VInt 0)) = Ok wd /\
    py_int (py_or v2 (VInt 0)) = Ok pl /\
    work_days r = Z.max 0 wd /\
    perceived_load r = Z.max 0 (Z.min 10 pl) /\
    workload_scaled (work_days r) (perceived_load r) = Fin u /\
    workload_percent r = Z.min 100 (rhe u U) /\
    availability_percent r = 100 - workload_percent r.
Proof.
  unfold calculate_workload_score. intros H.
  inv_bind H. inv_bind H. exists x, x0.
  inv_bind H. apply num_mul_Int_Flt in E1 as [-> _].
  inv_bind H. apply num_add_Int_Flt in E1 as [-> _].
  inv_bind H. apply num_div_Flt_Flt in E1 as [-> _].
  inv_bind H. apply num_mul_Flt_Int in E1 as [-> _].
  inv_bind H. injection H as <-. simpl.
  rewrite lit_int in E1.
  fold (workload_scaled (Z.max 0 x) (Z.max 0 (Z.min 10 x0))) in E1.
  destruct (workload_scaled _ _) as [u| | |] eqn:Es; try discriminate.
  exists u. injection E1 as <-. auto 10.
Qed.

Lemma fnonneg_le_fin a b :
  fnonneg a -> fle a (Fin b) -> exists u, a = Fin u /\ 0 <= u <= b.
Proof.
  unfold fnonneg. destruct a; simpl; try tauto. intros. exists u. auto.
Qed.

Lemma of_Z_23 : of_Z 23 = Fin (23 * U).
Proof. apply of_Z_exact. split; [lia|reflexivity]. Qed.

Lemma of_Z_100 : of_Z 100 = Fin (100 * U).
Proof. apply of_Z_exact. split; [lia|reflexivity]. Qed.

Lemma num_mul_Flt_100 f :
  num_mul (Flt f) (Int 100) = Ok (Flt (fmul f (Fin (100 * U)))).
Proof. apply num_mul_Flt_Int_eq, of_Z_100. Qed.

Lemma workload_scaled_mono wd1 pl1 wd2 pl2 :
  0 <= wd1 <= wd2 -> 0 <= pl1 <= pl2 ->
  fle (workload_scaled wd1 pl1) (workload_scaled wd2 pl2).
Proof.
  intros Hwd Hpl. unfold workload_scaled.
  destruct c03_fin as (c & -> & Hc). rewrite of_Z_23, of_Z_100.
  pose proof U_pos.
  apply fmul_mono_r; [|apply fdiv_mono|lia]; try lia.
  - apply fdiv_nonneg; [|lia]. apply fadd_nonneg; [apply of_Z_nonneg; lia|].
    apply fmul_nonneg; [apply of_Z_nonneg; lia|lia].
  - apply fadd_nonneg; [apply of_Z_nonneg; lia|].
    apply fmul_nonneg; [apply of_Z_nonneg; lia|lia].
  - apply fadd_mono.
    + apply of_Z_nonneg; lia.
    + apply fmul_nonneg; [apply of_Z_nonneg; lia|lia].
    + apply of_Z_mono; lia.
    + apply fmul_mono_r; [apply of_Z_nonneg; lia|apply of_Z_mono; lia|lia].
Qed.

Lemma workload_scaled_nonneg wd pl :
  0 <= wd -> 0 <= pl -> fnonneg (workload_scaled wd pl).
Proof.
  intros Hwd Hpl. unfold workload_scaled.
  destruct c03_fin as (c & -> & Hc). rewrite of_Z_23, of_Z_100.
  pose proof U_pos.
  apply fmul_nonneg; [|lia]. apply fdiv_nonneg; [|lia].
  apply fadd_nonneg; [apply of_Z_nonneg; lia|].
  apply fmul_nonneg; [apply of_Z_nonneg; lia|lia].
Qed.

Lemma workload_scaled_bound_fin :
  exists u, workload_scaled work_days_bound 10 = Fin u.
Proof. vm_compute. eexists. reflexivity. Qed.

Lemma of_Z_bound_fin : exists u, of_Z work_days_bound = Fin u.
Proof. vm_compute. eexists. reflexivity. Qed.

Lemma workload_scaled_fin wd pl :
  0 <= wd <= work_days_bound -> 0 <= pl <= 10 ->
  exists u, workload_scaled wd pl = Fin u /\ 0 <= u.
Proof.
  intros Hwd Hpl. destruct workload_scaled_bound_fin as [b Hb].
  destruct (fnonneg_le_fin (workload_scaled wd pl) b) as (u & Hu & Hr).
  - apply workload_scaled_nonneg; lia.
  - rewrite <- Hb. apply workload_scaled_mono; lia.
  - exists u. split; [assumption|lia].
Qed.

Lemma of_Z_fin_below z b u :
  0 <= z <= b -> of_Z b = Fin u -> exists v, of_Z z = Fin v.
Proof.
  intros Hz Hb.
  destruct (fnonneg_le_fin (of_Z z) u) as (v & Hv & _).
  - apply of_Z_nonneg; lia.
  - rewrite <- Hb. apply of_Z_mono; lia.
  - eauto.
Qed.

Lemma calculate_workload_score_returns v1 v2 wd pl :
  py_int (py_or v1 (VInt 0)) = Ok wd ->
  py_int (py_or v2 (VInt 0)) = Ok pl ->
  wd <= work_days_bound ->
  exists r, calculate_workload_score v1 v2 = Ok r.
Proof.
  intros H1 H2 Hb. unfold calculate_workload_score.
  rewrite H1, bind_ret, H2, bind_ret.
  assert (Hwd : 0 <= Z.max 0 wd <= work_days_bound)
    by (unfold work_days_bound in *; lia).
  assert (Hpl : 0 <= Z.max 0 (Z.min 10 pl) <= 10) by lia.
  destruct (workload_scaled_fin _ _ Hwd Hpl) as (u & Hu & _).
  destruct of_Z_bound_fin as [b Hbf].
  destruct (of_Z_fin_below _ _ _ Hwd Hbf) as [fw Hfw].
  assert (Hfp : of_Z (Z.max 0 (Z.min 10 pl)) = Fin (Z.max 0 (Z.min 10 pl) * U)).
  { apply of_Z_exact. split; [lia|]. eapply Z.le_lt_trans; [apply Hpl|reflexivity]. }
  unfold workload_scaled in Hu. rewrite Hfw, Hfp, of_Z_23, of_Z_100 in Hu.
  pose proof U_pos.
  rewrite (num_mul_Int_Flt_eq _ _ _ Hfp), bind_ret.
  rewrite (num_add_Int_Flt_eq _ _ _ Hfw), bind_ret.
  unfold max_score. rewrite lit_int, of_Z_23.
  rewrite num_div_Flt_Flt_eq, bind_ret by lia.
  rewrite num_mul_Flt_100, bind_ret.
  rewrite Hu. simpl. eauto.
Qed.

Lemma py_int_or_VInt z : py_int (py_or (VInt z) (VInt 0)) = Ok z.
Proof.
  unfold py_or. simpl. destruct (Z.eqb_spec z 0); simpl; congruence.
Qed.

Lemma py_int_or_column o : py_int (py_or (column o) (VInt 0)) = Ok (default 0 o).
Proof. destruct o as [z|]; [apply py_int_or_VInt|reflexivity]. Qed.

(** C1: whenever [calculate_workload_score] returns a record, its
    workload and availability percentages add up to 100. *)
Theorem workload_plus_availability (work_days perceived_load : pyval) r :
  calculate_workload_score work_days perceived_load = Ok r ->
  workload_percent r + availability_percent r = 100.
Proof.
  intros H. apply calculate_workload_score_inv in H.
  destruct H as (wd & pl & u & _ & _ & _ & _ & _ & _ & Ha). lia.
Qed.

(** C8: [workload_percent] is monotone non-decreasing in [work_days] and in
    [perceived_load]: raising either argument (or both) never lowers the
    percentage of the returned record.  Taking [pl1 = pl2] gives monotonicity
    in [work_days] for a fixed load, [wd1 = wd2] the converse. *)
Theorem workload_percent_monotone (wd1 pl1 wd2 pl2 : Z) r1 r2 :
  wd1 <= wd2 -> pl1 <= pl2 ->
  calculate_workload_score (VInt wd1) (VInt pl1) = Ok r1 ->
  calculate_workload_score (VInt wd2) (VInt pl2) = Ok r2 ->
  workload_percent r1 <= workload_percent r2.
Proof.
  intros Hwd Hpl H1 H2.
  apply calculate_workload_score_inv in H1, H2.
  destruct H1 as (a1 & b1 & u1 & Ea1 & Eb1 & Ew1 & Ep1 & Es1 & -> & _).
  destruct H2 as (a2 & b2 & u2 & Ea2 & Eb2 & Ew2 & Ep2 & Es2 & -> & _).
  rewrite py_int_or_VInt in Ea1, Eb1, Ea2, Eb2.
  injection Ea1 as <-. injection Eb1 as <-.
  injection Ea2 as <-. injection Eb2 as <-.
  assert (Hle : fle (Fin u1) (Fin u2)).
  { rewrite <- Es1, <- Es2, Ew1, Ep1, Ew2, Ep2.
    apply workload_scaled_mono; lia. }
  simpl in Hle. pose proof U_pos.
  apply Z.min_le_compat_l. apply rhe_mono; nia.
Qed.

(** The worked example of the specification: 20 work days at load 10 give
    a workload score of 23.0, hence 100 percent workload. *)
Example workload_full_month :
  exists r, calculate_workload_score (VInt 20) (VInt 10) = Ok r /\
            workload_score r = Flt (lit 23 1) /\
            workload_percent r = 100 /\ availability_percent r = 0.
Proof.
  eexists. split; [vm_compute; reflexivity|].
  repeat split; vm_compute; reflexivity.
Qed.

(** Beyond the range of a float the conversion of [work_days] raises. *)
Example workload_score_overflow :
  calculate_workload_score (VInt (10 ^ 400)) (VInt 0) = Raise OverflowError.
Proof. vm_compute. reflexivity. Qed.

(** C3, amended: [safe_int] with an integer default returns, for every
    value that is [None], an integer, a text or a float other than an
    infinity, an integer: the conversion [int(value)] when it succeeds, the
    default when it raises [ValueError] or [TypeError], clamped to the given
    bounds.  [calculate_workload_score] returns a record for every pair of
    arguments on which the conversions [int(work_days or 0)] and
    [int(perceived_load or 0)] succeed (integers, [None], finite floats,
    texts that [int] accepts), with [work_days] up to [work_days_bound]; when
    the conversion of [work_days] raises, the function raises the same
    exception. *)
Theorem numeric_entry_points_total (value : pyval) (fallback : Z)
    (min_val max_val : option Z) (work_days0 perceived_load0 : pyval)
    (wd pl : Z) :
  value <> VFloat PInf -> value <> VFloat NInf ->
  py_int (py_or work_days0 (VInt 0)) = Ok wd ->
  py_int (py_or perceived_load0 (VInt 0)) = Ok pl ->
  wd <= work_days_bound ->
  safe_int value (Some fallback) min_val max_val
    = Ok (Some (clamp min_val max_val
                  (match py_int value with Ok z => z | Raise _ => fallback end)))
  /\ (exists r,
        calculate_workload_score work_days0 perceived_load0 = Ok r /\
        work_days r = Z.max 0 wd /\
        perceived_load r = Z.max 0 (Z.min 10 pl))
  /\ (forall v1 v2 e,
        py_int (py_or v1 (VInt 0)) = Raise e ->
        calculate_workload_score v1 v2 = Raise e).
Proof.
  intros Hp Hn Hwd Hpl Hb. split; [|split].
  - unfold safe_int, clamp.
    destruct (py_int value) as [z|e] eqn:E.
    + destruct min_val, max_val; reflexivity.
    + destruct e; try (destruct min_val, max_val; reflexivity).
      * destruct value as [|z|[| | |]|s]; simpl in E; try discriminate;
          try congruence.
        destruct (int_of_string s); discriminate.
      * destruct value as [|z|[| | |]|s]; simpl in E; try discriminate.
        destruct (int_of_string s); discriminate.
  - destruct (calculate_workload_score_returns _ _ _ _ Hwd Hpl Hb) as [r Hr].
    exists r. split; [exact Hr|].
    destruct (calculate_workload_score_inv _ _ _ Hr)
      as (wd' & pl' & u & Ewd & Epl & -> & -> & _).
    rewrite Hwd in Ewd. rewrite Hpl in Epl.
    injection Ewd as <-. injection Epl as <-. auto.
  - intros v1 v2 e He. unfold calculate_workload_score. rewrite He. reflexivity.
Qed.

End WorkloadScore.

Lemma workload_plus_availability_witness :
  exists r, calculate_workload_score (VInt 7) (VInt 3) = Ok r /\
            workload_percent r = 34 /\
            workload_percent r + availability_percent r = 100.
Proof.
  eexists. split; [vm_compute; reflexivity|]. split; [reflexivity|].
  apply (workload_plus_availability (VInt 7) (VInt 3)).
  vm_compute; reflexivity.
Defined.

Lemma workload_percent_monotone_witness :
  exists r1 r2,
    calculate_workload_score (VInt 7) (VInt 3) = Ok r1 /\
    calculate_workload_score (VInt 8) (VInt 9) = Ok r2 /\
    workload_percent r1 = 34 /\ workload_percent r2 = 47 /\
    workload_percent r1 <= workload_percent r2.
Proof.
  do 2 eexists.
  split; [vm_compute; reflexivity|]. split; [vm_compute; reflexivity|].
  split; [reflexivity|]. split; [reflexivity|].
  apply (workload_percent_monotone 7 3 8 9); try lia; vm_compute; reflexivity.
Defined.

(** C3 as stated fails: on a non-numeric string [calculate_workload_score]
    raises [ValueError] ([int("abc")] is not caught). *)
Lemma workload_score_raises_on_text :
  calculate_workload_score (VStr "abc") (VInt 0) = Raise ValueError.
Proof. reflexivity. Qed.

Lemma numeric_entry_points_total_witness :
  safe_int (VStr "abc") (Some 3) (Some 1) (Some 5) = Ok (Some 3) /\
  exists r, calculate_workload_score (VStr " 12 ") (VFloat (lit 129 10)) = Ok r
            /\ work_days r = 12 /\ perceived_load r = 10.
Proof.
  destruct (numeric_entry_points_total (VStr "abc") 3 (Some 1) (Some 5)
              (VStr " 12 ") (VFloat (lit 129 10)) 12 12
              ltac:(discriminate) ltac:(discriminate)
              ltac:(vm_compute; reflexivity) ltac:(vm_compute; reflexivity)
              ltac:(vm_compute; discriminate))
    as (H1 & H2 & _).
  split; [exact H1|exact H2].
Defined.

(** What [int] makes of some ASCII texts: the whitespace around the digits
    is skipped, but not the separator characters 28-31 that [strip]
    removes; underscores may separate digits. *)
Example ascii_int_examples :
  ascii_int " 12 " = Some 12 /\ ascii_int "-7" = Some (-7) /\
  ascii_int "1_000" = Some 1000 /\ ascii_int "12abc" = None /\
  ascii_int "" = None /\ ascii_int "1__0" = None /\
  ascii_int (String (ascii_of_N 31) "12") = None /\
  ascii_strip (String (ascii_of_N 31) "12") = "12"%string.
Proof. repeat split. Qed.

(** ** Missing months *)

Section MissingMonths.

Context {text : Text}.

Lemma query_workload_none table cid month :
  Forall (fun w => ~ (mw_consultant_id w = cid /\ mw_month w = month)) table ->
  query_workload table cid month = None.
Proof.
  unfold query_workload. induction 1 as [|w table Hw _ IH]; simpl; [reflexivity|].
  destruct (Z.eqb_spec (mw_consultant_id w) cid);
    destruct (Z.eqb_spec (mw_month w) month); simpl; try assumption.
  exfalso. auto.
Qed.

Lemma calculate_workload_score_zero :
  calculate_workload_score (VInt 0) (VInt 0) = Ok idle_month.
Proof. vm_compute. reflexivity. Qed.

(** C10: for a consultant and month without a [MonthlyWorkload] row the
    month is scored as [work_days = 0], [perceived_load = 0], hence
    [workload_percent = 0] and [availability_percent = 100], in the overview
    flow and in the match flow alike. *)
Theorem missing_month_fully_available (table : list MonthlyWorkload)
    (c : Consultant) (month : Z) :
  Forall (fun w => ~ (mw_consultant_id w = consultant_id c /\ mw_month w = month))
         table ->
  exists r,
    get_consultant_workload_for_month table c month = Ok r /\
    work_days r = 0 /\ perceived_load r = 0 /\
    workload_percent r = 0 /\ availability_percent r = 100 /\
    overview_consultant table month c
      = Ok {| ov_id := consultant_id c; ov_workload_data := r |} /\
    forall now required_skills reference_project m,
      match_consultant now table month required_skills reference_project c = Ok m ->
      mr_workload_data m = r /\ mr_availability m = 100.
Proof.
  intros Hnone. exists idle_month.
  assert (Hg : get_consultant_workload_for_month table c month = Ok idle_month).
  { unfold get_consultant_workload_for_month.
    rewrite (query_workload_none _ _ _ Hnone).
    apply calculate_workload_score_zero. }
  split; [exact Hg|]. do 4 (split; [reflexivity|]). split.
  - unfold overview_consultant. rewrite Hg. reflexivity.
  - intros now req ref m H. unfold match_consultant in H.
    inv_bind H. rewrite Hg, bind_ret in H.
    inv_bind H. destruct x0 as [pe info]. inv_bind H.
    injection H as <-. split; reflexivity.
Qed.

End MissingMonths.

Lemma missing_month_fully_available_witness :
  exists r,
    get_consultant_workload_for_month
      [{| mw_consultant_id := 1; mw_month := 3;
          mw_work_days := Some 12; mw_perceived_load := Some 4 |}]
      {| consultant_id := 1; consultant_name := "Ada";
         consultant_skills := []; consultant_projects := [] |} 4 = Ok r /\
    workload_percent r = 0 /\ availability_percent r = 100.
Proof.
  destruct (missing_month_fully_available
    [{| mw_consultant_id := 1; mw_month := 3;
        mw_work_days := Some 12; mw_perceived_load := Some 4 |}]
    {| consultant_id := 1; consultant_name := "Ada";
       consultant_skills := []; consultant_projects := [] |} 4)
    as (r & Hg & _ & _ & Hw & Ha & _).
  - repeat constructor. simpl. intros [_ H]. discriminate.
  - exists r. auto.
Defined.

(** ** Recency *)

Lemma datetime_ym_valid y m :
  1 <= y <= 9999 -> 1 <= m <= 12 -> datetime_ym y m = Ok (y, m).
Proof.
  intros Hy Hm. unfold datetime_ym.
  destruct (Z.leb_spec 1 y); [|lia]. destruct (Z.leb_spec y 9999); [|lia].
  destruct (Z.leb_spec 1 m); [|lia]. destruct (Z.leb_spec m 12); [|lia].
  reflexivity.
Qed.

Lemma months_since_valid now y m :
  1 <= y <= 9999 -> 1 <= m <= 12 ->
  months_since now y m = Ok ((now_year now - y) * 12 + (now_month now - m)).
Proof.
  intros Hy Hm. unfold months_since. rewrite datetime_ym_valid by assumption.
  reflexivity.
Qed.

Lemma missing_Some_valid z : 1 <= z -> missing (Some z) = false.
Proof. intros H. simpl. apply Z.eqb_neq. lia. Qed.

Lemma calculate_recency_factor_valid now y m :
  1 <= y <= 9999 -> 1 <= m <= 12 ->
  calculate_recency_factor now (Some y) (Some m) =
  let months := (now_year now - y) * 12 + (now_month now - m) in
  Ok (Flt (if months <=? 6 then lit 1 1
           else if months <=? 18 then lit 85 100
           else if months <=? 36 then lit 70 100
           else lit 60 100)).
Proof.
  intros Hy Hm. unfold calculate_recency_factor.
  rewrite !missing_Some_valid by lia. simpl orb. cbv iota.
  simpl default. rewrite months_since_valid, bind_ret by assumption.
  cbv zeta.
  repeat match goal with
         | |- context [?a <=? ?b] => destruct (Z.leb_spec a b)
         end; reflexivity.
Qed.

(** Outside the range of [datetime] the constructor raises. *)
Example recency_factor_invalid_date :
  calculate_recency_factor example_clock (Some 2024) (Some 13) = Raise ValueError /\
  calculate_recency_factor example_clock (Some 10000) (Some 1) = Raise ValueError.
Proof. split; reflexivity. Qed.

(** C5: [calculate_recency_factor] returns 1.0 when the end date is at most
    6 whole months before the clock, 0.85 for 7 to 18 months, 0.70 for 19 to
    36 months, 0.60 beyond 36 months, and 0.75 when the end year or the end
    month is missing; in particular exactly 6 months gives 1.0 and exactly 7
    months gives 0.85. *)
Theorem recency_factor_buckets (now : Clock) (y m : Z) :
  1 <= y <= 9999 -> 1 <= m <= 12 ->
  let months := (now_year now - y) * 12 + (now_month now - m) in
  let factor := calculate_recency_factor now (Some y) (Some m) in
  (months <= 6 -> factor = Ok (Flt (lit 1 1))) /\
  (7 <= months <= 18 -> factor = Ok (Flt (lit 85 100))) /\
  (19 <= months <= 36 -> factor = Ok (Flt (lit 70 100))) /\
  (36 < months -> factor = Ok (Flt (lit 60 100))) /\
  (months = 6 -> factor = Ok (Flt (lit 1 1))) /\
  (months = 7 -> factor = Ok (Flt (lit 85 100))) /\
  (forall end_year end_month,
      end_year = None \/ end_month = None ->
      calculate_recency_factor now end_year end_month = Ok (Flt (lit 75 100))).
Proof.
  intros Hy Hm months factor. subst factor.
  rewrite calculate_recency_factor_valid by assumption. fold months. cbv zeta.
  repeat split; intros;
    repeat match goal with
           | |- context [?a <=? ?b] => destruct (Z.leb_spec a b); try lia
           end; try reflexivity.
  destruct H as [-> | ->]; [reflexivity|].
  unfold calculate_recency_factor. rewrite orb_true_r. reflexivity.
Qed.

Lemma recency_factor_buckets_witness :
  calculate_recency_factor {| now_year := 2026; now_month := 11 |}
    (Some 2026) (Some 5) = Ok (Flt (lit 1 1)) /\
  calculate_recency_factor {| now_year := 2026; now_month := 11 |}
    (Some 2026) None = Ok (Flt (lit 75 100)).
Proof.
  destruct (recency_factor_buckets {| now_year := 2026; now_month := 11 |}
              2026 5 ltac:(lia) ltac:(lia))
    as (_ & _ & _ & _ & H6 & _ & Hmiss).
  split; [apply H6; reflexivity|apply Hmiss; right; reflexivity].
Defined.

(** ** Final score *)

Section FinalScore.

Context {text : Text}.

(** The worked examples of the specification. *)
Example final_score_examples :
  calculate_final_score 80 60 (Some 40) = Ok 68 /\
  calculate_final_score 80 60 None = Ok 73.
Proof. split; vm_compute; reflexivity. Qed.

(** C4: in the match computation the two-term formula is applied exactly
    when no reference project is given; with a reference project the
    three-term formula is applied to the similarity score, which is 0 when
    the consultant has no experiences. *)
Theorem match_weight_formula (now : Clock) (table : list MonthlyWorkload)
    (month : Z) (required_skills : list (Z * Z))
    (reference_project : option Project) (c : Consultant) (m : match_result) :
  match_consultant now table month required_skills reference_project c = Ok m ->
  (reference_project = None ->
     mr_project_experience m = None /\
     two_term_formula (mr_skill_fit m) (mr_availability m)
       = Ok (mr_final_score m)) /\
  (forall p, reference_project = Some p ->
     exists pe,
       mr_project_experience m = Some pe /\
       three_term_formula (mr_skill_fit m) (mr_availability m) pe
         = Ok (mr_final_score m) /\
       (consultant_projects c = [] -> pe = 0)).
Proof.
  intros H. unfold match_consultant in H.
  bind_inv H as sf Esf. bind_inv H as wl Ewl.
  bind_inv H as [pe info] Epe. bind_inv H as final Efinal.
  injection H as <-. simpl. split.
  - intros ->. injection Epe as <- <-. split; [reflexivity|exact Efinal].
  - intros p ->. bind_inv Epe as [pe' info'] Esim.
    injection Epe as <- <-. exists pe'. split; [reflexivity|].
    split; [exact Efinal|]. intros Hnil. rewrite Hnil in Esim.
    simpl in Esim. congruence.
Qed.

End FinalScore.

Lemma match_weight_formula_witness :
  exists m,
    match_consultant {| now_year := 2026; now_month := 11 |} [] 11 [(1, 3)]
      (Some {| project_id := 1; project_name := "P"; project_client := None;
               project_domain_tags := None |})
      {| consultant_id := 1; consultant_name := "Ada";
         consultant_skills := [{| cs_skill_id := 1; cs_level := 3 |}];
         consultant_projects := [] |} = Ok m /\
    mr_project_experience m = Some 0 /\
    mr_final_score m = 85 /\
    three_term_formula (mr_skill_fit m) (mr_availability m) 0
      = Ok (mr_final_score m).
Proof.
  eexists. split; [vm_compute; reflexivity|].
  split; [reflexivity|]. split; [reflexivity|].
  edestruct (match_weight_formula {| now_year := 2026; now_month := 11 |} [] 11
               [(1, 3)]
               (Some {| project_id := 1; project_name := "P";
                        project_client := None; project_domain_tags := None |})
               {| consultant_id := 1; consultant_name := "Ada";
                  consultant_skills := [{| cs_skill_id := 1; cs_level := 3 |}];
                  consultant_projects := [] |}) as [_ H].
  - vm_compute. reflexivity.
  - destruct (H _ eq_refl) as (pe & Hpe & Hf & _).
    simpl in Hpe. injection Hpe as <-. exact Hf.
Defined.

(** ** Skill fit *)

Lemma num_div_Int_Int x y :
  0 < y ->
  num_div (Int x) (Int y) =
  match rnd (x * U) y with
  | Fin u => Ok (Flt (Fin u))
  | _ => Raise OverflowError
  end.
Proof.
  intros Hy. unfold num_div.
  destruct (Z.eqb_spec y 0); [lia|]. destruct (Z.ltb_spec 0 y); [reflexivity|lia].
Qed.

Lemma skill_score_range d id lvl :
  0 <= default 0 (d !! id) <= level_bound ->
  exists u, skill_score d (id, lvl) = Ok (Flt (Fin u)) /\ 0 <= u <= U /\
            (0 < lvl <= default 0 (d !! id) -> u = U).
Proof.
  intros Hcl. unfold skill_score. set (cl := default 0 (d !! id)) in *.
  pose proof U_pos as HU.
  destruct (Z.ltb_spec 0 lvl) as [Hl|Hl].
  - rewrite num_div_Int_Int by assumption.
    destruct (rnd_nonneg_bounded (cl * U) lvl) as (q & Hq & Hq0 & Hq1);
      [assumption| |].
    { split; [apply Z.mul_nonneg_nonneg; lia|].
      unfold level_bound in Hcl.
      transitivity (2 ^ 1000 * U * 1); [|apply Z.mul_le_mono_nonneg_l; [|lia]].
      - rewrite Z.mul_1_r. apply Z.mul_le_mono_nonneg_r; lia.
      - apply Z.mul_nonneg_nonneg; [|lia]. apply Z.pow_nonneg. lia. }
    rewrite Hq, bind_ret. unfold py_min, num_ltb. rewrite lit_1. simpl fltb.
    destruct (Z.ltb_spec q U) as [Hlt|Hge].
    + exists q. split; [reflexivity|]. split; [lia|]. intros [_ Hmet].
      assert (U <= q); [|lia]. apply Hq1.
      rewrite (Z.mul_comm cl U). apply Z.mul_le_mono_nonneg_l; lia.
    + exists U. split; [reflexivity|]. split; [lia|reflexivity].
  - destruct (Z.ltb_spec 0 cl).
    + rewrite lit_1. exists U. split; [reflexivity|]. split; [lia|reflexivity].
    + rewrite lit_0 by lia. exists 0. split; [reflexivity|]. split; [lia|lia].
Qed.

Lemma py_sum_cons x xs :
  py_sum (x :: xs) = num_add (Int 0) x ≫= fun acc => py_sum_from acc xs.
Proof. reflexivity. Qed.

Lemma num_add_0_Flt f : num_add (Int 0) (Flt f) = Ok (Flt (fadd (Fin (0 * U)) f)).
Proof.
  apply num_add_Int_Flt_eq, of_Z_exact. split; [lia|reflexivity].
Qed.

Section SkillFit.

Variable l : Z.
Hypothesis l_range : 0 <= l <= 1.

Variable d : gmap Z Z.

Lemma skill_scores_range required_skills :
  Forall (requirement_ok l d) required_skills ->
  exists ss, skill_scores d required_skills = Ok ss /\
             Forall (score_in l) ss /\
             length ss = length required_skills.
Proof.
  induction 1 as [|[id lvl] rest [Hb Hmet] _ (ss & Hss & Hin & Hlen)].
  - exists []. repeat split. constructor.
  - destruct (skill_score_range d id lvl Hb) as (u & Hu & Hr & Hone).
    simpl in *. rewrite Hu, bind_ret, Hss, bind_ret.
    exists (Flt (Fin u) :: ss). split; [reflexivity|]. split.
    + constructor; [|assumption]. exists u. split; [reflexivity|].
      destruct (Z.eq_dec l 1) as [->|]; [rewrite Hone by auto; lia|nia].
    + simpl. congruence.
Qed.

Lemma py_sum_from_range xs : forall a k,
  Forall (score_in l) xs ->
  0 <= k -> l * k * U <= a <= k * U ->
  k + Z.of_nat (length xs) < 2 ^ 53 ->
  exists b, py_sum_from (Flt (Fin a)) xs = Ok (Flt (Fin b)) /\
            l * (k + Z.of_nat (length xs)) * U <= b
              <= (k + Z.of_nat (length xs)) * U.
Proof.
  induction xs as [|x xs IH]; intros a k Hall Hk Ha Hlen.
  - exists a. simpl. rewrite Z.add_0_r. auto.
  - inversion Hall as [|? ? (u & -> & Hu) Hrest]; subst.
    simpl length in *. rewrite Nat2Z.inj_succ in *.
    assert (Hlk : 0 <= l * (k + 1)) by (apply Z.mul_nonneg_nonneg; lia).
    destruct (rnd_fin_between_int (a + u) 1 (l * (k + 1)) (k + 1))
      as (b & Hb & Hbr); try lia.
    destruct (IH b (k + 1) Hrest ltac:(lia) ltac:(lia) ltac:(lia))
      as (c & Hc & Hcr).
    exists c. split.
    + simpl. unfold num_add. simpl. rewrite Hb. exact Hc.
    + replace (k + Z.succ (Z.of_nat (length xs)))
        with (k + 1 + Z.of_nat (length xs)) by lia. exact Hcr.
Qed.

Lemma calculate_skill_fit_range required_skills :
  required_skills <> [] ->
  Forall (requirement_ok l d) required_skills ->
  Z.of_nat (length required_skills) < 2 ^ 53 ->
  exists r, calculate_skill_fit d required_skills = Ok r /\ 100 * l <= r <= 100.
Proof.
  intros Hne Hall Hlen.
  destruct (skill_scores_range _ Hall) as (ss & Hss & Hin & Hl).
  unfold calculate_skill_fit.
  destruct required_skills as [|r0 rest]; [contradiction|].
  rewrite Hss, bind_ret.
  destruct ss as [|s0 ss]; [discriminate|].
  set (n := Z.of_nat (length (s0 :: ss))).
  assert (Hn : 1 <= n < 2 ^ 53).
  { unfold n. rewrite Hl. simpl length in *. lia. }
  pose proof U_pos as HU.
  (* the sum *)
  inversion Hin as [|? ? (u0 & -> & Hu0) Hrest]; subst.
  rewrite py_sum_cons, num_add_0_Flt, bind_ret. simpl fadd.
  destruct (rnd_fin_between_int (0 * U + u0) 1 l 1) as (a & Ha & Har);
    try lia; try reflexivity.
  rewrite Ha.
  destruct (py_sum_from_range ss a 1 Hrest ltac:(lia) ltac:(lia))
    as (b & Hb & Hbr).
  { unfold n in Hn. simpl length in Hn. lia. }
  rewrite Hb, bind_ret.
  assert (Hbn : l * n * U <= b <= n * U).
  { unfold n. simpl length. rewrite Nat2Z.inj_succ. 
    replace (Z.succ (Z.of_nat (length ss))) with (1 + Z.of_nat (length ss)) by lia.
    exact Hbr. }
  (* the average *)
  unfold num_div. rewrite to_float_Flt, bind_ret.
  rewrite (to_float_small n) by lia. rewrite bind_ret.
  assert (HnU : 0 < n * U) by (apply Z.mul_pos_pos; lia).
  simpl feqb. destruct (Z.eqb_spec (n * U) 0); [lia|].
  simpl fdiv. destruct (Z.ltb_spec 0 (n * U)); [|lia].
  destruct (rnd_fin_between_int (b * U) (n * U) l 1) as (v & Hv & Hvr);
    try lia; try reflexivity.
  { split.
    - replace (l * U * (n * U)) with (l * n * U * U) by lia.
      apply Z.mul_le_mono_nonneg_r; lia.
    - replace (1 * U * (n * U)) with (n * U * U) by lia.
      apply Z.mul_le_mono_nonneg_r; lia. }
  rewrite Hv, bind_ret.
  (* scaling and rounding *)
  rewrite num_mul_Flt_100, bind_ret. simpl fmul.
  destruct (rnd_fin_between_int (v * (100 * U)) U (100 * l) 100)
    as (w & Hw & Hwr); try lia; try reflexivity.
  { split.
    - replace (100 * l * U * U) with (l * U * (100 * U)) by lia.
      apply Z.mul_le_mono_nonneg_r; lia.
    - replace (100 * U * U) with (1 * U * (100 * U)) by lia.
      apply Z.mul_le_mono_nonneg_r; lia. }
  rewrite Hw. simpl py_round. eexists. split; [reflexivity|].
  apply rhe_between; lia.
Qed.

End SkillFit.

(** C6: [calculate_skill_fit] returns 100 for an empty requirement list,
    whatever the consultant's skills; and it returns 100 whenever every
    required (skill, level) pair has its level in 1-5 and the consultant's
    level for that skill is at least the required one.  (Levels are taken up
    to [level_bound], far beyond the data model's 5, and the list is shorter
    than [2^53], as every list in memory is.) *)
Theorem skill_fit_full (d : gmap Z Z) (required_skills : list (Z * Z)) :
  Z.of_nat (length required_skills) < 2 ^ 53 ->
  Forall (fun req => 1 <= req.2 <= 5 /\
                     req.2 <= default 0 (d !! req.1) <= level_bound)
         required_skills ->
  (forall d' : gmap Z Z, calculate_skill_fit d' [] = Ok 100) /\
  calculate_skill_fit d required_skills = Ok 100.
Proof.
  intros Hlen Hall. split; [reflexivity|].
  destruct required_skills as [|r0 rest] eqn:E; [reflexivity|].
  rewrite <- E in *.
  destruct (calculate_skill_fit_range 1 ltac:(lia) d required_skills)
    as (r & Hr & Hrange); [subst; discriminate| |assumption|].
  - eapply Forall_impl; [exact Hall|]. intros [id lvl] [H1 H2].
    unfold requirement_ok. simpl in *. split; [lia|]. intros _. lia.
  - rewrite Hr. f_equal. lia.
Qed.

Lemma skill_fit_full_witness :
  calculate_skill_fit (<[1 := 3]> (<[2 := 5]> ∅)) [(1, 3); (2, 4)] = Ok 100.
Proof.
  apply (skill_fit_full (<[1 := 3]> (<[2 := 5]> ∅)) [(1, 3); (2, 4)]).
  - reflexivity.
  - repeat constructor; vm_compute; congruence.
Defined.

(** ** Project similarity *)

Section ProjectSimilarity.

Context {text : Text}.

Lemma clamp_unit x : unit_interval (py_max (Int 0) (py_min (Int 1) x)).
Proof.
  unfold unit_interval, py_max, py_min, num_gtb.
  destruct x as [z|[u| | |]]; simpl.
  - destruct (Z.ltb_spec z 1); simpl.
    + destruct (Z.ltb_spec 0 z); [lia|auto].
    + auto.
  - destruct (Z.ltb_spec u (1 * U)); simpl.
    + destruct (Z.ltb_spec (0 * U) u); [|auto].
      right. right. exists u. split; [reflexivity|lia].
    + auto.
  - auto.
  - auto.
  - auto.
Qed.

Lemma unit_interval_uval s : unit_interval s -> 0 <= uval s <= U.
Proof.
  pose proof U_pos.
  intros [->|[->|(u & -> & Hu)]]; simpl; lia.
Qed.

Lemma unit_ltb a b :
  unit_interval a -> unit_interval b -> num_ltb a b = (uval a <? uval b).
Proof.
  pose proof U_pos.
  intros [->|[->|(u & -> & Hu)]] [->|[->|(v & -> & Hv)]]; simpl;
    try reflexivity;
    repeat match goal with
           | |- context [?x <? ?y] => destruct (Z.ltb_spec x y)
           end; try reflexivity; lia.
Qed.

Lemma unit_uval_inj a b :
  unit_interval a -> unit_interval b -> uval a = uval b -> a = b.
Proof.
  pose proof U_pos.
  intros [->|[->|(u & -> & Hu)]] [->|[->|(v & -> & Hv)]]; simpl;
    intros E; try reflexivity; try lia.
  subst. reflexivity.
Qed.

Lemma unit_uval_zero s : unit_interval s -> uval s <= 0 -> s = Int 0.
Proof.
  pose proof U_pos.
  intros [->|[->|(u & -> & Hu)]]; simpl; intros; try reflexivity; lia.
Qed.

Lemma unit_uval_one s : unit_interval s -> U <= uval s -> s = Int 1.
Proof.
  pose proof U_pos.
  intros [->|[->|(u & -> & Hu)]]; simpl; intros; try reflexivity; lia.
Qed.

Lemma to_float_of_small x : small x -> exists f, to_float x = Ok f.
Proof.
  destruct x as [z|f]; intros H; [|eauto].
  rewrite to_float_small by assumption. eauto.
Qed.

Lemma num_mul_Flt_small f x :
  small x -> exists g, num_mul (Flt f) x = Ok (Flt g).
Proof.
  intros H. destruct x as [z|g]; [|eexists; reflexivity].
  rewrite (num_mul_Flt_Int_eq z (z * U)) by (apply of_Z_exact; assumption).
  eauto.
Qed.

Lemma num_mul_small_Flt f x :
  small x -> exists g, num_mul x (Flt f) = Ok (Flt g).
Proof.
  intros H. destruct x as [z|g]; [|eexists; reflexivity].
  rewrite (num_mul_Int_Flt_eq z (z * U)) by (apply of_Z_exact; assumption).
  eauto.
Qed.

Lemma num_add_small_Flt f x :
  small x -> exists g, num_add x (Flt f) = Ok (Flt g).
Proof.
  intros H. destruct x as [z|g]; [|eexists; reflexivity].
  rewrite (num_add_Int_Flt_eq z (z * U)) by (apply of_Z_exact; assumption).
  eauto.
Qed.

Lemma py_min_1_small x : small x -> small (py_min (Int 1) x).
Proof.
  intros H. unfold py_min. destruct (num_ltb x (Int 1)); [assumption|].
  simpl. split; [lia|reflexivity].
Qed.

Lemma base_similarity_total t cm :
  small t -> 0 <= cm <= 1 -> exists f, base_similarity t cm = Ok (Flt f).
Proof.
  intros Ht Hcm. unfold base_similarity.
  assert (Hs : small (Int cm)).
  { simpl. split; [lia|]. eapply Z.le_lt_trans; [apply Hcm|reflexivity]. }
  destruct (num_mul_Flt_small (lit 45 100) t Ht) as [a ->]. rewrite bind_ret.
  destruct (num_mul_Flt_small (lit 35 100) (Int cm) Hs) as [b ->].
  rewrite bind_ret. change (num_add (Flt a) (Flt b)) with (Ok (Flt (fadd a b))).
  rewrite bind_ret.
  destruct (num_mul_small_Flt (lit 5 10) (Int cm) Hs) as [h ->].
  rewrite bind_ret.
  destruct (num_add_small_Flt h t Ht) as [both ->]. rewrite bind_ret.
  destruct (num_mul_Flt_small (lit 20 100) (py_min (Int 1) (Flt both))
              (py_min_1_small (Flt both) I)) as [c ->].
  rewrite bind_ret. eexists. reflexivity.
Qed.

Lemma client_match_of_range a b : 0 <= client_match_of a b <= 1.
Proof. unfold client_match_of. destruct (_ && _); lia. Qed.

Lemma tag_overlap_of_total (tags_ref tags_past : gset string) :
  exists t, tag_overlap_of tags_ref tags_past = Ok t /\ small t.
Proof.
  unfold tag_overlap_of. destruct (decide (tags_ref = ∅)) as [|Hne].
  - exists (Int 0). split; [reflexivity|]. simpl. split; [lia|reflexivity].
  - assert (Hpos : (0 < size tags_ref)%nat).
    { destruct (size tags_ref) eqn:E; [|lia].
      apply size_empty_iff in E. exfalso. apply Hne.
      apply leibniz_equiv. exact E. }
    assert (Hle : (size (tags_ref ∩ tags_past) <= size tags_ref)%nat).
    { apply subseteq_size, intersection_subseteq_l. }
    rewrite num_div_Int_Int by lia.
    destruct (rnd_fin_between_int
                (Z.of_nat (size (tags_ref ∩ tags_past)) * U)
                (Z.of_nat (size tags_ref)) 0 1) as (u & -> & _);
      try lia; try reflexivity.
    { pose proof U_pos. split; [nia|]. rewrite Z.mul_1_l, Z.mul_comm.
      apply Z.mul_le_mono_nonneg_l; lia. }
    eexists. split; [reflexivity|exact I].
Qed.

Lemma calculate_intensity_factor_Flt o :
  exists f, calculate_intensity_factor o = Flt f.
Proof.
  unfold calculate_intensity_factor. destruct o as [l|]; [|eauto].
  repeat match goal with
         | |- context [?x =? ?y] => destruct (x =? y)
         end; eauto.
Qed.

Lemma calculate_recency_factor_total now cp :
  well_dated cp ->
  exists f, calculate_recency_factor now (cp_end_year cp) (cp_end_month cp)
            = Ok (Flt f).
Proof.
  intros [Hm|(y & m & -> & -> & Hy & Hmo)].
  - unfold calculate_recency_factor. rewrite Hm. eauto.
  - rewrite calculate_recency_factor_valid by assumption. cbv zeta. eauto.
Qed.

Lemma recency_desc_of_total now cp :
  well_dated cp -> exists s, recency_desc_of now cp = Ok s.
Proof.
  intros [Hm|(y & m & Ey & Em & Hy & Hmo)]; unfold recency_desc_of.
  - rewrite Hm. eauto.
  - rewrite Ey, Em, !missing_Some_valid by lia. simpl orb. cbv iota.
    simpl default. rewrite months_since_valid, bind_ret by assumption.
    repeat match goal with
           | |- context [?a <=? ?b] => destruct (a <=? b)
           end; eauto.
Qed.

Section Similarity.

Variable now : Clock.
Variable client_ref : string.
Variable tags_ref : gset string.

Lemma similarity_of_total cp :
  well_dated cp -> exists s, similarity_of now client_ref tags_ref cp = Ok s.
Proof.
  intros Hd. unfold similarity_of.
  destruct (tag_overlap_of_total tags_ref
              (normalize_tags (project_domain_tags (cp_project cp))))
    as (t & -> & Ht).
  rewrite bind_ret.
  destruct (calculate_recency_factor_total now cp Hd) as [r ->].
  rewrite bind_ret.
  destruct (calculate_intensity_factor_Flt (cp_intensity_level cp)) as [i ->].
  destruct (base_similarity_total t
              (client_match_of client_ref
                 (norm_client (project_client (cp_project cp)))) Ht
              (client_match_of_range _ _)) as [b ->].
  rewrite bind_ret. eexists. reflexivity.
Qed.

Lemma similarity_of_unit cp s :
  similarity_of now client_ref tags_ref cp = Ok s -> unit_interval s.
Proof.
  unfold similarity_of. intros H.
  bind_inv H as t Et. bind_inv H as r Er. bind_inv H as b Eb.
  bind_inv H as br Ebr. bind_inv H as bri Ebri.
  injection H as <-. apply clamp_unit.
Qed.

Lemma similarity_of_dated cp s :
  similarity_of now client_ref tags_ref cp = Ok s ->
  exists d, recency_desc_of now cp = Ok d.
Proof.
  unfold similarity_of. intros H.
  bind_inv H as t Et. bind_inv H as r Er. clear H.
  unfold calculate_recency_factor in Er. unfold recency_desc_of.
  destruct (missing (cp_end_year cp) || missing (cp_end_month cp)); [eauto|].
  bind_inv Er as months Em. rewrite Em, bind_ret.
  repeat match goal with
         | |- context [?a <=? ?b] => destruct (a <=? b)
         end; eauto.
Qed.

Lemma match_info_of_total cp s :
  similarity_of now client_ref tags_ref cp = Ok s ->
  exists info, match_info_of now client_ref tags_ref cp = Ok info.
Proof.
  intros H. destruct (similarity_of_dated cp s H) as [d Hd].
  unfold match_info_of. rewrite Hd, bind_ret. eauto.
Qed.

End Similarity.

Section SimilarityLoop.

Variable now : Clock.
Variable client_ref : string.
Variable tags_ref : gset string.

Abbreviation sim_of := (similarity_of now client_ref tags_ref).
Abbreviation info_of := (match_info_of now client_ref tags_ref).
Abbreviation step := (similarity_step now client_ref tags_ref).
Abbreviation loop := (similarity_loop now client_ref tags_ref).

Lemma similarity_step_spec b0 i0 cp s :
  sim_of cp = Ok s -> unit_interval b0 ->
  (uval b0 < uval s /\
   exists info, info_of cp = Ok info /\ step (b0, i0) cp = Ok (s, Some info)) \/
  (uval s <= uval b0 /\ step (b0, i0) cp = Ok (b0, i0)).
Proof.
  intros Hs Hb. pose proof (similarity_of_unit _ _ _ _ _ Hs) as Hu.
  unfold similarity_step. rewrite Hs, bind_ret. unfold num_gtb. simpl fst.
  rewrite (unit_ltb b0 s Hb Hu).
  destruct (Z.ltb_spec (uval b0) (uval s)) as [Hlt|Hge].
  - left. split; [assumption|].
    destruct (match_info_of_total _ _ _ _ _ Hs) as [info Hi].
    exists info. rewrite Hi. auto.
  - right. auto.
Qed.

(** The loop keeps the first strict maximum: the final best value bounds
    every similarity; either nothing exceeded the initial value and the state
    is unchanged, or the state is that of the first experience reaching the
    final value. *)
Lemma similarity_loop_spec cps sims :
  Forall2 (fun cp s => sim_of cp = Ok s) cps sims ->
  forall b0 i0, unit_interval b0 ->
  exists best info,
    loop (b0, i0) cps = Ok (best, info) /\
    unit_interval best /\
    uval b0 <= uval best /\
    Forall (fun s => uval s <= uval best) sims /\
    ((best = b0 /\ info = i0) \/
     (exists (i : nat) cp info',
         cps !! i = Some cp /\ sims !! i = Some best /\
         uval b0 < uval best /\
         (forall (j : nat) s, (j < i)%nat -> sims !! j = Some s ->
                              uval s < uval best) /\
         info_of cp = Ok info' /\ info = Some info')).
Proof.
  induction 1 as [|cp s cps sims Hs _ IH]; intros b0 i0 Hb.
  - exists b0, i0. simpl. repeat split; auto. lia.
  - pose proof (similarity_of_unit _ _ _ _ _ Hs) as Hu.
    destruct (similarity_step_spec b0 i0 cp s Hs Hb)
      as [(Hlt & info1 & Hi1 & Hstep)|(Hle & Hstep)].
    + destruct (IH s (Some info1) Hu)
        as (best & info & Hloop & Hbu & Hge & Hall & Hcase).
      exists best, info. simpl. rewrite Hstep, bind_ret.
      split; [exact Hloop|]. split; [exact Hbu|]. split; [lia|].
      split; [constructor; assumption|]. right.
      destruct Hcase as [[-> ->]|(i & cpi & info' & Hc & Hsi & Hgt & Hprev & Hinfo & ->)].
      * exists 0%nat, cp, info1. repeat split; auto. intros j s' Hj. lia.
      * exists (S i), cpi, info'. repeat split; auto; [lia|].
        intros [|j] s' Hj Hl; simpl in Hl.
        -- injection Hl as <-. lia.
        -- apply (Hprev j); [lia|assumption].
    + destruct (IH b0 i0 Hb)
        as (best & info & Hloop & Hbu & Hge & Hall & Hcase).
      exists best, info. simpl. rewrite Hstep, bind_ret.
      split; [exact Hloop|]. split; [exact Hbu|]. split; [lia|].
      split; [constructor; [lia|assumption]|].
      destruct Hcase as [[-> ->]|(i & cpi & info' & Hc & Hsi & Hgt & Hprev & Hinfo & ->)].
      * left. auto.
      * right. exists (S i), cpi, info'. repeat split; auto.
        intros [|j] s' Hj Hl; simpl in Hl.
        -- injection Hl as <-. lia.
        -- apply (Hprev j); [lia|assumption].
Qed.

Lemma similarities_total cps :
  Forall well_dated cps ->
  exists sims, Forall2 (fun cp s => sim_of cp = Ok s) cps sims.
Proof.
  induction 1 as [|cp cps Hd _ (sims & IH)].
  - exists []. constructor.
  - destruct (similarity_of_total now client_ref tags_ref cp Hd) as [s Hs].
    exists (s :: sims). constructor; assumption.
Qed.

Lemma similarities_unit cps sims :
  Forall2 (fun cp s => sim_of cp = Ok s) cps sims -> Forall unit_interval sims.
Proof.
  induction 1; constructor; [|assumption].
  eapply similarity_of_unit; eassumption.
Qed.

End SimilarityLoop.

(** The score returned for a final best similarity. *)
Lemma score_of_unit best :
  unit_interval best ->
  exists score, num_mul best (Int 100) ≫= py_round = Ok score /\
                0 <= score <= 100 /\ (best = Int 1 -> score = 100).
Proof.
  pose proof U_pos.
  intros [->|[->|(u & -> & Hu)]].
  - exists 0. repeat split; [lia|lia|discriminate].
  - exists 100. repeat split; lia.
  - rewrite num_mul_Flt_100, bind_ret. simpl fmul.
    destruct (rnd_fin_between_int (u * (100 * U)) U 0 100) as (w & -> & Hw);
      try lia; try reflexivity.
    { split; [nia|]. replace (100 * U * U) with (U * (100 * U)) by lia.
      apply Z.mul_le_mono_nonneg_r; lia. }
    simpl py_round. eexists. split; [reflexivity|].
    split; [apply rhe_between; lia|discriminate].
Qed.

(** What the loop of [calculate_project_similarity] computes. *)
Lemma calculate_project_similarity_spec (now : Clock)
    (cps : list ConsultantProject) (ref : Project) :
  Forall well_dated cps ->
  let client_ref := norm_client (project_client ref) in
  let tags_ref := normalize_tags (project_domain_tags ref) in
  (forall cps', calculate_project_similarity now cps' None = Ok (0, None)) /\
  calculate_project_similarity now [] (Some ref) = Ok (0, None) /\
  exists sims best info score,
    Forall2 (fun cp s => similarity_of now client_ref tags_ref cp = Ok s)
            cps sims /\
    calculate_project_similarity now cps (Some ref) = Ok (score, info) /\
    num_mul best (Int 100) ≫= py_round = Ok score /\
    Forall (fun s => num_gtb s best = false) sims /\
    ((info = None /\ best = Int 0) \/
     (exists (i : nat) cp info',
         cps !! i = Some cp /\ sims !! i = Some best /\
         num_gtb best (Int 0) = true /\
         (forall (j : nat) s, (j < i)%nat -> sims !! j = Some s ->
                              num_ltb s best = true) /\
         match_info_of now client_ref tags_ref cp = Ok info' /\
         info = Some info')) /\
    (info = None <-> cps = [] \/ Forall (fun s => s = Int 0) sims).
Proof.
  intros Hd client_ref tags_ref.
  split; [intros cps'; reflexivity|]. split; [reflexivity|].
  destruct (similarities_total now client_ref tags_ref cps Hd) as [sims Hsims].
  pose proof (similarities_unit _ _ _ _ _ Hsims) as Hunit.
  assert (H0 : unit_interval (Int 0)) by (left; reflexivity).
  destruct (similarity_loop_spec now client_ref tags_ref cps sims Hsims
              (Int 0) None H0)
    as (best & info & Hloop & Hbu & Hge & Hall & Hcase).
  destruct (score_of_unit best Hbu) as (score & Hscore & _).
  exists sims, best, info, score.
  assert (Hcalc : calculate_project_similarity now cps (Some ref)
                  = Ok (score, info)).
  { destruct cps as [|cp0 rest].
    - simpl in Hloop. injection Hloop as <- <-.
      simpl in Hscore. injection Hscore as <-. reflexivity.
    - unfold calculate_project_similarity.
      fold client_ref tags_ref. rewrite Hloop, bind_ret.
      bind_inv Hscore as scaled Escaled.
      rewrite Escaled, bind_ret, Hscore. reflexivity. }
  assert (Hdom : Forall (fun s => num_gtb s best = false) sims).
  { rewrite Forall_forall in Hall, Hunit |- *. intros s Hin.
    unfold num_gtb. rewrite (unit_ltb best s Hbu (Hunit s Hin)).
    apply Z.ltb_ge. apply Hall, Hin. }
  split; [exact Hsims|]. split; [exact Hcalc|]. split; [exact Hscore|].
  split; [exact Hdom|].
  destruct Hcase as [[-> ->]|(i & cp & info' & Hc & Hsi & Hgt & Hprev & Hinfo & ->)].
  - split; [left; auto|]. split; [|reflexivity]. intros _. right.
    rewrite Forall_forall in Hall, Hunit |- *. intros s Hin.
    apply unit_uval_zero; [apply Hunit, Hin|]. apply (Hall s Hin).
  - assert (Hsb : best ∈ sims) by (eapply list_elem_of_lookup_2; exact Hsi).
    split.
    + right. exists i, cp, info'. repeat split; auto.
      * unfold num_gtb. rewrite (unit_ltb _ _ H0 Hbu). apply Z.ltb_lt, Hgt.
      * intros j s Hj Hl.
        assert (Hs : s ∈ sims) by (eapply list_elem_of_lookup_2; exact Hl).
        rewrite Forall_forall in Hunit.
        rewrite (unit_ltb s best (Hunit s Hs) Hbu).
        apply Z.ltb_lt. eapply Hprev; eassumption.
    + split; [discriminate|]. intros [->|Hz]; [discriminate|]. exfalso.
      rewrite Forall_forall in Hz. rewrite (Hz best Hsb) in Hgt.
      simpl in Hgt. lia.
Qed.

Lemma client_match_of_1 client_ref client_past :
  (client_match_of client_ref client_past =? 1) = true <->
  client_ref <> ""%string /\ client_past = client_ref.
Proof.
  unfold client_match_of.
  destruct (String.eqb_spec client_past ""); destruct (String.eqb_spec client_ref "");
    destruct (String.eqb_spec client_past client_ref); simpl;
    split; try discriminate; try tauto; try (intros [? ?]; congruence).
Qed.

Lemma recency_desc_of_label now cp desc :
  recency_desc_of now cp = Ok desc -> recency_label now cp desc.
Proof.
  unfold recency_desc_of, recency_label. intros H.
  destruct (missing (cp_end_year cp) || missing (cp_end_month cp)) eqn:Em.
  - injection H as <-. split; [reflexivity|].
    intros y m Ey Emo Hy Hm. rewrite Ey, Emo in Em. simpl in Em.
    apply orb_prop in Em as [E|E]; apply Z.eqb_eq in E; contradiction.
  - split; [discriminate|]. intros y m Ey Emo Hy Hm.
    rewrite Ey, Emo in H. simpl default in H.
    unfold months_since, datetime_ym in H.
    destruct ((1 <=? y) && (y <=? 9999) && (1 <=? m) && (m <=? 12));
      [|discriminate].
    rewrite !bind_ret in H. cbv zeta.
    repeat match type of H with
           | context [?a <=? ?b] => destruct (Z.leb_spec a b)
           end; injection H as <-; repeat split; intros; try reflexivity; lia.
Qed.

Lemma match_info_of_describes now ref cp info :
  match_info_of now (norm_client (project_client ref))
                (normalize_tags (project_domain_tags ref)) cp = Ok info ->
  describes now ref cp info.
Proof.
  unfold match_info_of. intros H. bind_inv H as desc Hdesc.
  injection H as <-. unfold describes. cbv zeta.
  split; [reflexivity|]. split; [reflexivity|].
  split; [apply client_match_of_1|].
  split; [reflexivity|]. split; [reflexivity|].
  split; [apply recency_desc_of_label; exact Hdesc|].
  split; reflexivity.
Qed.

(** C2: [calculate_project_similarity] returns [(0, None)] at once when the
    reference project is absent or the experience list is empty.  Otherwise
    it returns [(round(best * 100), metadata)] where [best] is the maximum
    per-experience similarity, tracked with a strict comparison so that the
    first experience reaching it wins; the metadata is absent exactly when
    there were no experiences or every similarity is 0, and otherwise it
    describes the winning experience: name and id of its project, whether
    the client matched, the number of common tags and of reference tags, the
    label of its recency bucket, its intensity and its role. *)
Theorem project_similarity_first_maximum (now : Clock)
    (cps : list ConsultantProject) (ref : Project) :
  Forall well_dated cps ->
  let client_ref := norm_client (project_client ref) in
  let tags_ref := normalize_tags (project_domain_tags ref) in
  (forall cps', calculate_project_similarity now cps' None = Ok (0, None)) /\
  calculate_project_similarity now [] (Some ref) = Ok (0, None) /\
  exists sims best info score,
    Forall2 (fun cp s => similarity_of now client_ref tags_ref cp = Ok s)
            cps sims /\
    calculate_project_similarity now cps (Some ref) = Ok (score, info) /\
    num_mul best (Int 100) ≫= py_round = Ok score /\
    Forall (fun s => num_gtb s best = false) sims /\
    ((info = None /\ best = Int 0) \/
     (exists (i : nat) cp info',
         cps !! i = Some cp /\ sims !! i = Some best /\
         num_gtb best (Int 0) = true /\
         (forall (j : nat) s, (j < i)%nat -> sims !! j = Some s ->
                              num_ltb s best = true) /\
         describes now ref cp info' /\
         info = Some info')) /\
    (info = None <-> cps = [] \/ Forall (fun s => s = Int 0) sims).
Proof.
  intros Hd client_ref tags_ref.
  destruct (calculate_project_similarity_spec now cps ref Hd)
    as (H1 & H2 & sims & best & info & score & Hsims & Hc & Hscore & Hdom
        & Hcase & Hnone).
  split; [exact H1|]. split; [exact H2|].
  exists sims, best, info, score. repeat (split; [assumption|]).
  split; [|exact Hnone].
  destruct Hcase as [Hz|(i & cp & info' & Hi & Hsi & Hgt & Hprev & Hinfo & E)];
    [left; exact Hz|right].
  exists i, cp, info'. repeat (split; [assumption|]).
  split; [|exact E]. apply match_info_of_describes, Hinfo.
Qed.

Lemma well_dated_missing cp :
  missing (cp_end_year cp) || missing (cp_end_month cp) = true -> well_dated cp.
Proof. intros H. left. exact H. Qed.

Lemma well_dated_given cp y m :
  cp_end_year cp = Some y -> cp_end_month cp = Some m ->
  1 <= y <= 9999 -> 1 <= m <= 12 -> well_dated cp.
Proof. intros. right. exists y, m. auto. Qed.

(** C7: an experience on a project with the reference's client (compared
    case-insensitively, both non-empty) and with every reference tag, ended
    within the last month, at intensity 5, gives similarity score 100: the
    tag overlap, the base similarity and both factors are 1.0. *)
Theorem full_match_scores_100 (now : Clock) (cps : list ConsultantProject)
    (ref : Project) (cp : ConsultantProject) (y m : Z) :
  let client_ref := norm_client (project_client ref) in
  let tags_ref := normalize_tags (project_domain_tags ref) in
  let tags_past := normalize_tags (project_domain_tags (cp_project cp)) in
  Forall well_dated cps -> cp ∈ cps ->
  client_ref <> ""%string ->
  norm_client (project_client (cp_project cp)) = client_ref ->
  tags_ref <> ∅ -> tags_ref ⊆ tags_past ->
  cp_end_year cp = Some y -> cp_end_month cp = Some m ->
  1 <= y <= 9999 -> 1 <= m <= 12 ->
  0 <= (now_year now - y) * 12 + (now_month now - m) <= 1 ->
  cp_intensity_level cp = Some 5 ->
  tag_overlap_of tags_ref tags_past = Ok (Flt (lit 1 1)) /\
  base_similarity (Flt (lit 1 1)) 1 = Ok (Flt (lit 1 1)) /\
  calculate_recency_factor now (cp_end_year cp) (cp_end_month cp)
    = Ok (Flt (lit 1 1)) /\
  calculate_intensity_factor (cp_intensity_level cp) = Flt (lit 100 100) /\
  lit 100 100 = lit 1 1 /\
  exists info, calculate_project_similarity now cps (Some ref)
               = Ok (100, Some info).
Proof.
  intros client_ref tags_ref tags_past Hd Hin Hne Hcl Htne Hsub Ey Em Hy Hm
         Hmonths Hint.
  assert (Htag : tag_overlap_of tags_ref tags_past = Ok (Flt (lit 1 1))).
  { unfold tag_overlap_of. destruct (decide (tags_ref = ∅)); [contradiction|].
    rewrite (subseteq_intersection_1_L _ _ Hsub).
    assert (Hpos : (0 < size tags_ref)%nat).
    { destruct (size tags_ref) eqn:E; [|lia].
      apply size_empty_iff in E. exfalso. apply Htne.
      apply leibniz_equiv. exact E. }
    rewrite num_div_Int_Int by lia.
    replace (Z.of_nat (size tags_ref) * U)
      with (1 * U * Z.of_nat (size tags_ref)) by lia.
    rewrite rnd_int by (first [lia|split; [lia|reflexivity]]).
    rewrite lit_1, Z.mul_1_l. reflexivity. }
  assert (Hbase : base_similarity (Flt (lit 1 1)) 1 = Ok (Flt (lit 1 1)))
    by (vm_compute; reflexivity).
  assert (Hrec : calculate_recency_factor now (cp_end_year cp) (cp_end_month cp)
                 = Ok (Flt (lit 1 1))).
  { rewrite Ey, Em, calculate_recency_factor_valid by assumption. cbv zeta.
    destruct (Z.leb_spec ((now_year now - y) * 12 + (now_month now - m)) 6);
      [reflexivity|lia]. }
  assert (Hif : calculate_intensity_factor (cp_intensity_level cp)
                = Flt (lit 100 100)) by (rewrite Hint; reflexivity).
  assert (Hone : lit 100 100 = lit 1 1) by (vm_compute; reflexivity).
  do 5 (split; [assumption|]).
  assert (Hsim : similarity_of now client_ref tags_ref cp = Ok (Int 1)).
  { unfold similarity_of. fold tags_past. rewrite Htag, bind_ret, Hrec, bind_ret.
    rewrite Hif, Hcl.
    assert (Hcm : client_match_of client_ref client_ref = 1).
    { unfold client_match_of. rewrite String.eqb_refl.
      destruct (String.eqb_spec client_ref ""); [contradiction|reflexivity]. }
    rewrite Hcm, Hbase, bind_ret. vm_compute. reflexivity. }
  destruct (calculate_project_similarity_spec now cps ref Hd)
    as (_ & _ & sims & best & info & score & Hsims & Hc & Hscore & Hdom & Hcase & _).
  fold client_ref tags_ref in Hsims, Hcase.
  pose proof (similarities_unit _ _ _ _ _ Hsims) as Hunit.
  assert (Hs1 : Int 1 ∈ sims).
  { clear -Hsims Hin Hsim. induction Hsims as [|c s cs ss Hcs _ IH].
    - inversion Hin.
    - apply elem_of_cons in Hin as [->|Hin].
      + rewrite Hsim in Hcs. injection Hcs as <-. left.
      + right. apply IH, Hin. }
  assert (Hbest : best = Int 1).
  { destruct Hcase as [[_ ->]|(i & c & info' & _ & Hsi & _)].
    - rewrite Forall_forall in Hdom. specialize (Hdom _ Hs1).
      vm_compute in Hdom. discriminate.
    - assert (Hb : best ∈ sims) by (eapply list_elem_of_lookup_2; exact Hsi).
      rewrite Forall_forall in Hdom, Hunit.
      specialize (Hdom _ Hs1). unfold num_gtb in Hdom.
      rewrite (unit_ltb best (Int 1) (Hunit _ Hb) (Hunit _ Hs1)) in Hdom.
      apply Z.ltb_ge in Hdom. apply unit_uval_one; [apply Hunit, Hb|].
      simpl in Hdom. lia. }
  subst best. simpl in Hscore. injection Hscore as <-.
  destruct Hcase as [[_ Hb]|(i & c & info' & _ & _ & _ & _ & _ & ->)];
    [discriminate|]. eauto.
Qed.

End ProjectSimilarity.

Lemma project_similarity_first_maximum_witness :
  let cps := [experience example_past (Some 3) (Some 2025) (Some 4);
              experience example_same (Some 10) (Some 2026) (Some 5);
              experience example_same (Some 11) (Some 2026) (Some 5)] in
  exists score info,
    calculate_project_similarity example_clock cps (Some example_reference)
    = Ok (score, Some info) /\
    score = 100 /\
    bm_project_id info = 4 /\
    bm_project_name info = "Internal - AI Bootcamp"%string /\
    bm_client_match info = true /\
    bm_common_tags info = 2 /\ bm_total_ref_tags info = 2 /\
    bm_recency_desc info = "Ultimo semestre"%string /\
    bm_intensity info = Some 5 /\
    exists (i : nat) cp,
      cps !! i = Some cp /\
      describes example_clock example_reference cp info.
Proof.
  intros cps.
  eassert (H : calculate_project_similarity example_clock cps
                 (Some example_reference) = Ok (_, Some _))
    by (vm_compute; reflexivity).
  destruct (project_similarity_first_maximum example_clock cps
              example_reference)
    as (_ & _ & sims & best & info & score & Hsims & Hc & _ & _ & Hcase & _).
  - constructor; [|constructor; [|constructor; [|constructor]]].
    + apply (well_dated_given _ 2025 3); [reflexivity|reflexivity|lia|lia].
    + apply (well_dated_given _ 2026 10); [reflexivity|reflexivity|lia|lia].
    + apply (well_dated_given _ 2026 11); [reflexivity|reflexivity|lia|lia].
  - rewrite H in Hc. injection Hc as <- <-.
    destruct Hcase as [[Hn _]|(i & cp & info' & Hi & _ & _ & _ & Hdesc & E)];
      [discriminate|].
    injection E as <-.
    do 2 eexists. split; [exact H|].
    do 8 (split; [reflexivity|]).
    exists i, cp. split; [exact Hi|exact Hdesc].
Defined.

Lemma full_match_scores_100_witness :
  exists info,
    calculate_project_similarity example_clock
      [experience example_past (Some 3) (Some 2025) (Some 4);
       experience example_same (Some 10) (Some 2026) (Some 5)]
      (Some example_reference) = Ok (100, Some info).
Proof.
  apply (full_match_scores_100 example_clock
           [experience example_past (Some 3) (Some 2025) (Some 4);
            experience example_same (Some 10) (Some 2026) (Some 5)]
           example_reference
           (experience example_same (Some 10) (Some 2026) (Some 5)) 2026 10).
  - constructor; [|constructor; [|constructor]].
    + apply (well_dated_given _ 2025 3); [reflexivity|reflexivity|lia|lia].
    + apply (well_dated_given _ 2026 10); [reflexivity|reflexivity|lia|lia].
  - right. left.
  - vm_compute. discriminate.
  - vm_compute. reflexivity.
  - apply (bool_decide_unpack _). vm_compute. exact I.
  - apply (bool_decide_unpack _). vm_compute. exact I.
  - reflexivity.
  - reflexivity.
  - lia.
  - lia.
  - simpl. lia.
  - reflexivity.
Defined.

(** ** Ranges *)

Section Ranges.

Context {text : Text}.

Lemma weights_fin :
  (exists c, lit 55 100 = Fin c /\ 0 < c) /\
  (exists c, lit 30 100 = Fin c /\ 0 < c) /\
  (exists c, lit 15 100 = Fin c /\ 0 < c) /\
  (exists c, lit 65 100 = Fin c /\ 0 < c) /\
  (exists c, lit 35 100 = Fin c /\ 0 < c).
Proof. repeat split; fin_const. Qed.

Lemma small_percent z : 0 <= z <= 100 -> 0 <= z < 2 ^ 53.
Proof.
  intros H. split; [lia|]. eapply Z.le_lt_trans; [apply H|reflexivity].
Qed.

Lemma calculate_final_score_Some sf av pe :
  0 <= sf <= 100 -> 0 <= av <= 100 -> 0 <= pe <= 100 ->
  calculate_final_score sf av (Some pe) = py_round (Flt (final3 sf av pe)).
Proof.
  intros Hsf Hav Hpe. unfold calculate_final_score, final3.
  rewrite !of_Z_exact by (apply small_percent; assumption).
  rewrite (num_mul_Flt_Int_eq sf (sf * U)), bind_ret
    by (apply of_Z_exact, small_percent; assumption).
  rewrite (num_mul_Flt_Int_eq av (av * U)), bind_ret
    by (apply of_Z_exact, small_percent; assumption).
  rewrite num_add_Flt_Flt, bind_ret.
  rewrite (num_mul_Flt_Int_eq pe (pe * U)), bind_ret
    by (apply of_Z_exact, small_percent; assumption).
  reflexivity.
Qed.

Lemma calculate_final_score_None sf av :
  0 <= sf <= 100 -> 0 <= av <= 100 ->
  calculate_final_score sf av None = py_round (Flt (final2 sf av)).
Proof.
  intros Hsf Hav. unfold calculate_final_score, final2.
  rewrite !of_Z_exact by (apply small_percent; assumption).
  rewrite (num_mul_Flt_Int_eq sf (sf * U)), bind_ret
    by (apply of_Z_exact, small_percent; assumption).
  rewrite (num_mul_Flt_Int_eq av (av * U)), bind_ret
    by (apply of_Z_exact, small_percent; assumption).
  reflexivity.
Qed.

Lemma weighted_mono c x y :
  0 < c -> 0 <= x <= y ->
  fnonneg (fmul (Fin c) (of_Z x)) /\
  fle (fmul (Fin c) (of_Z x)) (fmul (Fin c) (of_Z y)).
Proof.
  intros Hc Hxy. split.
  - rewrite fmul_comm. apply fmul_nonneg; [apply of_Z_nonneg; lia|assumption].
  - apply fmul_mono_l; [assumption|apply of_Z_nonneg; lia|apply of_Z_mono; lia].
Qed.

Lemma final3_mono sf av pe sf' av' pe' :
  0 <= sf <= sf' -> 0 <= av <= av' -> 0 <= pe <= pe' ->
  fnonneg (final3 sf av pe) /\ fle (final3 sf av pe) (final3 sf' av' pe').
Proof.
  intros Hsf Hav Hpe. unfold final3.
  destruct weights_fin as ((c1 & -> & H1) & (c2 & -> & H2) & (c3 & -> & H3) & _).
  destruct (weighted_mono c1 sf sf' H1 Hsf) as [N1 M1].
  destruct (weighted_mono c2 av av' H2 Hav) as [N2 M2].
  destruct (weighted_mono c3 pe pe' H3 Hpe) as [N3 M3].
  split.
  - apply fadd_nonneg; [apply fadd_nonneg|]; assumption.
  - apply fadd_mono; try assumption; [apply fadd_nonneg|apply fadd_mono];
      assumption.
Qed.

Lemma final2_mono sf av sf' av' :
  0 <= sf <= sf' -> 0 <= av <= av' ->
  fnonneg (final2 sf av) /\ fle (final2 sf av) (final2 sf' av').
Proof.
  intros Hsf Hav. unfold final2.
  destruct weights_fin as (_ & _ & _ & (c1 & -> & H1) & (c2 & -> & H2)).
  destruct (weighted_mono c1 sf sf' H1 Hsf) as [N1 M1].
  destruct (weighted_mono c2 av av' H2 Hav) as [N2 M2].
  split; [apply fadd_nonneg|apply fadd_mono]; assumption.
Qed.

Lemma round_fin_inv f r :
  round_fin f = Some r -> exists u, f = Fin u /\ rhe u U = r.
Proof.
  destruct f as [u| | |]; simpl; intros H; inversion H. eauto.
Qed.

Lemma final3_top : round_fin (final3 100 100 100) = Some 100.
Proof. vm_compute. reflexivity. Qed.

Lemma final2_top : round_fin (final2 100 100) = Some 100.
Proof. vm_compute. reflexivity. Qed.

Lemma final_top :
  (exists u, final3 100 100 100 = Fin u /\ rhe u U = 100) /\
  (exists u, final2 100 100 = Fin u /\ rhe u U = 100).
Proof.
  split; apply round_fin_inv; [exact final3_top|exact final2_top].
Qed.

Lemma round_between f top :
  fnonneg f -> fle f (Fin top) -> rhe top U = 100 ->
  exists r, py_round (Flt f) = Ok r /\ 0 <= r <= 100.
Proof.
  intros Hn Hle Htop. pose proof U_pos.
  destruct (fnonneg_le_fin f top Hn Hle) as (u & -> & Hu).
  simpl. eexists. split; [reflexivity|]. split.
  - apply rhe_ge; lia.
  - rewrite <- Htop. apply rhe_mono; nia.
Qed.

Lemma calculate_final_score_range sf av pe :
  0 <= sf <= 100 -> 0 <= av <= 100 ->
  (forall p, pe = Some p -> 0 <= p <= 100) ->
  exists r, calculate_final_score sf av pe = Ok r /\ 0 <= r <= 100.
Proof.
  intros Hsf Hav Hpe.
  destruct final_top as [(u3 & E3 & R3) (u2 & E2 & R2)].
  destruct pe as [p|].
  - specialize (Hpe p eq_refl).
    rewrite calculate_final_score_Some by assumption.
    destruct (final3_mono sf av p 100 100 100) as [Hn Hle]; try lia.
    rewrite E3 in Hle. eapply round_between; eassumption.
  - rewrite calculate_final_score_None by assumption.
    destruct (final2_mono sf av 100 100) as [Hn Hle]; try lia.
    rewrite E2 in Hle. eapply round_between; eassumption.
Qed.

Lemma calculate_project_similarity_range now cps ref :
  Forall well_dated cps ->
  exists score info,
    calculate_project_similarity now cps ref = Ok (score, info) /\
    0 <= score <= 100.
Proof.
  intros Hd. destruct ref as [ref|]; [|exists 0, None; split; [reflexivity|lia]].
  destruct (calculate_project_similarity_spec now cps ref Hd)
    as (_ & _ & sims & best & info & score & Hsims & Hc & Hscore & Hdom & Hcase & _).
  exists score, info. split; [exact Hc|].
  assert (Hb : unit_interval best).
  { destruct Hcase as [[_ ->]|(i & c & info' & _ & Hsi & _)]; [left; reflexivity|].
    pose proof (similarities_unit _ _ _ _ _ Hsims) as Hunit.
    rewrite Forall_forall in Hunit. apply Hunit.
    eapply list_elem_of_lookup_2; exact Hsi. }
  destruct (score_of_unit best Hb) as (score' & Hs' & Hr & _).
  rewrite Hscore in Hs'. injection Hs' as <-. exact Hr.
Qed.

(** C9: under the data-model preconditions (consultant skill levels in 0-5,
    required levels in 1-5, availability and the other percentages in 0-100,
    end dates that are dates) the skill fit, the project-similarity score and
    the final score are integers between 0 and 100. *)
Theorem scores_in_range (d : gmap Z Z) (required_skills : list (Z * Z))
    (now : Clock) (cps : list ConsultantProject) (ref : option Project)
    (skill_fit availability : Z) (project_experience : option Z) :
  (forall k v, d !! k = Some v -> 0 <= v <= 5) ->
  Forall (fun req => 1 <= req.2 <= 5) required_skills ->
  Z.of_nat (length required_skills) < 2 ^ 53 ->
  Forall well_dated cps ->
  0 <= skill_fit <= 100 -> 0 <= availability <= 100 ->
  (forall p, project_experience = Some p -> 0 <= p <= 100) ->
  (exists r, calculate_skill_fit d required_skills = Ok r /\ 0 <= r <= 100) /\
  (exists score info,
      calculate_project_similarity now cps ref = Ok (score, info) /\
      0 <= score <= 100) /\
  (exists r, calculate_final_score skill_fit availability project_experience
             = Ok r /\ 0 <= r <= 100).
Proof.
  intros Hlev Hreq Hlen Hd Hsf Hav Hpe. split; [|split].
  - destruct required_skills as [|r0 rest] eqn:E.
    { exists 100. split; [reflexivity|lia]. }
    rewrite <- E in *.
    destruct (calculate_skill_fit_range 0 ltac:(lia) d required_skills)
      as (r & Hr & Hrange); [subst; discriminate| |assumption|].
    + eapply Forall_impl; [exact Hreq|]. intros [id lvl] _.
      unfold requirement_ok. simpl. split; [|lia].
      destruct (d !! id) as [v|] eqn:Ev; simpl.
      * specialize (Hlev id v Ev). split; [lia|].
        eapply Z.le_trans; [apply Hlev|]. discriminate.
      * split; [lia|discriminate].
    + exists r. split; [exact Hr|lia].
  - apply calculate_project_similarity_range. assumption.
  - apply calculate_final_score_range; assumption.
Qed.

End Ranges.

Lemma scores_in_range_witness :
  (exists r, calculate_skill_fit (<[1 := 3]> (<[2 := 5]> ∅))
               [(1, 5); (2, 4); (3, 1)] = Ok r /\ 0 <= r <= 100) /\
  (exists score info,
      calculate_project_similarity example_clock
        [experience example_past (Some 3) (Some 2025) (Some 4)]
        (Some example_reference) = Ok (score, info) /\ 0 <= score <= 100) /\
  (exists r, calculate_final_score 80 60 (Some 40) = Ok r /\ 0 <= r <= 100).
Proof.
  apply (scores_in_range (<[1 := 3]> (<[2 := 5]> ∅)) [(1, 5); (2, 4); (3, 1)]
           example_clock
           [experience example_past (Some 3) (Some 2025) (Some 4)]
           (Some example_reference) 80 60 (Some 40)).
  - intros k v H.
    apply lookup_insert_Some in H as [[_ <-]|[_ H]]; [lia|].
    apply lookup_insert_Some in H as [[_ <-]|[_ H]]; [lia|].
    rewrite lookup_empty in H. discriminate.
  - repeat constructor; simpl; lia.
  - reflexivity.
  - constructor; [|constructor].
    apply (well_dated_given _ 2025 3); [reflexivity|reflexivity|lia|lia].
  - lia.
  - lia.
  - intros p H. injection H as <-. lia.
Defined.

(** ** Further properties of the workload score *)

Section WorkloadRange.

Context {text : Text}.

Lemma workload_scaled_23 : round_fin (workload_scaled 23 0) = Some 100.
Proof. vm_compute. reflexivity. Qed.

Lemma workload_scaled_day : round_fin (workload_scaled 1 0) = Some 4.
Proof. vm_compute. reflexivity. Qed.

Lemma workload_scaled_load : round_fin (workload_scaled 0 1) = Some 1.
Proof. vm_compute. reflexivity. Qed.

Lemma workload_scaled_idle : round_fin (workload_scaled 0 0) = Some 0.
Proof. vm_compute. reflexivity. Qed.

(** Rounding a finite float that lies above another one. *)
Lemma round_fin_above wd pl wd' pl' u lo :
  0 <= wd <= wd' -> 0 <= pl <= pl' ->
  round_fin (workload_scaled wd pl) = Some lo ->
  workload_scaled wd' pl' = Fin u -> lo <= rhe u U.
Proof.
  intros Hwd Hpl Hlo Hu.
  apply round_fin_inv in Hlo as (v & Hv & <-).
  pose proof (workload_scaled_mono wd pl wd' pl' Hwd Hpl) as Hle.
  rewrite Hv, Hu in Hle. simpl in Hle. pose proof U_pos.
  apply rhe_mono; nia.
Qed.

(** Both percentages of a returned record lie between 0 and 100, and the
    record carries the clamped inputs. *)
Theorem workload_percent_range (work_days0 perceived_load0 : pyval) r :
  calculate_workload_score work_days0 perceived_load0 = Ok r ->
  0 <= workload_percent r <= 100 /\ 0 <= availability_percent r <= 100 /\
  0 <= work_days r /\ 0 <= perceived_load r <= 10.
Proof.
  intros H. apply calculate_workload_score_inv in H.
  destruct H as (wd & pl & u & _ & _ & Ew & Ep & Es & Ewp & Ea).
  assert (Hw : 0 <= work_days r) by lia.
  assert (Hp : 0 <= perceived_load r <= 10) by lia.
  pose proof (round_fin_above 0 0 (work_days r) (perceived_load r) u 0 ltac:(lia) ltac:(lia)
                workload_scaled_idle Es) as H0.
  lia.
Qed.

(** From 23 work days on the workload is 100 percent whatever the perceived
    load: the availability is 0. *)
Theorem workload_saturates (work_days0 perceived_load0 : pyval) r :
  calculate_workload_score work_days0 perceived_load0 = Ok r ->
  23 <= work_days r ->
  workload_percent r = 100 /\ availability_percent r = 0.
Proof.
  intros H Hd. apply calculate_workload_score_inv in H.
  destruct H as (wd & pl & u & _ & _ & Ew & Ep & Es & Ewp & Ea).
  pose proof (round_fin_above 23 0 (work_days r) (perceived_load r) u 100 ltac:(lia) ltac:(lia)
                workload_scaled_23 Es) as H0.
  lia.
Qed.

(** A returned record shows full availability exactly when the month has no
    work days and no perceived load. *)
Theorem fully_available_iff_idle (work_days0 perceived_load0 : pyval) r :
  calculate_workload_score work_days0 perceived_load0 = Ok r ->
  (availability_percent r = 100 <-> work_days r = 0 /\ perceived_load r = 0).
Proof.
  intros H. apply calculate_workload_score_inv in H.
  destruct H as (wd & pl & u & _ & _ & Ew & Ep & Es & Ewp & Ea).
  assert (Hw : 0 <= work_days r) by lia.
  assert (Hp : 0 <= perceived_load r <= 10) by lia.
  split.
  - intros Hav.
    destruct (Z.eq_dec (work_days r) 0) as [E0|N0].
    + split; [assumption|].
      destruct (Z.eq_dec (perceived_load r) 0) as [|N1]; [assumption|exfalso].
      pose proof (round_fin_above 0 1 (work_days r) (perceived_load r) u 1 ltac:(lia) ltac:(lia)
                    workload_scaled_load Es). lia.
    + exfalso.
      pose proof (round_fin_above 1 0 (work_days r) (perceived_load r) u 4 ltac:(lia) ltac:(lia)
                    workload_scaled_day Es). lia.
  - intros [E0 E1]. rewrite E0, E1 in Es.
    pose proof workload_scaled_idle as Hz. rewrite Es in Hz.
    simpl in Hz. injection Hz as Hz. lia.
Qed.

(** Inputs beyond the bounds count as the bound, and [None] counts as 0:
    negative work days are 0 days, a perceived load above 10 is 10. *)
Theorem workload_inputs_clamped (wd pl : Z) (v : pyval) :
  calculate_workload_score (VInt wd) (VInt pl)
    = calculate_workload_score (VInt (Z.max 0 wd)) (VInt (Z.max 0 (Z.min 10 pl)))
  /\ calculate_workload_score VNone v = calculate_workload_score (VInt 0) v
  /\ calculate_workload_score v VNone = calculate_workload_score v (VInt 0).
Proof.
  split; [|split; reflexivity].
  unfold calculate_workload_score.
  rewrite !py_int_or_VInt, !bind_ret.
  replace (Z.max 0 (Z.max 0 wd)) with (Z.max 0 wd) by lia.
  replace (Z.max 0 (Z.min 10 (Z.max 0 (Z.min 10 pl))))
    with (Z.max 0 (Z.min 10 pl)) by lia.
  reflexivity.
Qed.

End WorkloadRange.

Lemma workload_percent_range_witness :
  exists r, calculate_workload_score (VInt 40) (VInt (-3)) = Ok r /\
            0 <= workload_percent r <= 100 /\
            work_days r = 40 /\ perceived_load r = 0.
Proof.
  eexists. split; [vm_compute; reflexivity|].
  split; [|split; reflexivity].
  apply (workload_percent_range (VInt 40) (VInt (-3))). vm_compute; reflexivity.
Defined.

Lemma workload_saturates_witness :
  exists r, calculate_workload_score (VInt 23) VNone = Ok r /\
            workload_percent r = 100 /\ availability_percent r = 0.
Proof.
  eexists. split; [vm_compute; reflexivity|].
  apply (workload_saturates (VInt 23) VNone); vm_compute; [reflexivity|].
  discriminate.
Defined.

Lemma fully_available_iff_idle_witness :
  exists r, calculate_workload_score (VInt 0) (VInt 1) = Ok r /\
            availability_percent r = 99 /\
            (availability_percent r = 100 <->
             work_days r = 0 /\ perceived_load r = 0).
Proof.
  eexists. split; [vm_compute; reflexivity|]. split; [reflexivity|].
  apply (fully_available_iff_idle (VInt 0) (VInt 1)). vm_compute; reflexivity.
Defined.

(** ** Monotonicity of the final score *)

Lemma final3_fin sf av pe :
  0 <= sf <= 100 -> 0 <= av <= 100 -> 0 <= pe <= 100 ->
  exists u, final3 sf av pe = Fin u.
Proof.
  intros Hsf Hav Hpe. destruct final_top as [(u3 & E3 & _) _].
  destruct (final3_mono sf av pe 100 100 100) as [Hn Hle]; try lia.
  rewrite E3 in Hle. destruct (fnonneg_le_fin _ _ Hn Hle) as (u & Hu & _).
  eauto.
Qed.

Lemma final2_fin sf av :
  0 <= sf <= 100 -> 0 <= av <= 100 -> exists u, final2 sf av = Fin u.
Proof.
  intros Hsf Hav. destruct final_top as [_ (u2 & E2 & _)].
  destruct (final2_mono sf av 100 100) as [Hn Hle]; try lia.
  rewrite E2 in Hle. destruct (fnonneg_le_fin _ _ Hn Hle) as (u & Hu & _).
  eauto.
Qed.

(** The final score never decreases when the skill fit, the availability or
    the project experience increases (all between 0 and 100), with either
    formula. *)
Theorem final_score_monotone (sf av pe sf' av' pe' : Z) :
  0 <= sf <= sf' -> sf' <= 100 -> 0 <= av <= av' -> av' <= 100 ->
  0 <= pe <= pe' -> pe' <= 100 ->
  (exists r r', calculate_final_score sf av (Some pe) = Ok r /\
                calculate_final_score sf' av' (Some pe') = Ok r' /\ r <= r') /\
  (exists r r', calculate_final_score sf av None = Ok r /\
                calculate_final_score sf' av' None = Ok r' /\ r <= r').
Proof.
  intros Hsf Hsf' Hav Hav' Hpe Hpe'. pose proof U_pos. split.
  - rewrite !calculate_final_score_Some by lia.
    destruct (final3_fin sf av pe) as [u Hu]; try lia.
    destruct (final3_fin sf' av' pe') as [u' Hu']; try lia.
    destruct (final3_mono sf av pe sf' av' pe') as [_ Hle]; try lia.
    rewrite Hu, Hu' in *. simpl in Hle.
    exists (rhe u U), (rhe u' U). repeat split. apply rhe_mono; nia.
  - rewrite !calculate_final_score_None by lia.
    destruct (final2_fin sf av) as [u Hu]; try lia.
    destruct (final2_fin sf' av') as [u' Hu']; try lia.
    destruct (final2_mono sf av sf' av') as [_ Hle]; try lia.
    rewrite Hu, Hu' in *. simpl in Hle.
    exists (rhe u U), (rhe u' U). repeat split. apply rhe_mono; nia.
Qed.

Lemma final_score_monotone_witness :
  (exists r r', calculate_final_score 80 60 (Some 40) = Ok r /\
                calculate_final_score 81 60 (Some 70) = Ok r' /\ r <= r') /\
  (exists r r', calculate_final_score 80 60 None = Ok r /\
                calculate_final_score 81 60 None = Ok r' /\ r <= r').
Proof.
  apply (final_score_monotone 80 60 40 81 60 70); lia.
Defined.

(** ** Further properties of [safe_int] and of the form validation *)

Section FormValidation.

Context {text : Text}.

(** With both bounds given, [lo <= hi], whatever [safe_int] returns lies
    within the bounds, also when the default itself does not; an integer
    already within the bounds is returned unchanged. *)
Theorem safe_int_within_bounds (value : pyval) (fallback : option Z)
    (lo hi : Z) :
  lo <= hi ->
  (forall r, safe_int value fallback (Some lo) (Some hi) = Ok r ->
             exists z, r = Some z /\ lo <= z <= hi) /\
  (forall z, lo <= z <= hi ->
             safe_int (VInt z) fallback (Some lo) (Some hi) = Ok (Some z)).
Proof.
  intros Hle. split.
  - intros r H. unfold safe_int in H.
    bind_inv H as r0 E0. bind_inv H as r1 E1.
    destruct r0 as [z0|]; [|discriminate].
    injection E1 as <-. injection H as <-.
    eexists. split; [reflexivity|lia].
  - intros z Hz. unfold safe_int. simpl. do 2 f_equal. lia.
Qed.

(** With default [None], a value that does not convert gives [None] when no
    bound is passed, and raises [TypeError] as soon as a bound is passed
    (the bound is compared with [None]). *)
Theorem safe_int_none_default (value : pyval) (lo hi : option Z) (bound : Z) :
  py_int value = Raise ValueError \/ py_int value = Raise TypeError ->
  safe_int value None None None = Ok None /\
  safe_int value None (Some bound) hi = Raise TypeError /\
  safe_int value None None (Some bound) = Raise TypeError.
Proof.
  intros H. unfold safe_int. destruct H as [-> | ->]; repeat split.
Qed.

Lemma safe_int_form_value v :
  form_value v -> safe_int v None None None = Ok (converted v).
Proof.
  unfold safe_int, converted.
  destruct v as [| | |s]; simpl; try contradiction; intros _; [reflexivity|].
  destruct (int_of_string s); reflexivity.
Qed.

Lemma keep_within_spec lo hi v : absent_or_within lo hi (keep_within lo hi v).
Proof.
  destruct v as [z|]; simpl; [|exact I].
  destruct (Z.ltb_spec z lo); simpl; [exact I|].
  destruct (Z.ltb_spec hi z); simpl; [exact I|lia].
Qed.

(** The fields read from an experience row of the form are always accepted:
    the months kept are in 1..12 and the intensity kept is in 1..5 (values
    outside are dropped), while the years are stored as converted, with no
    check. *)
Theorem experience_fields_validated
    (start_month start_year end_month end_year intensity : pyval) :
  form_value start_month -> form_value start_year ->
  form_value end_month -> form_value end_year -> form_value intensity ->
  exists f,
    read_experience_fields start_month start_year end_month end_year intensity
      = Ok f /\
    absent_or_within 1 12 (ef_start_month f) /\
    absent_or_within 1 12 (ef_end_month f) /\
    absent_or_within 1 5 (ef_intensity f) /\
    ef_end_month f = keep_within 1 12 (converted end_month) /\
    ef_start_year f = converted start_year /\
    ef_end_year f = converted end_year.
Proof.
  intros H1 H2 H3 H4 H5. unfold read_experience_fields.
  rewrite !safe_int_form_value by assumption. rewrite !bind_ret.
  eexists. split; [reflexivity|]. simpl.
  repeat split; apply keep_within_spec.
Qed.

End FormValidation.

Lemma safe_int_within_bounds_witness :
  (forall r, safe_int (VStr "12") (Some 99) (Some 1) (Some 5) = Ok r ->
             exists z, r = Some z /\ 1 <= z <= 5) /\
  (forall z, 1 <= z <= 5 ->
             safe_int (VInt z) (Some 99) (Some 1) (Some 5) = Ok (Some z)).
Proof. exact (safe_int_within_bounds (VStr "12") (Some 99) 1 5 ltac:(lia)). Defined.

Lemma safe_int_none_default_witness :
  safe_int (VStr "abc") None None None = Ok None /\
  safe_int (VStr "abc") None (Some 1) (Some 12) = Raise TypeError /\
  safe_int (VStr "abc") None None (Some 12) = Raise TypeError.
Proof.
  exact (safe_int_none_default (VStr "abc") None (Some 12) _
           (or_introl eq_refl)).
Defined.

Lemma experience_fields_validated_witness :
  exists f,
    read_experience_fields (VStr "13") VNone (VStr "7") (VStr "2024") (VStr "9")
      = Ok f /\
    ef_start_month f = None /\ ef_end_month f = Some 7 /\
    ef_end_year f = Some 2024 /\ ef_intensity f = None.
Proof.
  destruct (experience_fields_validated
              (VStr "13") VNone (VStr "7") (VStr "2024") (VStr "9") I I I I I)
    as (f & Hf & _).
  exists f. split; [exact Hf|].
  vm_compute in Hf. injection Hf as <-. repeat split.
Defined.

(** ** End dates that are no dates *)

Section IllDated.

Context {text : Text}.

Lemma dated_cases cp : well_dated cp \/ ill_dated cp.
Proof.
  unfold well_dated, ill_dated.
  destruct (cp_end_year cp) as [y|]; [|left; left; reflexivity].
  destruct (cp_end_month cp) as [m|];
    [|left; left; simpl; apply orb_true_r].
  destruct (Z.eq_dec y 0) as [->|Hy]; [left; left; reflexivity|].
  destruct (Z.eq_dec m 0) as [->|Hm];
    [left; left; simpl; apply orb_true_r|].
  destruct (decide (1 <= y <= 9999 /\ 1 <= m <= 12)) as [Hr|Hr].
  - left. right. exists y, m. tauto.
  - right. exists y, m. tauto.
Qed.

Lemma all_dated_cases cps : Forall well_dated cps \/ Exists ill_dated cps.
Proof.
  induction cps as [|cp cps [IH|IH]].
  - left. constructor.
  - destruct (dated_cases cp) as [H|H].
    + left. constructor; assumption.
    + right. constructor 1. exact H.
  - right. constructor 2. exact IH.
Qed.

Lemma ill_dated_recency now cp :
  ill_dated cp ->
  calculate_recency_factor now (cp_end_year cp) (cp_end_month cp)
  = Raise ValueError.
Proof.
  intros (y & m & -> & -> & Hy & Hm & Hr).
  unfold calculate_recency_factor, missing.
  rewrite (proj2 (Z.eqb_neq y 0) Hy), (proj2 (Z.eqb_neq m 0) Hm).
  simpl orb. cbv iota. simpl default.
  unfold months_since, datetime_ym.
  destruct ((1 <=? y) && (y <=? 9999) && (1 <=? m) && (m <=? 12)) eqn:E;
    [|reflexivity].
  exfalso. apply Hr.
  repeat (apply andb_prop in E; destruct E as [E ?]). lia.
Qed.

Lemma ill_dated_similarity now client_ref tags_ref cp :
  ill_dated cp -> similarity_of now client_ref tags_ref cp = Raise ValueError.
Proof.
  intros H. unfold similarity_of.
  destruct (tag_overlap_of_total tags_ref
              (normalize_tags (project_domain_tags (cp_project cp))))
    as (t & -> & _).
  rewrite bind_ret, (ill_dated_recency now cp H). reflexivity.
Qed.

Lemma similarity_step_cases now client_ref tags_ref st cp :
  (exists st', similarity_step now client_ref tags_ref st cp = Ok st') \/
  similarity_step now client_ref tags_ref st cp = Raise ValueError.
Proof.
  unfold similarity_step.
  destruct (dated_cases cp) as [Hd|Hd].
  - destruct (similarity_of_total now client_ref tags_ref cp Hd) as [s Hs].
    rewrite Hs, bind_ret. left.
    destruct (num_gtb s st.1); [|eauto].
    destruct (match_info_of_total now client_ref tags_ref cp s Hs) as [i ->].
    rewrite bind_ret. eauto.
  - right. rewrite (ill_dated_similarity _ _ _ _ Hd). reflexivity.
Qed.

Lemma similarity_loop_ill_dated now client_ref tags_ref cps :
  Exists ill_dated cps ->
  forall st, similarity_loop now client_ref tags_ref st cps = Raise ValueError.
Proof.
  induction cps as [|cp cps IH]; intros Hex st; [inversion Hex|].
  simpl.
  destruct (similarity_step_cases now client_ref tags_ref st cp)
    as [[st' Hs]|Hs]; rewrite Hs; [|reflexivity].
  rewrite bind_ret.
  inversion Hex as [? ? Hill|? ? Hrest]; subst.
  - exfalso. unfold similarity_step in Hs.
    rewrite (ill_dated_similarity _ _ _ _ Hill) in Hs. discriminate.
  - apply IH, Hrest.
Qed.

Lemma calculate_project_similarity_ill_dated now cps ref :
  Exists ill_dated cps ->
  calculate_project_similarity now cps (Some ref) = Raise ValueError.
Proof.
  intros Hex. unfold calculate_project_similarity.
  destruct cps as [|cp cps]; [inversion Hex|].
  rewrite (similarity_loop_ill_dated _ _ _ _ Hex). reflexivity.
Qed.

(** With a reference project, [calculate_project_similarity] raises exactly
    when some experience has both parts of its end date present (non-zero)
    and they are not a date; one such experience is enough, wherever it
    stands in the list and whatever the others are. *)
Theorem project_similarity_raises_iff (now : Clock)
    (cps : list ConsultantProject) (ref : Project) :
  (exists e, calculate_project_similarity now cps (Some ref) = Raise e) <->
  Exists ill_dated cps.
Proof.
  split.
  - intros [e He]. destruct (all_dated_cases cps) as [Hd|Hex]; [|exact Hex].
    exfalso.
    destruct (calculate_project_similarity_spec now cps ref Hd)
      as (_ & _ & sims & best & info & score & _ & Hc & _).
    rewrite Hc in He. discriminate.
  - intros Hex. exists ValueError.
    apply calculate_project_similarity_ill_dated, Hex.
Qed.

Lemma safe_int_plain_inv v r :
  safe_int v None None None = Ok r -> r = converted v.
Proof.
  unfold safe_int, converted. intros H.
  destruct (py_int v) as [z|[]]; simpl in H; congruence.
Qed.

Lemma read_experience_fields_inv sm sy em ey i f :
  read_experience_fields sm sy em ey i = Ok f ->
  ef_end_month f = keep_within 1 12 (converted em) /\
  ef_end_year f = converted ey.
Proof.
  unfold read_experience_fields. intros H.
  bind_inv H as a Ea. bind_inv H as b Eb. bind_inv H as c Ec.
  bind_inv H as d Ed. bind_inv H as g Eg. injection H as <-. simpl.
  rewrite (safe_int_plain_inv _ _ Ec), (safe_int_plain_inv _ _ Ed). auto.
Qed.

Lemma match_consultant_ill_dated now table month required_skills ref c :
  Exists ill_dated (consultant_projects c) ->
  exists e, match_consultant now table month required_skills (Some ref) c
            = Raise e.
Proof.
  intros Hex. unfold match_consultant.
  destruct (calculate_skill_fit _ _) as [sf|e]; [|eauto].
  rewrite bind_ret.
  destruct (get_consultant_workload_for_month _ _ _) as [w|e]; [|eauto].
  rewrite bind_ret.
  rewrite (calculate_project_similarity_ill_dated _ _ _ Hex). eauto.
Qed.

(** An experience read from the form with an end year that is no year of a
    date (negative, or above 9999; within the 64-bit range of the database
    column) beside a valid end month has an end date that [datetime]
    rejects.  Once such an experience is among the experiences of a
    consultant, every match request with a reference project that ranks
    this consultant raises an exception instead of returning a ranking. *)
Theorem unchecked_end_year_breaks_matching
    (start_month start_year end_month end_year intensity : pyval)
    (f : experience_fields) (y m : Z)
    (p : Project) (role notes : option string)
    (now : Clock) (table : list MonthlyWorkload) (month : Z)
    (required_skills : list (Z * Z)) (ref : Project)
    (c : Consultant) (consultants : list Consultant) :
  read_experience_fields start_month start_year end_month end_year intensity
    = Ok f ->
  py_int end_year = Ok y -> (- 2 ^ 63 <= y < 0 \/ 9999 < y < 2 ^ 63) ->
  py_int end_month = Ok m -> 1 <= m <= 12 ->
  stored_experience p role notes f ∈ consultant_projects c ->
  c ∈ consultants ->
  ill_dated (stored_experience p role notes f) /\
  exists e, match_ranking now table month required_skills (Some ref)
                          consultants = Raise e.
Proof.
  intros Hf Hy Hyr Hm Hmr Hin Hc.
  destruct (read_experience_fields_inv _ _ _ _ _ _ Hf) as (Em & Ey).
  unfold converted in Em, Ey. rewrite Hm in Em. rewrite Hy in Ey.
  assert (Hill : ill_dated (stored_experience p role notes f)).
  { exists y, m. simpl. rewrite Em, Ey. simpl.
    destruct (Z.ltb_spec m 1); [lia|]. destruct (Z.ltb_spec 12 m); [lia|].
    simpl. repeat split; try lia. }
  split; [exact Hill|].
  assert (Hex : Exists ill_dated (consultant_projects c)).
  { apply Exists_exists. eauto. }
  unfold match_ranking.
  assert (Hrows : exists e, match_rows now table month required_skills
                              (Some ref) consultants = Raise e).
  { clear -Hc Hex. induction consultants as [|c0 cs IH].
    - inversion Hc.
    - simpl.
      destruct (match_consultant now table month required_skills (Some ref) c0)
        as [row|e] eqn:E; [|eauto].
      rewrite bind_ret.
      apply elem_of_cons in Hc as [->|Hc].
      + destruct (match_consultant_ill_dated now table month required_skills
                    ref c0 Hex) as [e He]. congruence.
      + destruct (IH Hc) as [e ->]. eauto. }
  destruct Hrows as [e ->]. eauto.
Qed.

End IllDated.

Lemma unchecked_end_year_breaks_matching_witness :
  let cp := experience example_past (Some 6) (Some 20245) (Some 3) in
  let c := {| consultant_id := 1; consultant_name := "Anna";
              consultant_skills := []; consultant_projects := [cp] |} in
  ill_dated cp /\
  exists e, match_ranking example_clock [] 202611 [] (Some example_reference)
                          [c] = Raise e.
Proof.
  intros cp c.
  refine (unchecked_end_year_breaks_matching
            VNone VNone (VStr "6") (VStr "20245") (VStr "3")
            {| ef_start_month := None; ef_start_year := None;
               ef_end_month := Some 6; ef_end_year := Some 20245;
               ef_intensity := Some 3 |} 20245 6
            example_past (Some "Facilitator"%string) None
            example_clock [] 202611 [] example_reference c [c]
            _ _ _ _ _ _ _).
  - vm_compute. reflexivity.
  - vm_compute. reflexivity.
  - lia.
  - vm_compute. reflexivity.
  - lia.
  - apply list_elem_of_here.
  - apply list_elem_of_here.
Defined.

(** ** Order of the recency and intensity factors *)

Lemma recency_constants_ordered :
  fle (lit 60 100) (lit 70 100) /\ fle (lit 70 100) (lit 85 100) /\
  fle (lit 85 100) (lit 1 1) /\ fle (lit 60 100) (lit 75 100) /\
  fle (lit 75 100) (lit 1 1).
Proof. vm_compute. repeat split; discriminate. Qed.


Lemma fle_refl_lit n d : 0 <= n -> 0 < d -> fle (lit n d) (lit n d).
Proof.
  intros Hn Hd. unfold lit. apply rnd_mono; try lia.
Qed.

(** The recency factor never decreases when the end date moves towards the
    clock (or beyond it: an end date in the future counts as recent), and it
    stays between 0.60 and 1.0. *)
Theorem recency_factor_monotone (now : Clock) (y1 m1 y2 m2 : Z) :
  1 <= y1 <= 9999 -> 1 <= m1 <= 12 -> 1 <= y2 <= 9999 -> 1 <= m2 <= 12 ->
  y1 * 12 + m1 <= y2 * 12 + m2 ->
  exists f1 f2,
    calculate_recency_factor now (Some y1) (Some m1) = Ok (Flt f1) /\
    calculate_recency_factor now (Some y2) (Some m2) = Ok (Flt f2) /\
    fle f1 f2 /\ fle (lit 60 100) f1 /\ fle f2 (lit 1 1).
Proof.
  intros Hy1 Hm1 Hy2 Hm2 Hle.
  rewrite !calculate_recency_factor_valid by assumption. cbv zeta.
  destruct recency_constants_ordered as (A & B & C & D & E).
  pose proof (fle_trans _ _ _ A B) as AB.
  pose proof (fle_trans _ _ _ B C) as BC.
  pose proof (fle_trans _ _ _ A BC) as AC.
  pose proof (fle_refl_lit 60 100 ltac:(lia) ltac:(lia)) as R60.
  pose proof (fle_refl_lit 70 100 ltac:(lia) ltac:(lia)) as R70.
  pose proof (fle_refl_lit 85 100 ltac:(lia) ltac:(lia)) as R85.
  pose proof (fle_refl_lit 1 1 ltac:(lia) ltac:(lia)) as R1.
  set (c60 := lit 60 100) in *. set (c70 := lit 70 100) in *.
  set (c85 := lit 85 100) in *. set (c1 := lit 1 1) in *.
  clearbody c60 c70 c85 c1. clear D E.
  do 2 eexists. split; [reflexivity|]. split; [reflexivity|].
  repeat match goal with
         | |- context [?a <=? ?b] => destruct (Z.leb_spec a b)
         end; try lia; repeat split; assumption.
Qed.

Lemma recency_factor_monotone_witness :
  exists f1 f2,
    calculate_recency_factor example_clock (Some 2024) (Some 3) = Ok (Flt f1) /\
    calculate_recency_factor example_clock (Some 2027) (Some 1) = Ok (Flt f2) /\
    fle f1 f2 /\ fle (lit 60 100) f1 /\ fle f2 (lit 1 1).
Proof.
  apply (recency_factor_monotone example_clock 2024 3 2027 1); lia.
Defined.

(** On the levels 1 to 5 the intensity factor grows strictly with the
    level, from 0.70 at level 1 to 1.0 at level 5; a missing level and every
    level outside 1 to 5 give 0.85. *)
Theorem intensity_factor_monotone (l1 l2 : Z) :
  1 <= l1 -> l1 <= l2 -> l2 <= 5 ->
  (exists f1 f2,
      calculate_intensity_factor (Some l1) = Flt f1 /\
      calculate_intensity_factor (Some l2) = Flt f2 /\
      fle f1 f2 /\ (l1 < l2 -> fltb f1 f2 = true) /\
      fle (lit 70 100) f1 /\ fle f2 (lit 1 1)) /\
  calculate_intensity_factor (Some 1) = Flt (lit 70 100) /\
  calculate_intensity_factor (Some 5) = Flt (lit 1 1) /\
  calculate_intensity_factor None = Flt (lit 85 100) /\
  (forall l, l < 1 \/ 5 < l ->
             calculate_intensity_factor (Some l) = Flt (lit 85 100)).
Proof.
  intros H1 H12 H2. split; [|split; [|split; [|split]]].
  - assert (Hl1 : l1 = 1 \/ l1 = 2 \/ l1 = 3 \/ l1 = 4 \/ l1 = 5) by lia.
    assert (Hl2 : l2 = 1 \/ l2 = 2 \/ l2 = 3 \/ l2 = 4 \/ l2 = 5) by lia.
    destruct Hl1 as [ -> | [ -> | [ -> | [ -> | -> ] ] ] ];
      destruct Hl2 as [ -> | [ -> | [ -> | [ -> | -> ] ] ] ]; try lia;
      (do 2 eexists; split; [reflexivity|]; split; [reflexivity|];
       split; [vm_compute; discriminate|];
       split; [first [intros _; vm_compute; reflexivity|intros; lia]|];
       split; vm_compute; discriminate).
  - reflexivity.
  - vm_compute. reflexivity.
  - reflexivity.
  - intros l Hl. unfold calculate_intensity_factor.
    repeat match goal with
           | |- context [?a =? ?b] => destruct (Z.eqb_spec a b)
           end; try lia; reflexivity.
Qed.

Lemma intensity_factor_monotone_witness :
  (exists f1 f2,
      calculate_intensity_factor (Some 2) = Flt f1 /\
      calculate_intensity_factor (Some 4) = Flt f2 /\
      fltb f1 f2 = true) /\
  calculate_intensity_factor (Some 9) = Flt (lit 85 100).
Proof.
  destruct (intensity_factor_monotone 2 4 ltac:(lia) ltac:(lia) ltac:(lia))
    as ((f1 & f2 & E1 & E2 & _ & Hlt & _) & _ & _ & _ & Hout).
  split; [|apply Hout; lia].
  exists f1, f2. split; [exact E1|]. split; [exact E2|]. apply Hlt. lia.
Defined.

(** ** [list.sort] *)

Section PySort.

Context {A : Type} (before : A -> A -> bool).

Lemma insert_sorted_perm x l : insert_sorted before x l ≡ₚ x :: l.
Proof.
  induction l as [|h t IH]; simpl; [reflexivity|].
  destruct (before x h); [reflexivity|].
  rewrite IH. apply Permutation_swap.
Qed.

Lemma py_sort_perm l : py_sort before l ≡ₚ l.
Proof.
  induction l as [|h t IH]; simpl; [reflexivity|].
  rewrite insert_sorted_perm. f_equiv. exact IH.
Qed.

Hypothesis before_total : forall x y, before x y = false -> before y x = true.
Hypothesis before_trans :
  forall x y z, before x y = true -> before y z = true -> before x z = true.

Lemma insert_sorted_sorted x l :
  StronglySorted (fun a b => before a b = true) l ->
  StronglySorted (fun a b => before a b = true) (insert_sorted before x l).
Proof.
  induction 1 as [|h t Hs IH Hall]; simpl.
  - constructor; constructor.
  - destruct (before x h) eqn:E.
    + constructor; [constructor; assumption|].
      constructor; [exact E|].
      eapply Forall_impl; [exact Hall|].
      intros y Hy. simpl in Hy. eapply before_trans; eassumption.
    + constructor; [exact IH|].
      rewrite insert_sorted_perm. constructor; [|exact Hall].
      apply before_total, E.
Qed.

Lemma py_sort_sorted l :
  StronglySorted (fun a b => before a b = true) (py_sort before l).
Proof.
  induction l as [|h t IH]; simpl; [constructor|].
  apply insert_sorted_sorted, IH.
Qed.

Context {K : Type} `{EqDecision K} (key : A -> K).
Hypothesis before_key : forall x y, key x = key y -> before x y = true.

Lemma insert_sorted_stable k x l :
  filter (fun y => key y = k) (insert_sorted before x l)
  = filter (fun y => key y = k) (x :: l).
Proof.
  induction l as [|h t IH]; simpl; [reflexivity|].
  destruct (before x h) eqn:E; [reflexivity|].
  rewrite (filter_cons _ h), IH, !filter_cons.
  destruct (decide (key h = k)) as [Hh|Hh];
    destruct (decide (key x = k)) as [Hx|Hx]; try reflexivity.
  exfalso. rewrite before_key in E by congruence. discriminate.
Qed.

Lemma py_sort_stable k l :
  filter (fun y => key y = k) (py_sort before l)
  = filter (fun y => key y = k) l.
Proof.
  induction l as [|h t IH]; simpl; [reflexivity|].
  rewrite insert_sorted_stable, !filter_cons, IH. reflexivity.
Qed.

End PySort.

Lemma sorted_impl {A} (R R' : A -> A -> Prop) (l : list A) :
  StronglySorted R l -> (forall x y, R x y -> R' x y) -> StronglySorted R' l.
Proof.
  intros Hs Himp. induction Hs as [|h t _ IH Hall]; constructor; [exact IH|].
  eapply Forall_impl; [exact Hall|]. intros y. apply Himp.
Qed.

(** Sorting by an integer key, descending ([reverse=True]) or ascending. *)
Lemma py_sort_descending {A} (key : A -> Z) (l : list A) :
  let sorted := py_sort (fun x y => key y <=? key x) l in
  sorted ≡ₚ l /\
  StronglySorted (fun x y => key y <= key x) sorted /\
  forall k, filter (fun y => key y = k) sorted = filter (fun y => key y = k) l.
Proof.
  split; [apply py_sort_perm|]. split.
  - eapply sorted_impl;
      [apply (py_sort_sorted (fun x y => key y <=? key x))|].
    + intros x y H. lia.
    + intros x y z H1 H2. lia.
    + intros x y H. simpl in H. lia.
  - intros k. apply py_sort_stable. intros x y E. lia.
Qed.

Lemma py_sort_ascending {A} (key : A -> Z) (l : list A) :
  let sorted := py_sort (fun x y => key x <=? key y) l in
  sorted ≡ₚ l /\
  StronglySorted (fun x y => key x <= key y) sorted /\
  forall k, filter (fun y => key y = k) sorted = filter (fun y => key y = k) l.
Proof.
  split; [apply py_sort_perm|]. split.
  - eapply sorted_impl;
      [apply (py_sort_sorted (fun x y => key x <=? key y))|].
    + intros x y H. lia.
    + intros x y z H1 H2. lia.
    + intros x y H. simpl in H. lia.
  - intros k. apply py_sort_stable. intros x y E. lia.
Qed.

(** ** Rankings *)

Section Rankings.

Context {text : Text}.

Lemma match_rows_rows now table month required_skills ref consultants rows :
  match_rows now table month required_skills ref consultants = Ok rows ->
  Forall2 (fun c row => match_consultant now table month required_skills ref c
                        = Ok row) consultants rows.
Proof.
  revert rows. induction consultants as [|c cs IH]; simpl; intros rows H.
  - injection H as <-. constructor.
  - bind_inv H as row Erow. bind_inv H as rest Erest. injection H as <-.
    constructor; [exact Erow|apply IH, Erest].
Qed.

(** The match page lists one row per consultant, ordered by final score
    from the highest to the lowest; consultants with the same final score
    keep the order in which they were read. *)
Theorem match_ranking_sorted (now : Clock) (table : list MonthlyWorkload)
    (month : Z) (required_skills : list (Z * Z)) (ref : option Project)
    (consultants : list Consultant) (ranked : list match_result) :
  match_ranking now table month required_skills ref consultants = Ok ranked ->
  exists rows,
    Forall2 (fun c row => match_consultant now table month required_skills
                            ref c = Ok row) consultants rows /\
    ranked ≡ₚ rows /\
    StronglySorted (fun x y => mr_final_score y <= mr_final_score x) ranked /\
    forall s, filter (fun r => mr_final_score r = s) ranked
              = filter (fun r => mr_final_score r = s) rows.
Proof.
  unfold match_ranking. intros H. bind_inv H as rows Erows.
  injection H as <-. exists rows.
  split; [apply match_rows_rows, Erows|].
  apply (py_sort_descending mr_final_score rows).
Qed.

Lemma overview_rows_rows table month consultants rows :
  overview_rows table month consultants = Ok rows ->
  Forall2 (fun c row => overview_consultant table month c = Ok row)
          consultants rows.
Proof.
  revert rows. induction consultants as [|c cs IH]; simpl; intros rows H.
  - injection H as <-. constructor.
  - bind_inv H as row Erow. bind_inv H as rest Erest. injection H as <-.
    constructor; [exact Erow|apply IH, Erest].
Qed.

Lemma overview_consultant_availability table month c row :
  overview_consultant table month c = Ok row ->
  availability_percent (ov_workload_data row)
  = 100 - workload_percent (ov_workload_data row).
Proof.
  unfold overview_consultant, get_consultant_workload_for_month. intros H.
  bind_inv H as w Ew. injection H as <-. simpl.
  destruct (query_workload table (consultant_id c) month);
    apply calculate_workload_score_inv in Ew;
    destruct Ew as (wd & pl & u & _ & _ & _ & _ & _ & _ & Ha); exact Ha.
Qed.

(** The overview lists the consultants by workload from the lowest to the
    highest, which is by availability from the highest to the lowest;
    consultants with the same workload keep the order in which they were
    read. *)
Theorem overview_ordering_sorted (table : list MonthlyWorkload) (month : Z)
    (consultants : list Consultant) (ordered : list overview_result) :
  overview_ordering table month consultants = Ok ordered ->
  exists rows,
    Forall2 (fun c row => overview_consultant table month c = Ok row)
            consultants rows /\
    ordered ≡ₚ rows /\
    StronglySorted (fun x y => workload_percent (ov_workload_data x)
                               <= workload_percent (ov_workload_data y))
                   ordered /\
    StronglySorted (fun x y => availability_percent (ov_workload_data y)
                               <= availability_percent (ov_workload_data x))
                   ordered /\
    forall p, filter (fun r => workload_percent (ov_workload_data r) = p) ordered
              = filter (fun r => workload_percent (ov_workload_data r) = p) rows.
Proof.
  unfold overview_ordering. intros H. bind_inv H as rows Erows.
  injection H as <-. exists rows.
  pose proof (overview_rows_rows _ _ _ _ Erows) as Hrows.
  destruct (py_sort_ascending
              (fun r => workload_percent (ov_workload_data r)) rows)
    as (Hp & Hs & Hst).
  split; [exact Hrows|]. split; [exact Hp|]. split; [exact Hs|].
  split; [|exact Hst].
  assert (Hav : Forall (fun row => availability_percent (ov_workload_data row)
                  = 100 - workload_percent (ov_workload_data row)) rows).
  { clear -Hrows. induction Hrows; constructor; [|assumption].
    eapply overview_consultant_availability; eassumption. }
  rewrite <- Hp in Hav. revert Hav.
  generalize (py_sort (fun x y => workload_percent (ov_workload_data x)
                        <=? workload_percent (ov_workload_data y)) rows) Hs.
  clear. intros l Hs. induction Hs as [|h t _ IH Hall]; intros Hav.
  - constructor.
  - apply Forall_cons in Hav as [Hh Ht].
    constructor; [apply IH, Ht|].
    rewrite Forall_forall in Hall, Ht |- *. intros y Hy.
    specialize (Hall y Hy). specialize (Ht y Hy). simpl in *. lia.
Qed.

End Rankings.

Lemma match_ranking_sorted_witness :
  let c1 := {| consultant_id := 1; consultant_name := "Anna";
               consultant_skills := []; consultant_projects := [] |} in
  let c2 := {| consultant_id := 2; consultant_name := "Bruno";
               consultant_skills := []; consultant_projects := [] |} in
  let table := [ {| mw_consultant_id := 1; mw_month := 202611;
                    mw_work_days := Some 20; mw_perceived_load := Some 5 |} ] in
  exists ranked,
    match_ranking example_clock table 202611 [] None [c1; c2] = Ok ranked /\
    map mr_id ranked = [2; 1] /\
    StronglySorted (fun x y => mr_final_score y <= mr_final_score x) ranked.
Proof.
  intros c1 c2 table.
  eassert (H : match_ranking example_clock table 202611 [] None [c1; c2]
               = Ok _) by (vm_compute; reflexivity).
  eexists. split; [exact H|]. split; [reflexivity|].
  destruct (match_ranking_sorted _ _ _ _ _ _ _ H) as (rows & _ & _ & Hs & _).
  exact Hs.
Defined.

Lemma overview_ordering_sorted_witness :
  let c1 := {| consultant_id := 1; consultant_name := "Anna";
               consultant_skills := []; consultant_projects := [] |} in
  let c2 := {| consultant_id := 2; consultant_name := "Bruno";
               consultant_skills := []; consultant_projects := [] |} in
  let table := [ {| mw_consultant_id := 1; mw_month := 202611;
                    mw_work_days := Some 20; mw_perceived_load := Some 5 |} ] in
  exists ordered,
    overview_ordering table 202611 [c1; c2] = Ok ordered /\
    map ov_id ordered = [2; 1] /\
    StronglySorted (fun x y => availability_percent (ov_workload_data y)
                               <= availability_percent (ov_workload_data x))
                   ordered.
Proof.
  intros c1 c2 table.
  eassert (H : overview_ordering table 202611 [c1; c2] = Ok _)
    by (vm_compute; reflexivity).
  eexists. split; [exact H|]. split; [reflexivity|].
  destruct (overview_ordering_sorted _ _ _ _ H) as (rows & _ & _ & _ & Hs & _).
  exact Hs.
Defined.

(** ** Top skills and recent projects *)

Lemma py_slice_to_take {A} (limit : Z) (l : list A) :
  0 <= limit -> py_slice_to limit l = take (Z.to_nat limit) l.
Proof.
  intros H. unfold py_slice_to. destruct (Z.leb_spec 0 limit); [reflexivity|lia].
Qed.

(** The first [n] elements of a sorted list: what is left out is ranked
    after everything kept. *)
Lemma take_sorted_top {A} (R : A -> A -> Prop) (n : nat) (l : list A) x :
  StronglySorted R l -> x ∈ l ->
  x ∈ take n l \/ (length (take n l) = n /\ Forall (fun y => R y x) (take n l)).
Proof.
  intros Hs Hx. rewrite <- (take_drop n l) in Hx, Hs.
  apply elem_of_app in Hx as [Hx|Hx]; [left; exact Hx|right].
  split.
  - apply length_take_le.
    destruct (decide (n <= length l)%nat) as [Hn|Hn]; [exact Hn|].
    rewrite drop_ge in Hx by lia. inversion Hx.
  - apply Forall_forall. intros y Hy.
    eapply (StronglySorted_app_1_elem_of R); eassumption.
Qed.

(** [get_top_skills] returns at most [limit] skills, each one a skill of the
    consultant at level [min_level] or more, from the highest level down;
    and it returns the best: a skill of level [min_level] or more that is
    left out has a level no higher than any returned one, and then exactly
    [limit] skills are returned. *)
Theorem get_top_skills_best (skill_name : Z -> string) (c : Consultant)
    (min_level limit : Z) :
  0 <= limit ->
  let top := get_top_skills skill_name c min_level limit in
  Z.of_nat (length top) <= limit /\
  (forall s, s ∈ top ->
     min_level <= ts_level s /\
     exists cs, cs ∈ consultant_skills c /\
                s = {| ts_name := skill_name (cs_skill_id cs);
                       ts_level := cs_level cs |}) /\
  StronglySorted (fun x y => ts_level y <= ts_level x) top /\
  (forall cs, cs ∈ consultant_skills c -> min_level <= cs_level cs ->
     {| ts_name := skill_name (cs_skill_id cs); ts_level := cs_level cs |} ∈ top
     \/ (Z.of_nat (length top) = limit /\
         Forall (fun s => cs_level cs <= ts_level s) top)).
Proof.
  intros Hl top. subst top. unfold get_top_skills.
  rewrite py_slice_to_take by assumption.
  set (mk := fun cs => {| ts_name := skill_name (cs_skill_id cs);
                          ts_level := cs_level cs |}).
  set (skills := map mk (filter (fun cs => min_level <= cs_level cs)
                                (consultant_skills c))).
  destruct (py_sort_descending ts_level skills) as (Hp & Hs & _).
  set (sorted := py_sort (fun x y => ts_level y <=? ts_level x) skills) in *.
  assert (Hin : forall s, s ∈ sorted <->
            exists cs, cs ∈ consultant_skills c /\ min_level <= cs_level cs /\
                       s = mk cs).
  { intros s. rewrite Hp. unfold skills. rewrite list_elem_of_fmap.
    split.
    - intros (cs & -> & Hcs). apply list_elem_of_filter in Hcs as [H1 H2].
      eauto.
    - intros (cs & H1 & H2 & ->). exists cs. split; [reflexivity|].
      apply list_elem_of_filter. auto. }
  split; [rewrite length_take; lia|]. split; [|split].
  - intros s Hs'. apply elem_of_take in Hs' as (i & Hi & _).
    apply list_elem_of_lookup_2 in Hi. apply Hin in Hi as (cs & H1 & H2 & ->).
    split; [exact H2|]. eauto.
  - rewrite <- (take_drop (Z.to_nat limit) sorted) in Hs.
    eapply StronglySorted_app_1_l, Hs.
  - intros cs H1 H2.
    assert (Hm : mk cs ∈ sorted) by (apply Hin; eauto).
    destruct (take_sorted_top _ (Z.to_nat limit) sorted (mk cs) Hs Hm)
      as [H|[Hlen Hall]]; [left; exact H|right].
    split; [rewrite Hlen; lia|exact Hall].
Qed.

Lemma get_top_skills_best_witness :
  let c := {| consultant_id := 1; consultant_name := "Anna";
              consultant_skills :=
                [ {| cs_skill_id := 1; cs_level := 2 |};
                  {| cs_skill_id := 2; cs_level := 5 |};
                  {| cs_skill_id := 3; cs_level := 3 |};
                  {| cs_skill_id := 4; cs_level := 4 |} ];
              consultant_projects := [] |} in
  let top := get_top_skills (fun _ => "skill"%string) c 3 2 in
  map ts_level top = [5; 4] /\
  Z.of_nat (length top) <= 2 /\
  StronglySorted (fun x y => ts_level y <= ts_level x) top.
Proof.
  intros c top. split; [reflexivity|].
  destruct (get_top_skills_best (fun _ => "skill"%string) c 3 2 ltac:(lia))
    as (H1 & _ & H3 & _).
  split; [exact H1|exact H3].
Defined.

Lemma tuple_leb_spec (a b : Z * Z) :
  tuple_leb a b = true <-> a.1 < b.1 \/ (a.1 = b.1 /\ a.2 <= b.2).
Proof.
  unfold tuple_leb.
  destruct (Z.ltb_spec a.1 b.1); destruct (Z.eqb_spec a.1 b.1);
    destruct (Z.leb_spec a.2 b.2); simpl; split; intros; try lia;
    try discriminate; try reflexivity.
Qed.

Lemma tuple_leb_false (a b : Z * Z) : tuple_leb a b = false -> tuple_leb b a = true.
Proof.
  intros H. apply tuple_leb_spec.
  destruct (tuple_leb b a) eqn:E; [apply tuple_leb_spec, E|].
  assert (Ha : ~ (a.1 < b.1 \/ (a.1 = b.1 /\ a.2 <= b.2))).
  { rewrite <- tuple_leb_spec. congruence. }
  lia.
Qed.

Lemma tuple_leb_trans (a b c : Z * Z) :
  tuple_leb a b = true -> tuple_leb b c = true -> tuple_leb a c = true.
Proof. rewrite !tuple_leb_spec. lia. Qed.

Lemma sorted_lookup {A} (R : A -> A -> Prop) (l : list A) (i j : nat) x y :
  StronglySorted R l -> l !! i = Some x -> l !! j = Some y -> (i < j)%nat ->
  R x y.
Proof.
  intros Hs. revert i j. induction Hs as [|h t _ IH Hall]; intros i j Hi Hj Hlt.
  - discriminate.
  - destruct j as [|j]; [lia|]. simpl in Hj. destruct i as [|i].
    + injection Hi as <-. rewrite Forall_forall in Hall.
      apply Hall. eapply list_elem_of_lookup_2, Hj.
    + simpl in Hi. apply (IH i j); [assumption|assumption|lia].
Qed.

Lemma sort_key_dated cp y :
  cp_end_year cp = Some y -> 0 < y -> 0 < (get_end_date_sortable cp).1.
Proof.
  intros Ey Hy. unfold get_end_date_sortable. rewrite Ey.
  rewrite missing_Some_valid by lia. simpl.
  destruct (negb (missing (cp_end_month cp))); simpl; lia.
Qed.

Lemma sort_key_undated cp :
  missing (cp_end_year cp) = true -> get_end_date_sortable cp = (0, 0).
Proof. intros H. unfold get_end_date_sortable. rewrite H. reflexivity. Qed.

(** [get_recent_projects] returns at most [limit] experiences of the
    consultant, from the latest end date to the earliest; an experience with
    a (positive) end year comes before every experience without one; and an
    experience that is left out ended no later than any returned one. *)
Theorem get_recent_projects_latest (c : Consultant) (limit : Z) :
  0 <= limit ->
  let recent := get_recent_projects c limit in
  Z.of_nat (length recent) <= limit /\
  (forall r, r ∈ recent ->
     exists cp, cp ∈ consultant_projects c /\
                rp_id r = project_id (cp_project cp) /\
                rp_end_year r = cp_end_year cp /\
                rp_end_month r = cp_end_month cp /\
                rp_sort_key r = get_end_date_sortable cp) /\
  StronglySorted
    (fun x y => tuple_leb (rp_sort_key y) (rp_sort_key x) = true) recent /\
  (forall (i j : nat) x z y,
     recent !! i = Some x -> recent !! j = Some z ->
     rp_end_year x = Some y -> 0 < y -> missing (rp_end_year z) = true ->
     (i < j)%nat) /\
  (forall cp, cp ∈ consultant_projects c ->
     (exists r, r ∈ recent /\ rp_id r = project_id (cp_project cp) /\
                rp_sort_key r = get_end_date_sortable cp)
     \/ (Z.of_nat (length recent) = limit /\
         Forall (fun r => tuple_leb (get_end_date_sortable cp) (rp_sort_key r)
                          = true) recent)).
Proof.
  intros Hl recent. subst recent. unfold get_recent_projects.
  rewrite py_slice_to_take by assumption.
  set (mk := fun cp => {| rp_id := project_id (cp_project cp);
                          rp_name := project_name (cp_project cp);
                          rp_role := cp_role cp;
                          rp_end_year := cp_end_year cp;
                          rp_end_month := cp_end_month cp;
                          rp_sort_key := get_end_date_sortable cp |}).
  set (projects := map mk (consultant_projects c)).
  set (before := fun x y => tuple_leb (rp_sort_key y) (rp_sort_key x)).
  assert (Hs : StronglySorted (fun x y => before x y = true)
                 (py_sort before projects)).
  { apply py_sort_sorted.
    - intros x y. apply tuple_leb_false.
    - intros x y z H1 H2. eapply tuple_leb_trans; eassumption. }
  pose proof (py_sort_perm before projects) as Hp.
  set (sorted := py_sort before projects) in *.
  assert (Hin : forall r, r ∈ sorted <->
                          exists cp, cp ∈ consultant_projects c /\ r = mk cp).
  { intros r. rewrite Hp. unfold projects. rewrite list_elem_of_fmap.
    split; intros (cp & H1 & H2); eauto. }
  assert (Htake : StronglySorted (fun x y => before x y = true)
                    (take (Z.to_nat limit) sorted)).
  { rewrite <- (take_drop (Z.to_nat limit) sorted) in Hs.
    eapply StronglySorted_app_1_l, Hs. }
  assert (Hmem : forall r, r ∈ take (Z.to_nat limit) sorted ->
                 exists cp, cp ∈ consultant_projects c /\ r = mk cp).
  { intros r Hr. apply Hin. eapply subseteq_take, Hr. }
  split; [rewrite length_take; lia|]. split; [|split; [exact Htake|split]].
  - intros r Hr. destruct (Hmem r Hr) as (cp & Hcp & ->).
    exists cp. simpl. auto.
  - intros i j x z y Hi Hj Ey Hy Hz.
    destruct (Hmem x (list_elem_of_lookup_2 _ _ _ Hi)) as (cpx & _ & ->).
    destruct (Hmem z (list_elem_of_lookup_2 _ _ _ Hj)) as (cpz & _ & ->).
    simpl in Ey, Hz.
    pose proof (sort_key_dated cpx y Ey Hy) as Kx.
    pose proof (sort_key_undated cpz Hz) as Kz.
    destruct (lt_eq_lt_dec i j) as [[Hlt|Heq]|Hgt]; [exact Hlt| |].
    + exfalso. subst j. rewrite Hi in Hj.
      assert (E : mk cpx = mk cpz) by congruence.
      apply (f_equal rp_end_year) in E. simpl in E.
      rewrite <- E, Ey in Hz. simpl in Hz. apply Z.eqb_eq in Hz. lia.
    + exfalso.
      pose proof (sorted_lookup _ _ j i _ _ Htake Hj Hi Hgt) as Hr.
      unfold before in Hr. simpl in Hr. rewrite Kz in Hr.
      apply tuple_leb_spec in Hr. simpl in Hr. lia.
  - intros cp Hcp.
    assert (Hm : mk cp ∈ sorted) by (apply Hin; eauto).
    destruct (take_sorted_top _ (Z.to_nat limit) sorted (mk cp) Hs Hm)
      as [H|[Hlen Hall]].
    + left. exists (mk cp). simpl. auto.
    + right. split; [rewrite Hlen; lia|exact Hall].
Qed.

Lemma get_recent_projects_latest_witness :
  let c := {| consultant_id := 1; consultant_name := "Anna";
              consultant_skills := [];
              consultant_projects :=
                [ experience example_past None None None;
                  experience example_same (Some 3) (Some 2024) None;
                  experience example_reference None (Some 2025) None ] |} in
  let recent := get_recent_projects c 2 in
  map rp_id recent = [1; 4] /\
  Z.of_nat (length recent) <= 2 /\
  StronglySorted
    (fun x y => tuple_leb (rp_sort_key y) (rp_sort_key x) = true) recent.
Proof.
  intros c recent. split; [reflexivity|].
  destruct (get_recent_projects_latest c 2 ltac:(lia)) as (H1 & _ & H3 & _).
  split; [exact H1|exact H3].
Defined.

(** ** Experiences that share nothing with the reference project *)

Section Unrelated.

Context {text : Text}.

Lemma rnd_zero d : 0 < d -> rnd 0 d = Fin 0.
Proof.
  intros Hd. replace 0 with (0 * U * d) at 1 by lia.
  rewrite rnd_int; [reflexivity|assumption|split; [lia|reflexivity]].
Qed.

Lemma factor_fin n d :
  In (n, d) [(1, 1); (85, 100); (70, 100); (60, 100); (75, 100);
             (80, 100); (88, 100); (95, 100); (100, 100)] ->
  exists c, lit n d = Fin c /\ 0 < c <= U.
Proof.
  intros H. simpl in H.
  repeat (destruct H as [H|H];
          [injection H as <- <-; eexists;
           (split; [vm_compute; reflexivity
                   |split; [reflexivity|vm_compute; discriminate]])|]).
  contradiction.
Qed.

Lemma recency_factor_fin now cp :
  well_dated cp ->
  exists c, calculate_recency_factor now (cp_end_year cp) (cp_end_month cp)
            = Ok (Flt (Fin c)) /\ 0 < c <= U.
Proof.
  intros [Hm|(y & m & -> & -> & Hy & Hmo)].
  - unfold calculate_recency_factor. rewrite Hm.
    destruct (factor_fin 75 100) as (c & -> & Hc); [simpl; tauto|]. eauto.
  - rewrite calculate_recency_factor_valid by assumption. cbv zeta.
    repeat match goal with
           | |- context [?a <=? ?b] => destruct (a <=? b)
           end;
      match goal with
      | |- context [lit ?n ?d] =>
          destruct (factor_fin n d) as (c & -> & Hc); [simpl; tauto|]
      end; eauto.
Qed.

Lemma intensity_factor_fin o :
  exists c, calculate_intensity_factor o = Flt (Fin c) /\ 0 < c <= U.
Proof.
  unfold calculate_intensity_factor. destruct o as [l|].
  - repeat match goal with
           | |- context [?a =? ?b] => destruct (a =? b)
           end;
      match goal with
      | |- context [lit ?n ?d] =>
          destruct (factor_fin n d) as (c & -> & Hc); [simpl; tauto|]
      end; eauto.
  - destruct (factor_fin 85 100) as (c & -> & Hc); [simpl; tauto|]. eauto.
Qed.

Lemma tag_overlap_disjoint (tags_ref tags_past : gset string) :
  tags_ref ∩ tags_past = ∅ ->
  tag_overlap_of tags_ref tags_past = Ok (Int 0) \/
  tag_overlap_of tags_ref tags_past = Ok (Flt (Fin 0)).
Proof.
  intros H. unfold tag_overlap_of.
  destruct (decide (tags_ref = ∅)) as [|Hne]; [left; reflexivity|right].
  assert (Hpos : (0 < size tags_ref)%nat).
  { destruct (size tags_ref) eqn:E; [|lia].
    apply size_empty_iff in E. exfalso. apply Hne.
    apply leibniz_equiv. exact E. }
  rewrite H, size_empty, num_div_Int_Int by lia.
  change (Z.of_nat 0 * U) with 0. rewrite rnd_zero by lia. reflexivity.
Qed.

Lemma base_similarity_zero t :
  t = Int 0 \/ t = Flt (Fin 0) -> base_similarity t 0 = Ok (Flt (Fin 0)).
Proof. intros [-> | ->]; vm_compute; reflexivity. Qed.

Lemma clamp_zero : py_max (Int 0) (py_min (Int 1) (Flt (Fin 0))) = Int 0.
Proof. vm_compute. reflexivity. Qed.

Lemma fmul_zero_l c : fmul (Fin 0) (Fin c) = Fin 0.
Proof.
  unfold fmul. rewrite Z.mul_0_l. apply rnd_zero, U_pos.
Qed.

Lemma similarity_of_unrelated now ref cp :
  well_dated cp -> unrelated ref cp ->
  similarity_of now (norm_client (project_client ref))
                (normalize_tags (project_domain_tags ref)) cp = Ok (Int 0).
Proof.
  intros Hd [Hcm Htags]. unfold similarity_of.
  rewrite Hcm.
  destruct (recency_factor_fin now cp Hd) as (r & Hr & Hr0).
  destruct (intensity_factor_fin (cp_intensity_level cp)) as (i & Hi & Hi0).
  rewrite Hr, Hi.
  assert (Hb : forall t, t = Int 0 \/ t = Flt (Fin 0) ->
     (base ← base_similarity t 0;
      br ← num_mul base (Flt (Fin r));
      bri ← num_mul br (Flt (Fin i));
      Ok (py_max (Int 0) (py_min (Int 1) bri))) = Ok (Int 0)).
  { intros t Ht. rewrite (base_similarity_zero t Ht), bind_ret.
    change (num_mul (Flt (Fin 0)) (Flt (Fin r)))
      with (Ok (Flt (fmul (Fin 0) (Fin r)))).
    rewrite fmul_zero_l, bind_ret.
    change (num_mul (Flt (Fin 0)) (Flt (Fin i)))
      with (Ok (Flt (fmul (Fin 0) (Fin i)))).
    rewrite fmul_zero_l, bind_ret, clamp_zero. reflexivity. }
  destruct (tag_overlap_disjoint _ _ Htags) as [E|E]; rewrite E, !bind_ret;
    apply Hb; auto.
Qed.

Lemma similarity_loop_unrelated now ref cps :
  Forall well_dated cps -> Forall (unrelated ref) cps ->
  similarity_loop now (norm_client (project_client ref))
                  (normalize_tags (project_domain_tags ref)) (Int 0, None) cps
  = Ok (Int 0, None).
Proof.
  induction cps as [|cp cps IH]; intros Hd Hu; [reflexivity|].
  apply Forall_cons in Hd as [Hd1 Hd2]. apply Forall_cons in Hu as [Hu1 Hu2].
  simpl. unfold similarity_step.
  rewrite (similarity_of_unrelated now ref cp Hd1 Hu1), bind_ret.
  change (num_gtb (Int 0) (Int 0, None).1) with false. cbv iota.
  rewrite bind_ret. apply IH; assumption.
Qed.

(** When no past experience shares the client or a tag with the reference
    project, the project-experience score is 0 and no best match is
    reported, whatever the dates and intensities. *)
Theorem unrelated_experience_scores_zero (now : Clock)
    (cps : list ConsultantProject) (ref : Project) :
  Forall well_dated cps -> Forall (unrelated ref) cps ->
  calculate_project_similarity now cps (Some ref) = Ok (0, None).
Proof.
  intros Hd Hu. unfold calculate_project_similarity.
  destruct cps as [|cp cps]; [reflexivity|].
  rewrite (similarity_loop_unrelated now ref _ Hd Hu). reflexivity.
Qed.

End Unrelated.

Lemma unrelated_experience_scores_zero_witness :
  calculate_project_similarity example_clock
    [experience example_other (Some 10) (Some 2026) (Some 5);
     experience example_other None None None]
    (Some example_reference) = Ok (0, None).
Proof.
  apply unrelated_experience_scores_zero.
  - constructor; [|constructor; [|constructor]].
    + apply (well_dated_given _ 2026 10); [reflexivity|reflexivity|lia|lia].
    + left. reflexivity.
  - assert (H : unrelated example_reference
                  (experience example_other None None None)).
    { split; [vm_compute; reflexivity|].
      apply (bool_decide_unpack _). vm_compute. exact I. }
    constructor; [exact H|constructor; [exact H|constructor]].
Defined.

(** ** The score and the list of experiences *)

Section ScoreAndList.

Context {text : Text}.

Lemma score_mono a b sa sb :
  unit_interval a -> unit_interval b -> uval a <= uval b ->
  num_mul a (Int 100) ≫= py_round = Ok sa ->
  num_mul b (Int 100) ≫= py_round = Ok sb ->
  sa <= sb.
Proof.
  intros Ha Hb Hle Ea Eb. pose proof U_pos as HU.
  destruct (score_of_unit a Ha) as (sa' & Ea' & Hra & _).
  destruct (score_of_unit b Hb) as (sb' & Eb' & Hrb & Hb1).
  rewrite Ea in Ea'. injection Ea' as <-.
  rewrite Eb in Eb'. injection Eb' as <-.
  destruct Ha as [->|[->|(u & -> & Hu)]].
  - simpl in Ea. injection Ea as <-. lia.
  - simpl in Hle. rewrite (unit_uval_one b Hb) in Hb1 by lia.
    rewrite Hb1 by reflexivity. lia.
  - destruct Hb as [->|[->|(v & -> & Hv)]].
    + simpl in Hle. lia.
    + rewrite Hb1 by reflexivity. lia.
    + simpl in Hle.
      rewrite num_mul_Flt_100, bind_ret in Ea, Eb. simpl fmul in Ea, Eb.
      assert (Hm : fle (rnd (u * (100 * U)) U) (rnd (v * (100 * U)) U)).
      { apply rnd_mono; try lia. apply Z.mul_le_mono_nonneg_r; [lia|].
        apply Z.mul_le_mono_nonneg_r; lia. }
      destruct (rnd (u * (100 * U)) U) as [wu| | |]; try discriminate;
        destruct (rnd (v * (100 * U)) U) as [wv| | |]; try discriminate.
      simpl in Ea, Eb, Hm. injection Ea as <-. injection Eb as <-.
      apply rhe_mono; try lia. apply Z.mul_le_mono_nonneg_r; lia.
Qed.

Lemma Forall2_elem_r {A B} (P : A -> B -> Prop) l k y :
  Forall2 P l k -> y ∈ k -> exists x, x ∈ l /\ P x y.
Proof.
  induction 1 as [|x y' l k Hxy _ IH]; intros Hy; [inversion Hy|].
  apply elem_of_cons in Hy as [->|Hy].
  - exists x. split; [left|exact Hxy].
  - destruct (IH Hy) as (x' & Hx' & Hp). exists x'. split; [right|]; assumption.
Qed.

Lemma Forall2_elem_l {A B} (P : A -> B -> Prop) l k x :
  Forall2 P l k -> x ∈ l -> exists y, y ∈ k /\ P x y.
Proof.
  induction 1 as [|x' y l k Hxy _ IH]; intros Hx; [inversion Hx|].
  apply elem_of_cons in Hx as [->|Hx].
  - exists y. split; [left|exact Hxy].
  - destruct (IH Hx) as (y' & Hy' & Hp). exists y'. split; [right|]; assumption.
Qed.

(** The best similarity behind the returned score. *)
Lemma similarity_best now cps ref :
  Forall well_dated cps ->
  exists sims best info score,
    Forall2 (fun cp s =>
               similarity_of now (norm_client (project_client ref))
                 (normalize_tags (project_domain_tags ref)) cp = Ok s)
            cps sims /\
    calculate_project_similarity now cps (Some ref) = Ok (score, info) /\
    num_mul best (Int 100) ≫= py_round = Ok score /\
    unit_interval best /\
    Forall (fun s => uval s <= uval best) sims /\
    (best = Int 0 \/ best ∈ sims).
Proof.
  intros Hd.
  destruct (calculate_project_similarity_spec now cps ref Hd)
    as (_ & _ & sims & best & info & score & Hsims & Hc & Hscore & Hdom
        & Hcase & _).
  pose proof (similarities_unit _ _ _ _ _ Hsims) as Hunit.
  assert (Hin : best = Int 0 \/ best ∈ sims).
  { destruct Hcase as [[_ ->]|(i & c & info' & _ & Hsi & _)]; [left; reflexivity|].
    right. eapply list_elem_of_lookup_2; exact Hsi. }
  assert (Hb : unit_interval best).
  { destruct Hin as [->|Hin]; [left; reflexivity|].
    rewrite Forall_forall in Hunit. apply Hunit, Hin. }
  exists sims, best, info, score. repeat split; try assumption.
  rewrite Forall_forall in Hdom, Hunit |- *. intros s Hs.
  specialize (Hdom s Hs). unfold num_gtb in Hdom.
  rewrite (unit_ltb best s Hb (Hunit s Hs)) in Hdom.
  apply Z.ltb_ge in Hdom. exact Hdom.
Qed.

Lemma similarity_score_subset now cps cps' ref :
  Forall well_dated cps' -> cps ⊆ cps' ->
  exists s i s' i',
    calculate_project_similarity now cps (Some ref) = Ok (s, i) /\
    calculate_project_similarity now cps' (Some ref) = Ok (s', i') /\
    s <= s'.
Proof.
  intros Hd' Hsub.
  assert (Hd : Forall well_dated cps).
  { rewrite Forall_forall in Hd' |- *. intros cp Hcp. apply Hd', Hsub, Hcp. }
  destruct (similarity_best now cps ref Hd)
    as (sims & best & info & score & Hsims & Hc & Hscore & Hb & Hall & Hin).
  destruct (similarity_best now cps' ref Hd')
    as (sims' & best' & info' & score' & Hsims' & Hc' & Hscore' & Hb' & Hall'
        & Hin').
  exists score, info, score', info'. split; [exact Hc|]. split; [exact Hc'|].
  apply (score_mono best best'); try assumption.
  destruct Hin as [->|Hin].
  - simpl. apply (unit_interval_uval best' Hb').
  - destruct (Forall2_elem_r _ _ _ _ Hsims Hin) as (cp & Hcp & Hs).
    destruct (Forall2_elem_l _ _ _ _ Hsims' (Hsub _ Hcp)) as (s' & Hs' & Hs'').
    simpl in Hs, Hs''. rewrite Hs in Hs''. injection Hs'' as <-.
    rewrite Forall_forall in Hall'. apply Hall', Hs'.
Qed.

(** Adding experiences to a consultant never lowers the project-experience
    score: the score for a list of experiences is at most the score for any
    list that contains them all. *)
Theorem project_similarity_grows (now : Clock)
    (cps cps' : list ConsultantProject) (ref : Project) :
  Forall well_dated cps' -> cps ⊆ cps' ->
  exists s i s' i',
    calculate_project_similarity now cps (Some ref) = Ok (s, i) /\
    calculate_project_similarity now cps' (Some ref) = Ok (s', i') /\
    s <= s'.
Proof. exact (similarity_score_subset now cps cps' ref). Qed.

(** The project-experience score does not depend on the order of the
    experiences (only the reported best match can, when two experiences
    tie). *)
Theorem project_similarity_order_irrelevant (now : Clock)
    (cps cps' : list ConsultantProject) (ref : Project) :
  Forall well_dated cps -> cps ≡ₚ cps' ->
  exists s i i',
    calculate_project_similarity now cps (Some ref) = Ok (s, i) /\
    calculate_project_similarity now cps' (Some ref) = Ok (s, i').
Proof.
  intros Hd Hp.
  assert (Hd' : Forall well_dated cps') by (rewrite <- Hp; exact Hd).
  destruct (similarity_score_subset now cps cps' ref Hd')
    as (s & i & s' & i' & Hc & Hc' & Hle).
  { intros x Hx. rewrite <- Hp. exact Hx. }
  destruct (similarity_score_subset now cps' cps ref Hd)
    as (t' & j' & t & j & Gc' & Gc & Hge).
  { intros x Hx. rewrite Hp. exact Hx. }
  rewrite Hc in Gc. injection Gc as <- <-.
  rewrite Hc' in Gc'. injection Gc' as <- <-.
  assert (s = s') by lia. subst s'. eauto.
Qed.

End ScoreAndList.

Lemma project_similarity_grows_witness :
  exists s i s' i',
    calculate_project_similarity example_clock
      [experience example_past (Some 3) (Some 2025) (Some 4)]
      (Some example_reference) = Ok (s, i) /\
    calculate_project_similarity example_clock
      [experience example_same (Some 10) (Some 2026) (Some 5);
       experience example_past (Some 3) (Some 2025) (Some 4)]
      (Some example_reference) = Ok (s', i') /\
    s <= s'.
Proof.
  apply project_similarity_grows.
  - constructor; [|constructor; [|constructor]].
    + apply (well_dated_given _ 2026 10); [reflexivity|reflexivity|lia|lia].
    + apply (well_dated_given _ 2025 3); [reflexivity|reflexivity|lia|lia].
  - intros x Hx. apply list_elem_of_singleton in Hx as ->. right. left.
Defined.

Lemma project_similarity_order_irrelevant_witness :
  exists s i i',
    calculate_project_similarity example_clock
      [experience example_past (Some 3) (Some 2025) (Some 4);
       experience example_same (Some 10) (Some 2026) (Some 5)]
      (Some example_reference) = Ok (s, i) /\
    calculate_project_similarity example_clock
      [experience example_same (Some 10) (Some 2026) (Some 5);
       experience example_past (Some 3) (Some 2025) (Some 4)]
      (Some example_reference) = Ok (s, i').
Proof.
  apply project_similarity_order_irrelevant.
  - constructor; [|constructor; [|constructor]].
    + apply (well_dated_given _ 2025 3); [reflexivity|reflexivity|lia|lia].
    + apply (well_dated_given _ 2026 10); [reflexivity|reflexivity|lia|lia].
  - apply Permutation_swap.
Defined.

(** ** The skill fit in units *)

Lemma rnd_Fin_inv n d u : rnd n d = Fin u -> u = rnd_units n d.
Proof.
  with_strategy transparent [rnd] unfold rnd.
  destruct (OVF <=? rnd_units n d); [discriminate|].
  destruct (rnd_units n d <=? - OVF); [discriminate|].
  congruence.
Qed.

Lemma score_units_range cl lvl :
  0 <= cl -> 0 <= score_units cl lvl <= U.
Proof.
  intros Hcl. pose proof U_pos. unfold score_units.
  destruct (Z.ltb_spec 0 lvl).
  - pose proof (rnd_units_nonneg (cl * U) lvl ltac:(nia) ltac:(lia)). lia.
  - destruct (0 <? cl); lia.
Qed.

Lemma skill_score_units d id lvl :
  0 <= default 0 (d !! id) <= level_bound ->
  skill_score d (id, lvl)
  = Ok (Flt (Fin (score_units (default 0 (d !! id)) lvl))).
Proof.
  intros Hcl. unfold skill_score, score_units.
  set (cl := default 0 (d !! id)) in *.
  pose proof U_pos as HU.
  destruct (Z.ltb_spec 0 lvl) as [Hl|Hl].
  - rewrite num_div_Int_Int by assumption.
    destruct (rnd_nonneg_bounded (cl * U) lvl) as (q & Hq & Hq0 & Hq1);
      [assumption| |].
    { split; [apply Z.mul_nonneg_nonneg; lia|].
      unfold level_bound in Hcl.
      transitivity (2 ^ 1000 * U * 1); [|apply Z.mul_le_mono_nonneg_l; [|lia]].
      - rewrite Z.mul_1_r. apply Z.mul_le_mono_nonneg_r; lia.
      - apply Z.mul_nonneg_nonneg; [|lia]. apply Z.pow_nonneg. lia. }
    rewrite Hq, bind_ret. apply rnd_Fin_inv in Hq as <-.
    unfold py_min, num_ltb. rewrite lit_1. simpl fltb.
    destruct (Z.ltb_spec q U) as [Hlt|Hge]; do 3 f_equal; lia.
  - destruct (Z.ltb_spec 0 cl).
    + rewrite lit_1. reflexivity.
    + rewrite lit_0 by lia. reflexivity.
Qed.

Lemma skill_scores_units d required_skills :
  Forall (fun req => 0 <= default 0 (d !! req.1) <= level_bound)
         required_skills ->
  skill_scores d required_skills
  = Ok (map (fun u => Flt (Fin u)) (requirement_scores d required_skills)).
Proof.
  induction 1 as [|[id lvl] rest Hb _ IH]; [reflexivity|].
  simpl in Hb.
  change (skill_scores d ((id, lvl) :: rest))
    with (s ← skill_score d (id, lvl);
          ss ← skill_scores d rest; Ok (s :: ss)).
  rewrite (skill_score_units d id lvl Hb), bind_ret, IH, bind_ret.
  reflexivity.
Qed.

Lemma requirement_scores_range d required_skills :
  Forall (fun req => 0 <= default 0 (d !! req.1) <= level_bound)
         required_skills ->
  Forall (fun u => 0 <= u <= U) (requirement_scores d required_skills).
Proof.
  intros H. unfold requirement_scores. apply Forall_map.
  eapply Forall_impl; [exact H|]. intros req Hr. simpl in Hr |- *.
  apply score_units_range. lia.
Qed.

Lemma py_sum_from_units us : forall a k,
  Forall (fun u => 0 <= u <= U) us ->
  0 <= k -> 0 <= a <= k * U ->
  k + Z.of_nat (length us) < 2 ^ 53 ->
  py_sum_from (Flt (Fin a)) (map (fun u => Flt (Fin u)) us)
  = Ok (Flt (Fin (sum_units a us))) /\
  0 <= sum_units a us <= (k + Z.of_nat (length us)) * U.
Proof.
  induction us as [|u us IH]; intros a k Hall Hk Ha Hlen.
  - simpl. rewrite Z.add_0_r. auto.
  - apply Forall_cons in Hall as [Hu Hrest].
    simpl length in *. rewrite Nat2Z.inj_succ in *.
    destruct (rnd_fin_between_int (a + u) 1 0 (k + 1))
      as (b & Hb & Hbr); try lia.
    pose proof (rnd_Fin_inv _ _ _ Hb) as Eb.
    destruct (IH b (k + 1) Hrest ltac:(lia) ltac:(lia) ltac:(lia))
      as (Hc & Hcr).
    simpl map. simpl py_sum_from. unfold num_add. simpl to_float.
    rewrite Hb.
    change (sum_units a (u :: us)) with (sum_units (rnd_units (a + u) 1) us).
    rewrite <- Eb. split; [exact Hc|].
    replace (k + Z.succ (Z.of_nat (length us)))
      with (k + 1 + Z.of_nat (length us)) by lia. exact Hcr.
Qed.

Lemma calculate_skill_fit_units d required_skills :
  required_skills <> [] ->
  Forall (fun req => 0 <= default 0 (d !! req.1) <= level_bound)
         required_skills ->
  Z.of_nat (length required_skills) < 2 ^ 53 ->
  calculate_skill_fit d required_skills
  = Ok (fit_units (requirement_scores d required_skills)).
Proof.
  intros Hne Hall Hlen.
  pose proof (skill_scores_units d _ Hall) as Hss.
  pose proof (requirement_scores_range d _ Hall) as Hr.
  assert (Hl : length (requirement_scores d required_skills)
               = length required_skills)
    by (unfold requirement_scores; apply length_map).
  unfold calculate_skill_fit, fit_units.
  destruct required_skills as [|r0 rest]; [contradiction|].
  rewrite Hss, bind_ret.
  destruct (requirement_scores d (r0 :: rest)) as [|u0 us] eqn:E;
    [discriminate|].
  set (n := Z.of_nat (length (u0 :: us))).
  assert (Hn : 1 <= n < 2 ^ 53).
  { unfold n. rewrite Hl. simpl length in *. lia. }
  pose proof U_pos as HU.
  apply Forall_cons in Hr as [Hu0 Hrest].
  rewrite length_map. fold n. simpl map. cbv iota.
  rewrite py_sum_cons, num_add_0_Flt, bind_ret. simpl fadd.
  destruct (rnd_fin_between_int (0 * U + u0) 1 0 1) as (a & Ha & Har);
    try lia; try reflexivity.
  rewrite Ha. pose proof (rnd_Fin_inv _ _ _ Ha) as Ea.
  destruct (py_sum_from_units us a 1 Hrest ltac:(lia) ltac:(lia))
    as (Hb & Hbr).
  { unfold n in Hn. simpl length in Hn. lia. }
  rewrite Hb, bind_ret.
  assert (Esum : sum_units 0 (u0 :: us) = sum_units a us).
  { simpl. rewrite Ea. reflexivity. }
  rewrite Esum. set (b := sum_units a us) in *.
  assert (Hbn : 0 <= b <= n * U).
  { unfold n. simpl length. rewrite Nat2Z.inj_succ.
    replace (Z.succ (Z.of_nat (length us))) with (1 + Z.of_nat (length us)) by lia.
    exact Hbr. }
  unfold num_div. rewrite to_float_Flt, bind_ret.
  rewrite (to_float_small n) by lia. rewrite bind_ret.
  assert (HnU : 0 < n * U) by (apply Z.mul_pos_pos; lia).
  simpl feqb. destruct (Z.eqb_spec (n * U) 0); [lia|].
  simpl fdiv. destruct (Z.ltb_spec 0 (n * U)); [|lia].
  destruct (rnd_fin_between_int (b * U) (n * U) 0 1) as (v & Hv & Hvr);
    try lia; try reflexivity.
  { split; [nia|].
    replace (1 * U * (n * U)) with (n * U * U) by lia.
    apply Z.mul_le_mono_nonneg_r; lia. }
  rewrite Hv, bind_ret. apply rnd_Fin_inv in Hv as Ev.
  rewrite num_mul_Flt_100, bind_ret. simpl fmul.
  destruct (rnd_fin_between_int (v * (100 * U)) U 0 100)
    as (w & Hw & Hwr); try lia; try reflexivity.
  { split; [nia|].
    replace (100 * U * U) with (1 * U * (100 * U)) by lia.
    apply Z.mul_le_mono_nonneg_r; lia. }
  rewrite Hw. simpl py_round. apply rnd_Fin_inv in Hw as Ew.
  rewrite <- Ev, <- Ew. reflexivity.
Qed.

Lemma score_units_mono cl cl' lvl :
  0 <= cl <= cl' -> score_units cl lvl <= score_units cl' lvl.
Proof.
  intros H. pose proof U_pos. unfold score_units.
  destruct (Z.ltb_spec 0 lvl).
  - apply Z.min_le_compat_l. apply rnd_units_mono; try lia.
    apply Z.mul_le_mono_nonneg_r; [lia|].
    apply Z.mul_le_mono_nonneg_r; lia.
  - destruct (Z.ltb_spec 0 cl); destruct (Z.ltb_spec 0 cl'); lia.
Qed.

Lemma sum_units_mono us us' :
  Forall2 Z.le us us' ->
  forall a a', a <= a' -> sum_units a us <= sum_units a' us'.
Proof.
  induction 1 as [|u u' us us' Hu _ IH]; intros a a' Ha; [exact Ha|].
  simpl. apply IH. apply rnd_units_mono; lia.
Qed.

Lemma fit_units_mono us us' :
  us <> [] -> Forall (fun u => 0 <= u) us -> Forall2 Z.le us us' ->
  fit_units us <= fit_units us'.
Proof.
  intros Hne H0 H. pose proof U_pos as HU. unfold fit_units.
  rewrite <- (Forall2_length _ _ _ H).
  set (n := Z.of_nat (length us)).
  assert (Hn : 0 < n) by (unfold n; destruct us; [contradiction|simpl; lia]).
  assert (HnU : 0 < n * U) by (apply Z.mul_pos_pos; lia).
  pose proof (sum_units_mono us us' H 0 0 ltac:(lia)) as Hs.
  apply rhe_mono; try lia. apply Z.mul_le_mono_nonneg_r; [lia|].
  apply rnd_units_mono; try lia. apply Z.mul_le_mono_nonneg_r; [lia|].
  apply Z.mul_le_mono_nonneg_r; [lia|].
  apply rnd_units_mono; try lia. apply Z.mul_le_mono_nonneg_r; [lia|].
  apply Z.mul_le_mono_nonneg_r; lia.
Qed.

(** Raising a consultant's skill levels never lowers the skill fit. *)
Theorem skill_fit_monotone (d d' : gmap Z Z) (required_skills : list (Z * Z)) :
  Z.of_nat (length required_skills) < 2 ^ 53 ->
  Forall (fun req => 0 <= default 0 (d !! req.1)
                     /\ default 0 (d !! req.1) <= default 0 (d' !! req.1)
                     /\ default 0 (d' !! req.1) <= level_bound)
         required_skills ->
  exists r r',
    calculate_skill_fit d required_skills = Ok r /\
    calculate_skill_fit d' required_skills = Ok r' /\
    r <= r'.
Proof.
  intros Hlen Hall.
  destruct required_skills as [|r0 rest] eqn:E.
  { exists 100, 100. repeat split; lia. }
  rewrite <- E in *.
  assert (Hne : required_skills <> []) by (subst; discriminate).
  assert (Hd : Forall (fun req => 0 <= default 0 (d !! req.1) <= level_bound)
                      required_skills).
  { eapply Forall_impl; [exact Hall|]. intros req Hr. simpl in Hr. lia. }
  assert (Hd' : Forall (fun req => 0 <= default 0 (d' !! req.1) <= level_bound)
                       required_skills).
  { eapply Forall_impl; [exact Hall|]. intros req Hr. simpl in Hr. lia. }
  rewrite (calculate_skill_fit_units d _ Hne Hd Hlen).
  rewrite (calculate_skill_fit_units d' _ Hne Hd' Hlen).
  do 2 eexists. split; [reflexivity|]. split; [reflexivity|].
  apply fit_units_mono.
  - unfold requirement_scores. subst. discriminate.
  - eapply Forall_impl; [apply (requirement_scores_range d _ Hd)|].
    intros u Hu. simpl in Hu. lia.
  - unfold requirement_scores. apply Forall2_fmap, Forall_Forall2_diag.
    eapply Forall_impl; [exact Hall|]. intros req Hr. simpl in Hr.
    apply score_units_mono. lia.
Qed.

Lemma skill_fit_monotone_witness :
  exists r r',
    calculate_skill_fit (<[1 := 2]> ∅) [(1, 4); (2, 3)] = Ok r /\
    calculate_skill_fit (<[1 := 3]> (<[2 := 1]> ∅)) [(1, 4); (2, 3)] = Ok r' /\
    r <= r'.
Proof.
  apply skill_fit_monotone.
  - reflexivity.
  - repeat constructor; vm_compute; congruence.
Defined.

Lemma sum_units_zero us :
  Forall (fun u => u = 0) us -> sum_units 0 us = 0.
Proof.
  induction 1 as [|u us -> _ IH]; [reflexivity|].
  simpl. change (0 + 0) with (0 * 2 ^ 0).
  rewrite rnd_units_exact by (first [lia|split; [lia|reflexivity]]).
  exact IH.
Qed.

(** A consultant who holds none of the required skills has skill fit 0
    (for a non-empty requirement list). *)
Theorem skill_fit_none_held (d : gmap Z Z) (required_skills : list (Z * Z)) :
  required_skills <> [] ->
  Z.of_nat (length required_skills) < 2 ^ 53 ->
  Forall (fun req => default 0 (d !! req.1) = 0) required_skills ->
  calculate_skill_fit d required_skills = Ok 0.
Proof.
  intros Hne Hlen Hall. pose proof U_pos as HU.
  rewrite calculate_skill_fit_units; try assumption.
  - f_equal. unfold fit_units.
    assert (Hz : Forall (fun u => u = 0) (requirement_scores d required_skills)).
    { unfold requirement_scores. apply Forall_map.
      eapply Forall_impl; [exact Hall|]. intros req Hr. simpl in *.
      rewrite Hr. unfold score_units.
      destruct (Z.ltb_spec 0 req.2); [|reflexivity].
      change (0 * U) with (0 * 2 ^ 0 * 1).
      assert (E : rnd_units (0 * 2 ^ 0 * 1) req.2 = 0).
      { apply Z.le_antisymm.
        - apply (rnd_units_le _ _ 0 0);
          first [lia|split; [lia|reflexivity]].
        - apply rnd_units_nonneg; lia. }
      rewrite E. lia. }
    rewrite (sum_units_zero _ Hz).
    set (n := Z.of_nat (length (requirement_scores d required_skills))).
    assert (Hn : 0 < n).
    { unfold n, requirement_scores. rewrite length_map.
      destruct required_skills; [contradiction|simpl; lia]. }
    assert (E1 : rnd_units (0 * U) (n * U) = 0).
    { apply Z.le_antisymm.
      - apply (rnd_units_le _ _ 0 0);
        first [nia|split; [lia|reflexivity]].
      - apply rnd_units_nonneg; nia. }
    rewrite E1.
    assert (E2 : rnd_units (0 * (100 * U)) U = 0).
    { apply Z.le_antisymm.
      - apply (rnd_units_le _ _ 0 0);
        first [nia|split; [lia|reflexivity]].
      - apply rnd_units_nonneg; nia. }
    rewrite E2. apply (rhe_exact 0 U HU).
  - eapply Forall_impl; [exact Hall|]. intros req Hr. simpl in *.
    rewrite Hr. unfold level_bound. split; [lia|]. apply Z.pow_nonneg. lia.
Qed.

Lemma skill_fit_none_held_witness :
  calculate_skill_fit (<[7 := 5]> ∅) [(1, 4); (2, 3)] = Ok 0.
Proof.
  apply skill_fit_none_held.
  - discriminate.
  - reflexivity.
  - repeat constructor.
Defined.

Lemma score_units_capped cl lvl :
  0 < lvl -> 0 <= cl -> score_units cl lvl = score_units (Z.min cl lvl) lvl.
Proof.
  intros Hl Hcl. pose proof U_pos as HU.
  destruct (Z.le_gt_cases cl lvl) as [Hle|Hgt];
    [rewrite Z.min_l by lia; reflexivity|].
  rewrite Z.min_r by lia. unfold score_units.
  destruct (Z.ltb_spec 0 lvl); [|lia].
  assert (H1 : U <= rnd_units (lvl * U) lvl).
  { change U with (1 * 2 ^ 1074) at 1.
    apply rnd_units_ge;
      [lia|split; [lia|reflexivity]|lia|change (2 ^ 1074) with U; lia]. }
  assert (H2 : rnd_units (lvl * U) lvl <= rnd_units (cl * U) lvl).
  { apply rnd_units_mono; try lia. apply Z.mul_le_mono_nonneg_r; [lia|].
    apply Z.mul_le_mono_nonneg_r; lia. }
  lia.
Qed.

(** Levels above the requirement earn nothing: the skill fit only depends
    on each level capped at the required one, so a surplus in one skill
    cannot make up for a deficit in another. *)
Theorem skill_fit_no_bonus (d d' : gmap Z Z) (required_skills : list (Z * Z)) :
  Z.of_nat (length required_skills) < 2 ^ 53 ->
  Forall (fun req => 0 < req.2
                     /\ 0 <= default 0 (d !! req.1) <= level_bound
                     /\ 0 <= default 0 (d' !! req.1) <= level_bound
                     /\ Z.min (default 0 (d !! req.1)) req.2
                        = Z.min (default 0 (d' !! req.1)) req.2)
         required_skills ->
  calculate_skill_fit d required_skills = calculate_skill_fit d' required_skills.
Proof.
  intros Hlen Hall.
  destruct required_skills as [|r0 rest] eqn:E; [reflexivity|].
  rewrite <- E in *.
  assert (Hne : required_skills <> []) by (subst; discriminate).
  rewrite (calculate_skill_fit_units d), (calculate_skill_fit_units d');
    try assumption;
    try (eapply Forall_impl; [exact Hall|]; intros req Hr; simpl in Hr; lia).
  apply (f_equal (fun l => Ok (fit_units l))). unfold requirement_scores.
  apply Forall_fmap_ext_1.
  eapply Forall_impl; [exact Hall|]. intros req (Hl & Hc & Hc' & Hm).
  simpl. rewrite (score_units_capped (default 0 (d !! req.1))) by lia.
  rewrite (score_units_capped (default 0 (d' !! req.1))) by lia.
  rewrite Hm. reflexivity.
Qed.

Lemma skill_fit_no_bonus_witness :
  calculate_skill_fit (<[1 := 5]> (<[2 := 1]> ∅)) [(1, 3); (2, 3)]
  = calculate_skill_fit (<[1 := 3]> (<[2 := 1]> ∅)) [(1, 3); (2, 3)].
Proof.
  apply skill_fit_no_bonus.
  - reflexivity.
  - repeat constructor; vm_compute; congruence.
Defined.

(** ** The tag filter *)

Section TagFilter.

Context {text : Text}.

Lemma normalize_tags_get_tags_list o :
  normalize_tags o = list_to_set (map lower (get_tags_list o)).
Proof.
  unfold normalize_tags, get_tags_list. destruct o as [s|]; [|reflexivity].
  destruct (String.eqb s ""); [reflexivity|].
  rewrite map_map. reflexivity.
Qed.

Lemma has_tag_spec (c : Consultant) (tag_filter : string) :
  has_tag c tag_filter = true <->
  exists cp, cp ∈ consultant_projects c /\
             lower tag_filter
               ∈ normalize_tags (project_domain_tags (cp_project cp)).
Proof.
  unfold has_tag. rewrite existsb_exists. split.
  - intros (cp & Hcp & H). apply existsb_exists in H as (t & Ht & E).
    exists cp. split; [apply list_elem_of_In, Hcp|].
    rewrite normalize_tags_get_tags_list, elem_of_list_to_set.
    apply String.eqb_eq in E. rewrite <- E.
    apply list_elem_of_In, in_map, Ht.
  - intros (cp & Hcp & H). exists cp. split; [apply list_elem_of_In, Hcp|].
    rewrite normalize_tags_get_tags_list, elem_of_list_to_set in H.
    apply list_elem_of_In, in_map_iff in H as (t & E & Ht).
    apply existsb_exists. exists t. split; [exact Ht|].
    apply String.eqb_eq, E.
Qed.

(** The tag filter of the overview keeps every consultant when the filter
    is empty; otherwise it keeps a consultant exactly when the filter, in
    lower case, is one of the normalised tags of one of the consultant's
    projects: the filter and the similarity score read the tags in the same
    way. *)
Theorem tag_filter_iff (c : Consultant) (tag_filter : string) :
  passes_tag_filter c tag_filter = true <->
  tag_filter = ""%string \/
  exists cp, cp ∈ consultant_projects c /\
             lower tag_filter
               ∈ normalize_tags (project_domain_tags (cp_project cp)).
Proof.
  unfold passes_tag_filter.
  destruct (String.eqb_spec tag_filter "") as [E|E].
  - split; auto.
  - rewrite has_tag_spec. split; [auto|]. intros [H|H]; [contradiction|exact H].
Qed.

End TagFilter.

(** ** Tags of ASCII texts

    What [normalize_tags] does on a tag string of ASCII characters, where
    [strip] and [lower] are [ascii_strip] and [ascii_lower]. *)

Lemma lower_char_idem c : lower_char (lower_char c) = lower_char c.
Proof. destruct c as [[] [] [] [] [] [] [] []]; reflexivity. Qed.

Lemma is_space_lower c : is_space (lower_char c) = is_space c.
Proof. destruct c as [[] [] [] [] [] [] [] []]; reflexivity. Qed.

Lemma lower_char_comma c : Ascii.eqb (lower_char c) "," = Ascii.eqb c ",".
Proof. destruct c as [[] [] [] [] [] [] [] []]; reflexivity. Qed.

Lemma lstrip_map l : lstrip (map lower_char l) = map lower_char (lstrip l).
Proof.
  induction l as [|c r IH]; [reflexivity|].
  simpl. rewrite is_space_lower. destruct (is_space c); [exact IH|reflexivity].
Qed.

Lemma strip_chars_map l :
  strip_chars (map lower_char l) = map lower_char (strip_chars l).
Proof.
  unfold strip_chars. rewrite lstrip_map, <- map_rev, lstrip_map, map_rev.
  reflexivity.
Qed.

Lemma split_chars_map l :
  split_chars "," (map lower_char l)
  = map (map lower_char) (split_chars "," l).
Proof.
  induction l as [|c r IH]; [reflexivity|].
  simpl. rewrite lower_char_comma, IH.
  destruct (Ascii.eqb c ","); [reflexivity|].
  destruct (split_chars "," r); reflexivity.
Qed.

Lemma strip_lower t : ascii_strip (ascii_lower t) = ascii_lower (ascii_strip t).
Proof.
  unfold ascii_strip, ascii_lower.
  rewrite !list_ascii_of_string_of_list_ascii, strip_chars_map. reflexivity.
Qed.

Lemma lower_idem t : ascii_lower (ascii_lower t) = ascii_lower t.
Proof.
  unfold ascii_lower. rewrite list_ascii_of_string_of_list_ascii, map_map.
  f_equal. apply map_ext. intros c. apply lower_char_idem.
Qed.

Lemma split_lower s :
  split "," (ascii_lower s) = map ascii_lower (split "," s).
Proof.
  unfold split, ascii_lower.
  rewrite list_ascii_of_string_of_list_ascii, split_chars_map, !map_map.
  apply map_ext. intros p.
  rewrite list_ascii_of_string_of_list_ascii. reflexivity.
Qed.

Lemma lower_empty s : ascii_lower s = ""%string <-> s = ""%string.
Proof.
  split; [|intros ->; reflexivity].
  destruct s; [reflexivity|discriminate].
Qed.

Lemma normalize_tags_ascii s :
  normalize_tags (text := ascii_text) (Some s)
  = if String.eqb s "" then ∅
    else list_to_set
           (map (fun t => ascii_lower (ascii_strip t))
                (filter (fun t => ascii_strip t ≠ ""%string) (split "," s))).
Proof. reflexivity. Qed.

Lemma normalize_tags_lower s :
  normalize_tags (text := ascii_text) (Some (ascii_lower s))
  = normalize_tags (text := ascii_text) (Some s).
Proof.
  rewrite !normalize_tags_ascii.
  destruct (String.eqb_spec s "") as [->|Hs]; [reflexivity|].
  destruct (String.eqb_spec (ascii_lower s) "") as [E|_];
    [apply (proj1 (lower_empty s)) in E; contradiction|].
  f_equal. rewrite split_lower.
  generalize (split "," s). intros l.
  induction l as [|t l IH]; [reflexivity|].
  simpl map at 2. rewrite !filter_cons.
  destruct (decide (ascii_strip (ascii_lower t) ≠ ""%string)) as [H1|H1];
    destruct (decide (ascii_strip t ≠ ""%string)) as [H2|H2].
  - simpl. rewrite IH, strip_lower, lower_idem. reflexivity.
  - exfalso. apply H2. intros E. apply H1. rewrite strip_lower, E.
    reflexivity.
  - exfalso. apply H1. rewrite strip_lower. intros E.
    apply (proj1 (lower_empty _)) in E. contradiction.
  - exact IH.
Qed.

(** For tag strings of ASCII characters the tag set does not depend on the
    case of the letters. *)
Theorem normalize_tags_case_insensitive (s1 s2 : string) :
  ascii_only s1 -> ascii_only s2 ->
  ascii_lower s1 = ascii_lower s2 ->
  normalize_tags (text := ascii_text) (Some s1)
  = normalize_tags (text := ascii_text) (Some s2).
Proof.
  intros _ _ H.
  rewrite <- (normalize_tags_lower s1), <- (normalize_tags_lower s2).
  rewrite H. reflexivity.
Qed.

Lemma normalize_tags_case_insensitive_witness :
  normalize_tags (text := ascii_text) (Some "AI, Training"%string)
  = normalize_tags (text := ascii_text) (Some "ai, TRAINING"%string).
Proof.
  apply normalize_tags_case_insensitive;
    [repeat constructor|repeat constructor|reflexivity].
Defined.

Lemma lstrip_spec l :
  exists p, l = p ++ lstrip l.
Proof.
  induction l as [|c r (p & IH)]; [exists []; reflexivity|].
  simpl. destruct (is_space c).
  - exists (c :: p). simpl. f_equal. exact IH.
  - exists []. reflexivity.
Qed.

Lemma lstrip_head l c r : lstrip l = c :: r -> is_space c = false.
Proof.
  induction l as [|c' r' IH]; [discriminate|].
  simpl. destruct (is_space c') eqn:E; [exact IH|].
  intros H. injection H as <- _. exact E.
Qed.

Lemma lstrip_id l :
  (forall c r, l = c :: r -> is_space c = false) -> lstrip l = l.
Proof.
  destruct l as [|c r]; [reflexivity|].
  intros H. simpl. rewrite (H c r eq_refl). reflexivity.
Qed.

Lemma strip_chars_idem l : strip_chars (strip_chars l) = strip_chars l.
Proof.
  unfold strip_chars.
  set (a := lstrip l). set (b := lstrip (rev a)).
  assert (Hb : lstrip b = b).
  { apply lstrip_id. intros c r E. eapply lstrip_head. exact E. }
  assert (Hr : lstrip (rev b) = rev b).
  { apply lstrip_id. intros c r E.
    destruct (lstrip_spec (rev a)) as [p Hp]. fold b in Hp.
    apply (f_equal (@rev ascii)) in Hp.
    rewrite rev_involutive, rev_app_distr, E in Hp.
    eapply (lstrip_head l). fold a. rewrite Hp. reflexivity. }
  rewrite Hr, rev_involutive, Hb. reflexivity.
Qed.

Lemma lstrip_In l c : In c (lstrip l) -> In c l.
Proof.
  destruct (lstrip_spec l) as [p Hp]. intros H. rewrite Hp.
  apply in_or_app. right. exact H.
Qed.

Lemma strip_chars_In l c : In c (strip_chars l) -> In c l.
Proof.
  unfold strip_chars. intros H.
  apply in_rev, lstrip_In, in_rev in H. apply lstrip_In, H.
Qed.

Lemma split_chars_no_sep sep l :
  forall p, In p (split_chars sep l) -> ~ In sep p.
Proof.
  induction l as [|c r IH]; intros p Hp.
  - simpl in Hp. destruct Hp as [<-|[]]. intros [].
  - simpl in Hp. destruct (Ascii.eqb_spec c sep) as [->|Hc].
    + destruct Hp as [<-|Hp]; [intros []|apply IH, Hp].
    + destruct (split_chars sep r) as [|h t].
      * destruct Hp as [<-|[]]. intros [E|[]]. contradiction.
      * destruct Hp as [<-|Hp].
        -- intros [E|E]; [contradiction|]. apply (IH h); [left; reflexivity|exact E].
        -- apply IH. right. exact Hp.
Qed.

Lemma strip_idem t : ascii_strip (ascii_strip t) = ascii_strip t.
Proof.
  unfold ascii_strip.
  rewrite list_ascii_of_string_of_list_ascii, strip_chars_idem. reflexivity.
Qed.

(** For a tag string of ASCII characters, every element of the tag set is
    a non-empty, trimmed, lower-case text without a comma. *)
Theorem normalize_tags_clean (s x : string) :
  ascii_only s ->
  x ∈ normalize_tags (text := ascii_text) (Some s) -> clean_tag x.
Proof.
  intros _. rewrite normalize_tags_ascii.
  destruct (String.eqb s ""); [set_solver|].
  rewrite elem_of_list_to_set, list_elem_of_In, in_map_iff.
  intros (t & <- & Ht).
  apply list_elem_of_In, list_elem_of_filter in Ht as [Hne Ht].
  unfold clean_tag. repeat split.
  - intros E. apply (proj1 (lower_empty _)) in E. contradiction.
  - rewrite strip_lower, strip_idem. reflexivity.
  - apply lower_idem.
  - unfold split in Ht. apply list_elem_of_In, in_map_iff in Ht as (p & <- & Hp).
    unfold ascii_lower, ascii_strip.
    rewrite !list_ascii_of_string_of_list_ascii. intros Hin.
    apply in_map_iff in Hin as (c & Hc & Hin).
    assert (c = ","%char) as ->.
    { apply Ascii.eqb_eq. rewrite <- lower_char_comma, Hc. reflexivity. }
    apply strip_chars_In in Hin.
    exact (split_chars_no_sep _ _ _ Hp Hin).
Qed.

Lemma normalize_tags_clean_witness :
  clean_tag "training".
Proof.
  apply (normalize_tags_clean " AI ,, Training,"%string).
  - repeat constructor.
  - apply (bool_decide_unpack _). vm_compute. exact I.
Defined.

(** ** The reported best match *)

Section BestMatch.

Context {text : Text}.

(** When a best match is reported, it is one of the consultant's
    experiences, its fields are those of that experience, the number of
    common tags is at most the number of reference tags, and the experience
    shares the client or at least one tag with the reference project. *)
Theorem best_match_is_related (now : Clock) (cps : list ConsultantProject)
    (ref : Project) (score : Z) (info : best_match_info) :
  Forall well_dated cps ->
  calculate_project_similarity now cps (Some ref) = Ok (score, Some info) ->
  exists cp,
    cp ∈ cps /\
    bm_project_id info = project_id (cp_project cp) /\
    bm_project_name info = project_name (cp_project cp) /\
    bm_role info = cp_role cp /\
    bm_intensity info = cp_intensity_level cp /\
    0 <= bm_common_tags info <= bm_total_ref_tags info /\
    (bm_client_match info = true \/ 0 < bm_common_tags info).
Proof.
  intros Hd Hc.
  destruct (calculate_project_similarity_spec now cps ref Hd)
    as (_ & _ & sims & best & info0 & score0 & Hsims & Hc0 & _ & _ & Hcase & _).
  rewrite Hc in Hc0. injection Hc0 as <- <-.
  destruct Hcase as [[Hn _]|(i & cp & info' & Hi & Hsi & Hgt & _ & Hinfo & E)];
    [discriminate|].
  injection E as ->.
  assert (Hcp : cp ∈ cps) by (eapply list_elem_of_lookup_2; exact Hi).
  assert (Hsim : similarity_of now (norm_client (project_client ref))
                   (normalize_tags (project_domain_tags ref)) cp = Ok best).
  { eapply Forall2_lookup_lr in Hsims; [|exact Hi|exact Hsi]. exact Hsims. }
  assert (Hrel : ~ unrelated ref cp).
  { intros Hu. rewrite Forall_forall in Hd.
    rewrite (similarity_of_unrelated now ref cp (Hd cp Hcp) Hu) in Hsim.
    injection Hsim as <-. discriminate. }
  unfold match_info_of in Hinfo. bind_inv Hinfo as desc Hdesc.
  injection Hinfo as <-. simpl.
  exists cp. repeat (split; [first [assumption|reflexivity|lia]|]).
  split.
  - split; [lia|]. apply Nat2Z.inj_le, subseteq_size, intersection_subseteq_l.
  - unfold unrelated in Hrel.
    pose proof (client_match_of_range (norm_client (project_client ref))
                  (norm_client (project_client (cp_project cp)))) as Hr.
    destruct (Z.eqb_spec (client_match_of (norm_client (project_client ref))
                  (norm_client (project_client (cp_project cp)))) 1) as [E|E];
      [left; reflexivity|right].
    destruct (size (normalize_tags (project_domain_tags ref)
                    ∩ normalize_tags (project_domain_tags (cp_project cp))))
      eqn:Es; [|lia].
    exfalso. apply Hrel. split; [lia|].
    apply size_empty_iff in Es. apply leibniz_equiv. exact Es.
Qed.

End BestMatch.

Lemma best_match_is_related_witness :
  exists score info cp,
    calculate_project_similarity example_clock
      [experience example_other (Some 10) (Some 2026) (Some 5);
       experience example_past (Some 3) (Some 2025) (Some 4)]
      (Some example_reference) = Ok (score, Some info) /\
    bm_project_id info = project_id (cp_project cp) /\
    (bm_client_match info = true \/ 0 < bm_common_tags info).
Proof.
  eassert (H : calculate_project_similarity example_clock
      [experience example_other (Some 10) (Some 2026) (Some 5);
       experience example_past (Some 3) (Some 2025) (Some 4)]
      (Some example_reference) = Ok (_, Some _)) by (vm_compute; reflexivity).
  assert (Hd : Forall well_dated
      [experience example_other (Some 10) (Some 2026) (Some 5);
       experience example_past (Some 3) (Some 2025) (Some 4)]).
  { constructor; [|constructor; [|constructor]].
    - apply (well_dated_given _ 2026 10); [reflexivity|reflexivity|lia|lia].
    - apply (well_dated_given _ 2025 3); [reflexivity|reflexivity|lia|lia]. }
  destruct (best_match_is_related _ _ _ _ _ Hd H)
    as (cp & _ & H1 & _ & _ & _ & _ & H2).
  do 3 eexists. split; [exact H|]. split; [exact H1|exact H2].
Defined.

(** ** The skills dictionary *)

Lemma skills_dict_fold (l : list ConsultantSkill) (k : Z) : forall d0 : gmap Z Z,
  foldl (fun d cs => <[cs_skill_id cs := cs_level cs]> d) d0 l !! k
  = match last (filter (fun cs => cs_skill_id cs = k) l) with
    | Some cs => Some (cs_level cs)
    | None => d0 !! k
    end.
Proof.
  induction l as [|x r IH]; intros d0; [reflexivity|].
  simpl foldl. rewrite IH, filter_cons.
  destruct (decide (cs_skill_id x = k)) as [E|E].
  - rewrite last_cons.
    destruct (last (filter (fun cs => cs_skill_id cs = k) r)); [reflexivity|].
    rewrite E, lookup_insert_eq. reflexivity.
  - destruct (last (filter (fun cs => cs_skill_id cs = k) r)); [reflexivity|].
    rewrite lookup_insert_ne by exact E. reflexivity.
Qed.

(** The level the skill fit reads for a skill is the level of the
    consultant's last row for that skill, and 0 when there is no row. *)
Theorem skills_dict_last_row (c : Consultant) (skill_id : Z) :
  default 0 (get_consultant_skills_dict c !! skill_id)
  = match last (filter (fun cs => cs_skill_id cs = skill_id)
                       (consultant_skills c)) with
    | Some cs => cs_level cs
    | None => 0
    end.
Proof.
  unfold get_consultant_skills_dict. rewrite skills_dict_fold.
  destruct (last _); reflexivity.
Qed.

(** ** More recent and more intense experiences *)


Section RecencyIntensity.

Context {text : Text}.














End RecencyIntensity.

